(** * A shallow embedding of the update engine's payload writer,
      preference store and dynamic-partition controller.

    The development follows the C++ sources:
    - [payload_generator/payload_file.cc]  (module [PayloadFile]),
    - [common/prefs.cc]                    (module [Prefs]),
    - the dynamic-partition controller, of which only the unit test is
      available                            (module [DynamicPartitionControl]).

    Unsigned 64-bit quantities are integers in [Z] whose wrap-around is written
    out with [wrap64]; files are lists of bytes; the C++ convention "return
    false" is the constructor [Failure] and a fatal log or failed [CHECK] is
    [Fatal]. *)

From Stdlib Require Import ZArith List Lia Bool String Ascii Sorted.
From Stdlib Require Import Strings.Byte.
From stdpp Require Import base option gmap strings list.

Local Open Scope Z_scope.

(** ** Outcomes of a C++ function returning [bool] that may also abort *)

Inductive outcome (A : Type) : Type :=
| Ok (a : A)      (* returned true, with the state it leaves behind *)
| Failure            (* returned false (TEST_AND_RETURN_FALSE and friends) *)
| Fatal.          (* LOG(FATAL) or a failed CHECK: the process dies *)
Arguments Ok {A} a.
Arguments Failure {A}.
Arguments Fatal {A}.

Definition obind {A B} (m : outcome A) (k : A -> outcome B) : outcome B :=
  match m with
  | Ok a => k a
  | Failure => Failure
  | Fatal => Fatal
  end.

#[global] Instance outcome_bind : MBind outcome :=
  fun A B k m => obind m k.
#[global] Instance outcome_ret : MRet outcome := @Ok.

(** TEST_AND_RETURN_FALSE applied to an optional result. *)
Definition test_and_return_false {A} (o : option A) : outcome A :=
  match o with
  | Some a => Ok a
  | None => Failure
  end.

(** TEST_AND_RETURN_FALSE applied to a condition. *)
Definition require (b : bool) : outcome unit :=
  if b then Ok tt else Failure.

Definition wrap64 (z : Z) : Z := z mod 2 ^ 64.
Definition wrap32 (z : Z) : Z := z mod 2 ^ 32.

(** The byte holding the low eight bits of [z]. *)
Definition byte_of_Z (z : Z) : byte :=
  match Byte.of_N (Z.to_N (Z.land z 255)) with
  | Some b => b
  | None => x00
  end.

(** [htobe64] followed by a write of the eight bytes in memory order. *)
Definition htobe64 (v : Z) : list byte :=
  map (fun i => byte_of_Z (Z.shiftr v (8 * i))) [7; 6; 5; 4; 3; 2; 1; 0].

(** [htobe32]: the argument is first converted to [uint32_t]. *)
Definition htobe32 (v : Z) : list byte :=
  map (fun i => byte_of_Z (Z.shiftr (wrap32 v) (8 * i))) [3; 2; 1; 0].

(** The [n] low bytes of [v], most significant first. *)
Fixpoint be_bytes (n : nat) (v : Z) : list byte :=
  match n with
  | O => []
  | S k => byte_of_Z (Z.shiftr v (8 * Z.of_nat k)) :: be_bytes k v
  end.

(** The unsigned integer a sequence of bytes denotes in big-endian order. *)
Definition be_decode (bytes : list byte) : Z :=
  fold_left (fun acc b => acc * 256 + Z.of_N (Byte.to_N b)) bytes 0.

Module PayloadFile.

(** *** Data model (update_metadata.proto as used by payload_file.cc) *)

Inductive InstallOperation_Type :=
| REPLACE | REPLACE_BZ | REPLACE_XZ | ZERO | DISCARD | SOURCE_COPY
| BROTLI_BSDIFF | PUFFDIFF | ZUCCHINI | LZ4DIFF_BSDIFF | LZ4DIFF_PUFFDIFF.

Record Extent := { start_block : Z; num_blocks : Z }.

(** Optional protobuf fields are [option]s: [has_x()] is [is_Some] and the
    accessor [x()] of an unset numeric field yields 0. *)
Record InstallOperation := {
  type : InstallOperation_Type;
  data_offset : option Z;
  data_length : option Z;
  src_extents : list Extent;
  dst_extents : list Extent;
  data_sha256_hash : option (list byte);
}.

Definition has_data_offset (op : InstallOperation) : bool :=
  bool_decide (is_Some (data_offset op)).
Definition get_data_offset (op : InstallOperation) : Z :=
  default 0 (data_offset op).
Definition get_data_length (op : InstallOperation) : Z :=
  default 0 (data_length op).

Definition set_data_offset (v : Z) (op : InstallOperation) : InstallOperation :=
  {| type := type op; data_offset := Some v; data_length := data_length op;
     src_extents := src_extents op; dst_extents := dst_extents op;
     data_sha256_hash := data_sha256_hash op |}.

Definition set_data_sha256_hash (h : list byte) (op : InstallOperation)
  : InstallOperation :=
  {| type := type op; data_offset := data_offset op;
     data_length := data_length op;
     src_extents := src_extents op; dst_extents := dst_extents op;
     data_sha256_hash := Some h |}.

Record AnnotatedOperation := { aop_name : string; op : InstallOperation }.

Record PartitionInfo := { info_size : option Z; info_hash : option (list byte) }.

Record PostInstallConfig := {
  run : bool;
  path : string;
  filesystem_type : string;
  optional : bool;
}.

Record VerityConfig := {
  hash_tree_data_extent : Extent;
  hash_tree_extent : Extent;
  hash_tree_algorithm : string;
  hash_tree_salt : list byte;
  fec_data_extent : Extent;
  fec_extent : Extent;
  fec_roots : Z;
}.

Record CowSizeInfo := { cow_size : Z; op_count_max : Z }.

Record CowMergeOperation := {
  merge_src : Extent;
  merge_dst : Extent;
}.

(** [PayloadFile::Partition] *)
Record Partition := {
  name : string;
  aops : list AnnotatedOperation;
  cow_merge_sequence : list CowMergeOperation;
  postinstall : PostInstallConfig;
  verity : VerityConfig;
  version : string;
  cow_info : CowSizeInfo;
  old_info : PartitionInfo;
  new_info : PartitionInfo;
}.

Definition with_aops (l : list AnnotatedOperation) (p : Partition) : Partition :=
  {| name := name p; aops := l; cow_merge_sequence := cow_merge_sequence p;
     postinstall := postinstall p; verity := verity p; version := version p;
     cow_info := cow_info p; old_info := old_info p; new_info := new_info p |}.

(** The verity fields of a [PartitionUpdate]. *)
Record HashTreeFields := {
  pu_hash_tree_data_extent : Extent;
  pu_hash_tree_extent : Extent;
  pu_hash_tree_algorithm : string;
  pu_hash_tree_salt : option (list byte);
}.

Record FecFields := {
  pu_fec_data_extent : Extent;
  pu_fec_extent : Extent;
  pu_fec_roots : Z;
}.

Record PostInstallFields := {
  pu_postinstall_path : option string;
  pu_filesystem_type : option string;
  pu_postinstall_optional : bool;
}.

Record PartitionUpdate := {
  partition_name : string;
  pu_version : option string;
  estimate_cow_size : option Z;
  estimate_op_count_max : option Z;
  run_postinstall : option PostInstallFields;
  hash_tree : option HashTreeFields;
  fec : option FecFields;
  operations : list InstallOperation;
  merge_operations : list CowMergeOperation;
  old_partition_info : option PartitionInfo;
  new_partition_info : option PartitionInfo;
}.

Record DeltaArchiveManifest := {
  minor_version : Z;
  block_size : Z;
  max_timestamp : Z;
  partitions : list PartitionUpdate;
  signatures_offset : option Z;
  signatures_size : option Z;
}.

Definition get_signatures_offset (m : DeltaArchiveManifest) : Z :=
  default 0 (signatures_offset m).
Definition get_signatures_size (m : DeltaArchiveManifest) : Z :=
  default 0 (signatures_size m).

Definition set_partitions (ps : list PartitionUpdate) (m : DeltaArchiveManifest)
  : DeltaArchiveManifest :=
  {| minor_version := minor_version m; block_size := block_size m;
     max_timestamp := max_timestamp m; partitions := ps;
     signatures_offset := signatures_offset m;
     signatures_size := signatures_size m |}.

(** Modelled from the spec: [PayloadSigner::AddSignatureToManifest] is defined
    in payload_signer.cc, which is not among the sources; the manifest's
    [signatures_offset] and [signatures_size] are "relative to the start of the
    data-blob region", so the call records its two arguments there. *)
Definition AddSignatureToManifest (signature_blob_offset signature_blob_length : Z)
    (m : DeltaArchiveManifest) : DeltaArchiveManifest :=
  {| minor_version := minor_version m; block_size := block_size m;
     max_timestamp := max_timestamp m; partitions := partitions m;
     signatures_offset := Some signature_blob_offset;
     signatures_size := Some signature_blob_length |}.

(** Modelled from the spec: [kDeltaMagic] is declared in payload_constants.h,
    which is not among the sources; the payload starts with "a 4-byte magic
    literal CrAU". *)
Definition kDeltaMagic : list byte := [x43; x72; x41; x55].

(** *** The environment: library and repository code outside the sources *)

Record Environment := {
  (** [HashCalculator::RawHashOfData] *)
  RawHashOfData : list byte -> option (list byte);
  (** [HashCalculator::RawHashOfFile payload_file length]: the file is given
      by its current content. *)
  RawHashOfFile : list byte -> Z -> option (list byte);
  (** [FileWriter::Write]: whether writing a buffer to the file at the
      given path, after the given content, succeeds. *)
  Write_succeeds : string -> list byte -> list byte -> bool;
  (** [DirectFileWriter::Open path (O_WRONLY | O_CREAT | O_TRUNC)] returns 0 *)
  Open_for_write : string -> bool;
  (** [open path O_RDONLY] returns a valid descriptor *)
  Open_for_read : string -> bool;
  (** [DeltaArchiveManifest::SerializeToString] *)
  SerializeToString : DeltaArchiveManifest -> option (list byte);
  (** [PayloadSigner::SignatureBlobLength {private_key_path}] *)
  SignatureBlobLength : string -> option Z;
  (** [PayloadSigner::SignHashWithKeys hash {private_key_path}] *)
  SignHashWithKeys : list byte -> string -> option (list byte);
  (** [PayloadSigner::SignPayload payload_file {private_key_path}
       metadata_size metadata_signature_size signatures_offset] *)
  SignPayload : list byte -> string -> Z -> Z -> Z -> option (list byte);
  (** [VerityConfig::IsEmpty] *)
  VerityConfig_IsEmpty : VerityConfig -> bool;
}.

Section WithEnvironment.

Context (env : Environment).

(** [FileWriter::Write] on the file the writer was opened on, given by its
    path and its content. *)
Definition FileWriter_Write (path : string) (file buf : list byte)
  : outcome (list byte) :=
  if Write_succeeds env path file buf then Ok (file ++ buf) else Failure.

(** [pread(fd, buf, count, offset)]: [None] is the result -1 (the offset,
    converted to [off_t], is negative); otherwise the bytes read, possibly
    fewer than [count] at the end of the file. *)
Definition pread (file : list byte) (count offset : Z) : option (list byte) :=
  if 2 ^ 63 <=? offset then None
  else Some (take (Z.to_nat count) (drop (Z.to_nat offset) file)).

(** [PayloadFile::AddOperationHash] *)
Definition AddOperationHash (o : InstallOperation) (buf : list byte)
  : outcome InstallOperation :=
  hash ← test_and_return_false (RawHashOfData env buf);
  Ok (set_data_sha256_hash hash o).

(** The state threaded through the loops of [ReorderDataBlobs]: the content
    written so far and [out_file_size]. *)
Record ReorderState := { written : list byte; out_file_size : Z }.

(** The body of the inner loop of [ReorderDataBlobs] for one operation;
    [new_data_blobs_path] is the file of [writer]. *)
Definition ReorderOne (in_file : list byte) (new_data_blobs_path : string)
    (st : ReorderState) (aop : AnnotatedOperation)
  : outcome (AnnotatedOperation * ReorderState) :=
  match data_offset (op aop) with
  | None => Ok (aop, st)                           (* continue *)
  | Some offset =>
    match data_length (op aop) with
    | None => Fatal                                (* CHECK(has_data_length) *)
    | Some len =>
      (* brillo::Blob buf(len): no vector is that long *)
      if 2 ^ 63 <=? len then Fatal else
      match pread in_file len offset with
      | None => Failure
      | Some buf =>
        _ ← require (Z.of_nat (length buf) =? len);
        o1 ← AddOperationHash (op aop) buf;
        let o2 := set_data_offset (out_file_size st) o1 in
        w ← FileWriter_Write new_data_blobs_path (written st) buf;
        Ok ({| aop_name := aop_name aop; op := o2 |},
            {| written := w;
               out_file_size := wrap64 (out_file_size st + Z.of_nat (length buf)) |})
      end
    end
  end.

Fixpoint ReorderAops (in_file : list byte) (new_data_blobs_path : string)
    (st : ReorderState) (l : list AnnotatedOperation)
  : outcome (list AnnotatedOperation * ReorderState) :=
  match l with
  | [] => Ok ([], st)
  | aop :: rest =>
    '(aop', st1) ← ReorderOne in_file new_data_blobs_path st aop;
    '(rest', st2) ← ReorderAops in_file new_data_blobs_path st1 rest;
    Ok (aop' :: rest', st2)
  end.

Fixpoint ReorderParts (in_file : list byte) (new_data_blobs_path : string)
    (st : ReorderState) (ps : list Partition)
  : outcome (list Partition * ReorderState) :=
  match ps with
  | [] => Ok ([], st)
  | p :: rest =>
    '(l', st1) ← ReorderAops in_file new_data_blobs_path st (aops p);
    '(rest', st2) ← ReorderParts in_file new_data_blobs_path st1 rest;
    Ok (with_aops l' p :: rest', st2)
  end.

(** [PayloadFile::ReorderDataBlobs]: [data_blobs] is the content of the file
    at [data_blobs_path]; the new file is created empty.  The result is the
    updated [part_vec_] and the content of the new file. *)
Definition ReorderDataBlobs (part_vec : list Partition)
    (data_blobs_path : string) (data_blobs : list byte)
    (new_data_blobs_path : string)
  : outcome (list Partition * list byte) :=
  _ ← require (Open_for_read env data_blobs_path);
  _ ← require (Open_for_write env new_data_blobs_path);
  '(ps, st) ← ReorderParts data_blobs new_data_blobs_path
                {| written := []; out_file_size := 0 |} part_vec;
  Ok (ps, written st).

(** The loop "Check that install op blobs are in order" of [WritePayload]:
    the result is the final [next_blob_offset]. *)
Fixpoint CheckAops (next_blob_offset : Z) (l : list AnnotatedOperation)
  : outcome Z :=
  match l with
  | [] => Ok next_blob_offset
  | aop :: rest =>
    if has_data_offset (op aop) then
      if get_data_offset (op aop) =? next_blob_offset then
        CheckAops (wrap64 (next_blob_offset + get_data_length (op aop))) rest
      else Fatal                          (* LOG(FATAL) << "bad blob offset! " *)
    else CheckAops next_blob_offset rest  (* continue *)
  end.

Fixpoint CheckParts (next_blob_offset : Z) (ps : list Partition) : outcome Z :=
  match ps with
  | [] => Ok next_blob_offset
  | p :: rest =>
    next ← CheckAops next_blob_offset (aops p);
    CheckParts next rest
  end.

(** The body of the loop copying [part_vec_] to the manifest. *)
Definition PartitionToUpdate (part : Partition) : PartitionUpdate :=
  {| partition_name := name part;
     pu_version :=
       if bool_decide (version part = EmptyString) then None
       else Some (version part);
     estimate_cow_size :=
       if 0 <? cow_size (cow_info part) then Some (cow_size (cow_info part))
       else None;
     estimate_op_count_max :=
       if 0 <? op_count_max (cow_info part)
       then Some (op_count_max (cow_info part)) else None;
     run_postinstall :=
       if run (postinstall part) then
         Some {| pu_postinstall_path :=
                   if bool_decide (path (postinstall part) = EmptyString)
                   then None else Some (path (postinstall part));
                 pu_filesystem_type :=
                   if bool_decide
                        (filesystem_type (postinstall part) = EmptyString)
                   then None else Some (filesystem_type (postinstall part));
                 pu_postinstall_optional := optional (postinstall part) |}
       else None;
     hash_tree :=
       if negb (VerityConfig_IsEmpty env (verity part))
          && negb (num_blocks (hash_tree_extent (verity part)) =? 0)
       then Some {| pu_hash_tree_data_extent :=
                      hash_tree_data_extent (verity part);
                    pu_hash_tree_extent := hash_tree_extent (verity part);
                    pu_hash_tree_algorithm := hash_tree_algorithm (verity part);
                    pu_hash_tree_salt :=
                      match hash_tree_salt (verity part) with
                      | [] => None
                      | salt => Some salt
                      end |}
       else None;
     fec :=
       if negb (VerityConfig_IsEmpty env (verity part))
          && negb (num_blocks (fec_extent (verity part)) =? 0)
       then Some {| pu_fec_data_extent := fec_data_extent (verity part);
                    pu_fec_extent := fec_extent (verity part);
                    pu_fec_roots := fec_roots (verity part) |}
       else None;
     operations := map op (aops part);
     merge_operations := cow_merge_sequence part;
     old_partition_info :=
       if bool_decide (is_Some (info_size (old_info part)))
          || bool_decide (is_Some (info_hash (old_info part)))
       then Some (old_info part) else None;
     new_partition_info :=
       if bool_decide (is_Some (info_size (new_info part)))
          || bool_decide (is_Some (info_hash (new_info part)))
       then Some (new_info part) else None |}.

(** The size of the buffer of the loop appending the data blobs. *)
Definition kBlobBufSize : nat := Z.to_nat (1024 * 1024).

(** The loop "Append the data blobs" of [WritePayload]: [blobs] is what is
    left to read of the ordered blobs file, [file] the payload so far, at
    [payload_file].  Each
    turn reads at most [buf_size] bytes; an empty read is the end of the
    file.  [fuel] bounds the number of turns: one more than the number of
    bytes is always enough (lemma [AppendBlobs_total]), so that the loop
    never runs out of it. *)
Fixpoint AppendBlobs (payload_file : string) (buf_size fuel : nat)
    (blobs file : list byte) : outcome (list byte) :=
  match fuel with
  | O => Failure
  | S fuel' =>
    match take buf_size blobs with
    | [] => Ok file                                        (* 0 == rc: EOF *)
    | buf =>
      file' ← FileWriter_Write payload_file file buf;
      AppendBlobs payload_file buf_size fuel' (drop buf_size blobs) file'
    end
  end.

(** The static overload of [PayloadFile::WritePayload], which writes the
    payload file from a finished manifest.  [ordered_blobs] is the content of
    the file at [ordered_blobs_file].  The result is the content of the payload
    file and the value stored through [metadata_size_out]. *)
Definition WritePayloadManifest (payload_file : string)
    (ordered_blobs_file : string) (ordered_blobs : list byte)
    (private_key_path : string) (major_version : Z)
    (manifest : DeltaArchiveManifest) : outcome (list byte * Z) :=
  serialized_manifest ← test_and_return_false (SerializeToString env manifest);
  let metadata_size :=
    wrap64 (Z.of_nat (length kDeltaMagic) + 2 * 8
            + Z.of_nat (length serialized_manifest)) in
  _ ← require (Open_for_write env payload_file);
  (* Write header *)
  file ← FileWriter_Write payload_file [] kDeltaMagic;
  (* Write major version number *)
  file ← FileWriter_Write payload_file file (htobe64 major_version);
  (* Write protobuf length *)
  file ← FileWriter_Write payload_file file
           (htobe64 (Z.of_nat (length serialized_manifest)));
  let signature_blob_length := get_signatures_size manifest in
  file ← FileWriter_Write payload_file file (htobe32 signature_blob_length);
  let metadata_size := wrap64 (metadata_size + 4) in
  (* Write protobuf *)
  file ← FileWriter_Write payload_file file serialized_manifest;
  (* Write metadata signature blob. *)
  file ← (if bool_decide (private_key_path = EmptyString) then Ok file
          else
            metadata_hash ←
              test_and_return_false (RawHashOfFile env file metadata_size);
            metadata_signature ←
              test_and_return_false
                (SignHashWithKeys env metadata_hash private_key_path);
            FileWriter_Write payload_file file metadata_signature);
  (* Append the data blobs. *)
  _ ← require (Open_for_read env ordered_blobs_file);
  file ← AppendBlobs payload_file kBlobBufSize (S (length ordered_blobs))
           ordered_blobs file;
  (* Write payload signature blob. *)
  file ← (if bool_decide (private_key_path = EmptyString) then Ok file
          else
            signature ←
              test_and_return_false
                (SignPayload env file private_key_path metadata_size
                   signature_blob_length
                   (wrap64 (metadata_size + signature_blob_length
                            + get_signatures_offset manifest)));
            FileWriter_Write payload_file file signature);
  Ok (file, metadata_size).

(** What [PayloadFile::WritePayload] leaves behind when it returns true: the
    manifest, and the outcome of the static overload, whose return value the
    caller does not look at. *)
Record WriteResult := {
  manifest_out : DeltaArchiveManifest;
  written_payload : outcome (list byte * Z);
}.

(** The name pattern of the temporary file of the ordered blobs. *)
Definition kOrderedBlobsFile : string := "CrAU_temp_data.ordered.XXXXXX".

(** [PayloadFile::WritePayload] on the object state ([part_vec_],
    [manifest_], [major_version_]). *)
Definition WritePayload (part_vec : list Partition)
    (manifest : DeltaArchiveManifest) (major_version : Z)
    (payload_file : string)
    (data_blobs_path : string) (data_blobs : list byte)
    (private_key_path : string) : outcome WriteResult :=
  (* Reorder the data blobs with the manifest_. *)
  '(part_vec, ordered_blobs) ←
     ReorderDataBlobs part_vec data_blobs_path data_blobs kOrderedBlobsFile;
  (* Check that install op blobs are in order. *)
  next_blob_offset ← CheckParts 0 part_vec;
  (* Copy the operations and partition info from the part_vec_ to the
     manifest. *)
  let manifest := set_partitions (map PartitionToUpdate part_vec) manifest in
  (* Signatures appear at the end of the blobs. *)
  manifest ← (if bool_decide (private_key_path = EmptyString) then Ok manifest
              else
                signature_blob_length ←
                  test_and_return_false
                    (SignatureBlobLength env private_key_path);
                Ok (AddSignatureToManifest next_blob_offset
                      signature_blob_length manifest));
  Ok {| manifest_out := manifest;
        written_payload :=
          WritePayloadManifest payload_file kOrderedBlobsFile ordered_blobs
            private_key_path major_version manifest |}.

End WithEnvironment.


(** *** Notions used to state the properties of the writer *)

(** Every blob-bearing operation of [ops] sits at the running offset, which
    starts at [start] and advances (modulo 2^64) by the operation's length. *)
Fixpoint offsets_from (start : Z) (ops : list InstallOperation) : Prop :=
  match ops with
  | [] => True
  | o :: rest =>
    match data_offset o with
    | None => offsets_from start rest
    | Some off =>
      off = start /\ 0 <= get_data_length o
      /\ offsets_from (wrap64 (start + get_data_length o)) rest
    end
  end.

Fixpoint last_offset (start : Z) (ops : list InstallOperation) : Z :=
  match ops with
  | [] => start
  | o :: rest =>
    match data_offset o with
    | None => last_offset start rest
    | Some _ => last_offset (wrap64 (start + get_data_length o)) rest
    end
  end.

(** The number of bytes the blob-bearing operations of [ops] announce. *)
Definition blob_bytes (ops : list InstallOperation) : Z :=
  foldr (fun o acc =>
           (if has_data_offset o then get_data_length o else 0) + acc) 0 ops.

(** The operations of all partitions, in order. *)
Definition flat_ops (ps : list Partition) : list InstallOperation :=
  concat (map (fun p => map op (aops p)) ps).

(** The operations of a manifest in emitted order: partition by partition. *)
Definition manifest_operations (m : DeltaArchiveManifest)
  : list InstallOperation :=
  concat (map operations (partitions m)).

(** Those that bear a blob, i.e. have a [data_offset]. *)
Definition blob_operations (m : DeltaArchiveManifest) : list InstallOperation :=
  List.filter has_data_offset (manifest_operations m).

(** The cumulative sums of [lens], starting at [start]: the i-th element is
    [start] plus the sum of the lengths before position i. *)
Fixpoint running_offsets (start : Z) (lens : list Z) : list Z :=
  match lens with
  | [] => []
  | len :: rest => start :: running_offsets (start + len) rest
  end.

(** [blob] occupies the bytes of [file] from [offset] on. *)
Definition blob_at (file : list byte) (offset : Z) (blob : list byte) : Prop :=
  0 <= offset
  /\ take (length blob) (drop (Z.to_nat offset) file) = blob.

(** The payload header and manifest, i.e. the bytes the metadata size
    counts. *)
Definition metadata_bytes (major_version : Z) (manifest : DeltaArchiveManifest)
    (serialized_manifest : list byte) : list byte :=
  kDeltaMagic ++ htobe64 major_version
  ++ htobe64 (Z.of_nat (length serialized_manifest))
  ++ htobe32 (get_signatures_size manifest) ++ serialized_manifest.

(** *** A small environment on which the writer can be run *)

Definition sample_hash (buf : list byte) : list byte :=
  repeat x00 31 ++ [byte_of_Z (Z.of_nat (length buf))].

Definition sample_serialize (m : DeltaArchiveManifest) : list byte :=
  htobe64 (Z.of_nat (length (partitions m)))
  ++ htobe64 (get_signatures_offset m) ++ htobe64 (get_signatures_size m).

(** Every call succeeds; signature blobs have 256 bytes. *)
Definition sample_env : Environment :=
  {| RawHashOfData := fun buf => Some (sample_hash buf);
     RawHashOfFile := fun file n => Some (sample_hash (take (Z.to_nat n) file));
     Write_succeeds := fun _ _ _ => true;
     Open_for_write := fun _ => true;
     Open_for_read := fun _ => true;
     SerializeToString := fun m => Some (sample_serialize m);
     SignatureBlobLength := fun _ => Some 256;
     SignHashWithKeys := fun h _ => Some (repeat xaa 256);
     SignPayload := fun _ _ _ _ _ => Some (repeat xbb 256);
     VerityConfig_IsEmpty := fun v =>
       (num_blocks (hash_tree_extent v) =? 0)
       && (num_blocks (fec_extent v) =? 0) |}.

Definition blob_op (t : InstallOperation_Type) (offset len : Z)
  : AnnotatedOperation :=
  {| aop_name := "op";
     op := {| type := t; data_offset := Some offset; data_length := Some len;
              src_extents := []; dst_extents := [];
              data_sha256_hash := None |} |}.

Definition no_extent : Extent := {| start_block := 0; num_blocks := 0 |}.

Definition sample_partition (n : string) (l : list AnnotatedOperation)
  : Partition :=
  {| name := n; aops := l; cow_merge_sequence := [];
     postinstall := {| run := false; path := EmptyString;
                       filesystem_type := EmptyString;
                       optional := false |};
     verity := {| hash_tree_data_extent := no_extent;
                  hash_tree_extent := no_extent;
                  hash_tree_algorithm := EmptyString; hash_tree_salt := [];
                  fec_data_extent := no_extent; fec_extent := no_extent;
                  fec_roots := 0 |};
     version := EmptyString; cow_info := {| cow_size := 0; op_count_max := 0 |};
     old_info := {| info_size := None; info_hash := None |};
     new_info := {| info_size := Some 4096; info_hash := None |} |}.

Definition sample_manifest : DeltaArchiveManifest :=
  {| minor_version := 0; block_size := 4096; max_timestamp := 0;
     partitions := []; signatures_offset := None; signatures_size := None |}.

(** The empty [private_key_path] of an unsigned payload. *)
Definition no_key : string := EmptyString.

(** Two partitions with one blob each, stored out of order in the blobs
    file. *)
Definition sample_parts : list Partition :=
  [ sample_partition "system" [blob_op REPLACE 1 2];
    sample_partition "vendor" [blob_op REPLACE 0 1] ].

Definition sample_blobs : list byte := [x42; x41; x41].

(** Two operations, the first of which bears an empty blob. *)
Definition empty_blob_parts : list Partition :=
  [ sample_partition "system" [blob_op REPLACE 0 0; blob_op REPLACE 0 1] ].

(** The sample environment on a disk where the payload file cannot be
    created. *)
Definition readonly_env : Environment :=
  {| RawHashOfData := RawHashOfData sample_env;
     RawHashOfFile := RawHashOfFile sample_env;
     Write_succeeds := Write_succeeds sample_env;
     Open_for_write := fun path => negb (String.eqb path "payload.bin");
     Open_for_read := Open_for_read sample_env;
     SerializeToString := SerializeToString sample_env;
     SignatureBlobLength := SignatureBlobLength sample_env;
     SignHashWithKeys := SignHashWithKeys sample_env;
     SignPayload := SignPayload sample_env;
     VerityConfig_IsEmpty := VerityConfig_IsEmpty sample_env |}.

(** The signed sample payload. *)
Definition sample_signed : outcome WriteResult :=
  WritePayload sample_env sample_parts sample_manifest 2 "payload.bin"
    "blobs.bin" sample_blobs "key.pem".

End PayloadFile.

(** ** The preference store (common/prefs.cc) *)

Module Prefs.

(** *** Characters and strings *)

Definition code (c : ascii) : Z := Z.of_N (N_of_ascii c).

(** [isalpha], [isdigit] and [isspace] of the C locale. *)
Definition isalpha (c : ascii) : bool :=
  ((65 <=? code c) && (code c <=? 90)) || ((97 <=? code c) && (code c <=? 122)).
Definition isdigit (c : ascii) : bool := (48 <=? code c) && (code c <=? 57).
Definition isspace (c : ascii) : bool :=
  (code c =? 32) || ((9 <=? code c) && (code c <=? 13)).

(** Modelled from the spec: [kKeySeparator] is declared in prefs_interface.h,
    which is not among the sources; key paths are "segments separated by /". *)
Definition kKeySeparator : ascii := "/"%char.

Fixpoint skip_spaces (l : list ascii) : list ascii :=
  match l with
  | c :: rest => if isspace c then skip_spaces rest else l
  | [] => []
  end.

(** [android::base::Trim]: drops the white space at both ends. *)
Definition Trim (s : string) : string :=
  string_of_list_ascii
    (rev (skip_spaces (rev (skip_spaces (list_ascii_of_string s))))).

(** The characters of a [std::string] up to the first NUL, as [c_str()] shows
    them to a C function. *)
Fixpoint c_str (l : list ascii) : list ascii :=
  match l with
  | c :: rest => if code c =? 0 then [] else c :: c_str rest
  | [] => []
  end.

(** The value of [c] as a digit in [base] (10 or 16). *)
Definition digit_value (base : Z) (c : ascii) : option Z :=
  if isdigit c then Some (code c - 48)
  else if (base =? 16) && (97 <=? code c) && (code c <=? 102)
       then Some (code c - 87)
  else if (base =? 16) && (65 <=? code c) && (code c <=? 70)
       then Some (code c - 55)
  else None.

(** The digits at the head of [l]: their value on top of [acc], how many
    there are, and what follows them. *)
Fixpoint read_digits (base : Z) (acc : Z) (count : nat) (l : list ascii)
  : Z * nat * list ascii :=
  match l with
  | c :: rest =>
    match digit_value base c with
    | Some d => read_digits base (acc * base + d) (S count) rest
    | None => (acc, count, l)
    end
  | [] => (acc, count, l)
  end.

Definition INT64_MIN : Z := - 2 ^ 63.
Definition INT64_MAX : Z := 2 ^ 63 - 1.

(** [strtoll(s, &end, base)] for a base of 10 or 16 on a string without
    leading white space: an optional sign, for base 16 an optional "0x" or
    "0X" when a hexadecimal digit follows it, then the digits.  The result is
    the value, or [None] for [ERANGE], and what is left at [end]; without any
    digit [end] is [s]. *)
Definition strtoll (s : list ascii) (base : Z) : option Z * list ascii :=
  let '(negative, body) :=
    match s with
    | c :: rest =>
      if code c =? 45 then (true, rest)            (* '-' *)
      else if code c =? 43 then (false, rest)      (* '+' *)
      else (false, s)
    | [] => (false, s)
    end in
  let digits :=
    if base =? 16 then
      match body with
      | c :: x :: h :: rest =>
        if (code c =? 48) && ((code x =? 120) || (code x =? 88))
           && bool_decide (is_Some (digit_value 16 h))
        then h :: rest else body
      | _ => body
      end
    else body in
  let '(value, count, rest) := read_digits base 0 0 digits in
  match count with
  | O => (Some 0, s)
  | S _ =>
    let value := if negative then - value else value in
    if (INT64_MIN <=? value) && (value <=? INT64_MAX) then (Some value, rest)
    else (None, rest)
  end.

(** The base [android::base::ParseInt] chooses: 16 when the string starts
    with "0x" or "0X". *)
Definition ParseInt_base (s : list ascii) : Z :=
  match s with
  | c :: x :: _ =>
    if (code c =? 48) && ((code x =? 120) || (code x =? 88)) then 16 else 10
  | _ => 10
  end.

(** [android::base::ParseInt<int64_t>] on the content of a [std::string]. *)
Definition ParseInt (str : string) : option Z :=
  let s := skip_spaces (c_str (list_ascii_of_string str)) in
  match strtoll s (ParseInt_base s) with
  | (None, _) => None                               (* errno != 0 *)
  | (Some result, rest) =>
    if bool_decide (rest = s) then None             (* s == end *)
    else match rest with
         | _ :: _ => None                            (* *end != 0 *)
         | [] =>
           if (result <? INT64_MIN) || (INT64_MAX <? result) then None
           else Some result
         end
  end.

Definition digit_char (d : Z) : ascii := ascii_of_N (Z.to_N (48 + d)).

(** The decimal digits of [n], put in front of [acc]; [fuel] bounds their
    number. *)
Fixpoint decimal_digits (fuel : nat) (n : Z) (acc : list ascii) : list ascii :=
  match fuel with
  | O => acc
  | S fuel' =>
    let acc' := digit_char (n mod 10) :: acc in
    if n <? 10 then acc' else decimal_digits fuel' (n / 10) acc'
  end.

(** [std::format("{}", value)] for an [int64_t]: at most 19 digits after the
    sign. *)
Definition format_int64 (value : Z) : string :=
  string_of_list_ascii
    (if value <? 0 then "-"%char :: decimal_digits 19 (- value) []
     else decimal_digits 19 value []).

(** A character that is a decimal digit. *)
Definition is_decimal (c : ascii) : Prop := 48 <= code c <= 57.

(** The characters [format_int64] produces: digits and the minus sign. *)
Definition is_numeric (c : ascii) : Prop := is_decimal c \/ code c = 45.

(** *** The file system under the preference directory

    Two directories matter: the preference directory [<root>] and its sibling
    [<root>_tmp].  A directory is given by the files beneath it, keyed by
    their path relative to the directory; sub-directories are not represented
    on their own, so that creating or pruning an empty sub-directory changes
    nothing.  A file is told from another by the text of its path: this is
    the file system for paths written in the one canonical way (no empty
    segment, as in "dlc//a" for "dlc/a") that name no directory, and the
    properties that relate the files of several keys are stated for such
    keys.  An operation that changes the file system may fail for reasons
    of its own (a full or read-only disk): [faults] tells, for each such
    operation to come, whether it does. *)

Inductive Location := PrefsDir | TemporaryDir.

Inductive Access :=
| Stat (l : Location) (file : string)
| ReadFile (l : Location) (file : string)
| WriteFile (l : Location) (file : string)
| RemoveFile (l : Location) (file : string)
| MakeDir (l : Location)
| RemoveDir (l : Location)
| CopyDir
| RenameDir
| ListDir (l : Location)
| Fsync.

Record FileSystem := {
  prefs : option (gmap string string);
  prefs_tmp : option (gmap string string);
  faults : list bool;
  accesses : list Access;
}.

Definition dir_of (l : Location) (fs : FileSystem)
  : option (gmap string string) :=
  match l with
  | PrefsDir => prefs fs
  | TemporaryDir => prefs_tmp fs
  end.

Definition set_dir (l : Location) (d : option (gmap string string))
    (fs : FileSystem) : FileSystem :=
  match l with
  | PrefsDir =>
    {| prefs := d; prefs_tmp := prefs_tmp fs; faults := faults fs;
       accesses := accesses fs |}
  | TemporaryDir =>
    {| prefs := prefs fs; prefs_tmp := d; faults := faults fs;
       accesses := accesses fs |}
  end.

Definition record (a : Access) (fs : FileSystem) : FileSystem :=
  {| prefs := prefs fs; prefs_tmp := prefs_tmp fs; faults := faults fs;
     accesses := accesses fs ++ [a] |}.

(** Whether the next changing operation fails, and the file system with that
    fault consumed. *)
Definition next_fault (fs : FileSystem) : bool * FileSystem :=
  match faults fs with
  | [] => (false, fs)
  | f :: rest =>
    (f, {| prefs := prefs fs; prefs_tmp := prefs_tmp fs; faults := rest;
           accesses := accesses fs |})
  end.

(** [std::filesystem::exists] on one of the two directories. *)
Definition exists_dir (l : Location) (fs : FileSystem) : bool * FileSystem :=
  (bool_decide (is_Some (dir_of l fs)), record (Stat l EmptyString) fs).

(** [base::PathExists] on the path of a file (a path that names a
    sub-directory, which exists for the code, is not among the files). *)
Definition PathExists (l : Location) (file : string) (fs : FileSystem)
  : bool * FileSystem :=
  (bool_decide (is_Some (dir_of l fs ≫= fun d => d !! file)),
   record (Stat l file) fs).

(** [base::DirectoryExists(filename.DirName())] *)
Definition DirectoryExists (l : Location) (fs : FileSystem)
  : bool * FileSystem :=
  (bool_decide (is_Some (dir_of l fs)), record (Stat l EmptyString) fs).

(** [base::CreateDirectory(filename.DirName())] *)
Definition CreateDirectory (l : Location) (fs : FileSystem)
  : bool * FileSystem :=
  let '(fault, fs) := next_fault (record (MakeDir l) fs) in
  if fault then (false, fs)
  else match dir_of l fs with
       | Some _ => (true, fs)
       | None => (true, set_dir l (Some ∅) fs)
       end.

(** [base::ReadFileToString] *)
Definition ReadFileToString (l : Location) (file : string) (fs : FileSystem)
  : option string * FileSystem :=
  (dir_of l fs ≫= fun d => d !! file, record (ReadFile l file) fs).

(** Modelled from the spec: [utils::WriteStringToFileAtomic] is defined in
    utils.cc, which is not among the sources; "writes are atomic per key
    (write-to-temp + rename)": the file has its new content or is as it
    was. *)
Definition WriteStringToFileAtomic (l : Location) (file value : string)
    (fs : FileSystem) : bool * FileSystem :=
  let '(fault, fs) := next_fault (record (WriteFile l file) fs) in
  if fault then (false, fs)
  else match dir_of l fs with
       | Some d => (true, set_dir l (Some (<[file := value]> d)) fs)
       | None => (false, fs)
       end.

(** [base::DeleteFile] on the path of a file: true also when there is no
    such file (a path that names a sub-directory with files, where the code
    fails, is not among the files). *)
Definition DeleteFile (l : Location) (file : string) (fs : FileSystem)
  : bool * FileSystem :=
  let '(fault, fs) := next_fault (record (RemoveFile l file) fs) in
  if fault then (false, fs)
  else match dir_of l fs with
       | Some d => (true, set_dir l (Some (delete file d)) fs)
       | None => (true, fs)
       end.

(** [std::filesystem::remove_all(GetTemporaryDir(), e)]: false when [e]
    holds an error. *)
Definition remove_all (l : Location) (fs : FileSystem) : bool * FileSystem :=
  let '(fault, fs) := next_fault (record (RemoveDir l) fs) in
  if fault then (false, fs) else (true, set_dir l None fs).

(** Modelled from the spec: [utils::DeleteDirectory] is defined in utils.cc,
    which is not among the sources; on submit "rmdir <root>". *)
Definition DeleteDirectory (l : Location) (fs : FileSystem)
  : bool * FileSystem :=
  let '(fault, fs) := next_fault (record (RemoveDir l) fs) in
  if fault then (false, fs) else (true, set_dir l None fs).

(** Whether a relative path names a file right under the directory. *)
Definition top_level (file : string) : bool :=
  negb (existsb (fun c => bool_decide (c = kKeySeparator))
          (list_ascii_of_string file)).

(** [std::filesystem::copy(<root>, <root>_tmp, e)] without options: the
    target is created when missing and receives the files right under the
    source; sub-directories are skipped, and a file the target already has
    is an error.  False when [e] holds an error. *)
Definition copy_dir (fs : FileSystem) : bool * FileSystem :=
  let '(fault, fs) := next_fault (record CopyDir fs) in
  if fault then (false, fs)
  else match prefs fs with
       | None => (false, fs)
       | Some src =>
         let files := filter (fun kv => top_level kv.1 = true) src in
         match prefs_tmp fs with
         | None => (true, set_dir TemporaryDir (Some files) fs)
         | Some dst =>
           if bool_decide (files ##ₘ dst)
           then (true, set_dir TemporaryDir (Some (files ∪ dst)) fs)
           else (false, fs)
         end
       end.

(** [rename(<root>_tmp, <root>) == 0]; the target, when it exists, must be
    an empty directory. *)
Definition rename_tmp (fs : FileSystem) : bool * FileSystem :=
  let '(fault, fs) := next_fault (record RenameDir fs) in
  if fault then (false, fs)
  else match prefs_tmp fs with
       | None => (false, fs)
       | Some src =>
         if bool_decide (prefs fs = None ∨ prefs fs = Some ∅)
         then (true, set_dir TemporaryDir None (set_dir PrefsDir (Some src) fs))
         else (false, fs)
       end.

(** Modelled from the spec: [utils::FsyncDirectory] is defined in utils.cc,
    which is not among the sources; "fsync(parent)" changes no content. *)
Definition FsyncDirectory (fs : FileSystem) : bool * FileSystem :=
  let '(fault, fs) := next_fault (record Fsync fs) in (negb fault, fs).

(** [DeleteEmptyDirectories]: walks the sub-directories and removes the
    empty ones, ignoring errors; no file is touched, and the removals, of
    directories only, are not represented. *)
Definition DeleteEmptyDirectories (l : Location) (fs : FileSystem)
  : FileSystem :=
  record (ListDir l) fs.

(** *** Prefs::FileStorage *)

Definition GetTemporaryDir : Location := TemporaryDir.

(** The check on the characters of a key in [GetFileNameForKey]. *)
Definition key_char_ok (c : ascii) : bool :=
  isalpha c || isdigit c || bool_decide (c = "_"%char)
  || bool_decide (c = "-"%char) || bool_decide (c = kKeySeparator).

Definition key_ok (key : string) : bool :=
  negb (bool_decide (key = EmptyString))
  && forallb key_char_ok (list_ascii_of_string key).

(** The character class [A-Za-z0-9_-/] of the keys. *)
Definition in_key_class (c : ascii) : Prop :=
  65 <= code c <= 90 \/ 97 <= code c <= 122 \/ 48 <= code c <= 57
  \/ c = "_"%char \/ c = "-"%char \/ c = "/"%char.

(** The directory reads and writes go to: [<root>_tmp] when it exists. *)
Definition active_dir (fs : FileSystem) : Location :=
  if bool_decide (is_Some (prefs_tmp fs)) then TemporaryDir else PrefsDir.

(** [Prefs::FileStorage::GetFileNameForKey]: the directory the file of the
    key lies in, [None] for "return false"; the path of the file beneath it
    is the key as it is written ([base::FilePath::Append]). *)
Definition GetFileNameForKey (key : string) (fs : FileSystem)
  : option Location * FileSystem :=
  if negb (bool_decide (key = EmptyString)) then
    if forallb key_char_ok (list_ascii_of_string key) then
      let '(tmp, fs) := exists_dir GetTemporaryDir fs in
      (Some (if tmp then GetTemporaryDir else PrefsDir), fs)
    else (None, fs)
  else (None, fs).

(** [Prefs::FileStorage::GetKey] *)
Definition File_GetKey (key : string) (fs : FileSystem)
  : option string * FileSystem :=
  match GetFileNameForKey key fs with
  | (None, fs) => (None, fs)
  | (Some l, fs) => ReadFileToString l key fs
  end.

(** [Prefs::FileStorage::SetKey] *)
Definition File_SetKey (key value : string) (fs : FileSystem)
  : bool * FileSystem :=
  match GetFileNameForKey key fs with
  | (None, fs) => (false, fs)
  | (Some l, fs) =>
    let '(dir_exists, fs) := DirectoryExists l fs in
    let '(ok, fs) :=
      if dir_exists then (true, fs) else CreateDirectory l fs in
    if ok then WriteStringToFileAtomic l key value fs else (false, fs)
  end.

(** [Prefs::FileStorage::KeyExists] *)
Definition File_KeyExists (key : string) (fs : FileSystem)
  : bool * FileSystem :=
  match GetFileNameForKey key fs with
  | (None, fs) => (false, fs)
  | (Some l, fs) => PathExists l key fs
  end.

(** [Prefs::FileStorage::DeleteKey] *)
Definition File_DeleteKey (key : string) (fs : FileSystem)
  : bool * FileSystem :=
  match GetFileNameForKey key fs with
  | (None, fs) => (false, fs)
  | (Some l, fs) => DeleteFile l key fs
  end.

(** [Prefs::FileStorage::DeleteTemporaryPrefs] *)
Definition DeleteTemporaryPrefs (fs : FileSystem) : bool * FileSystem :=
  let '(tmp, fs) := exists_dir GetTemporaryDir fs in
  if tmp then remove_all GetTemporaryDir fs else (true, fs).

(** [Prefs::FileStorage::CreateTemporaryPrefs] *)
Definition CreateTemporaryPrefs (fs : FileSystem) : bool * FileSystem :=
  (* Delete any existing prefs_tmp *)
  let '(_, fs) := DeleteTemporaryPrefs fs in
  let '(source, fs) := exists_dir PrefsDir fs in
  if source then copy_dir fs      (* Copy the directory. *)
  else (false, fs).

(** [Prefs::FileStorage::SwapPrefs] *)
Definition SwapPrefs (fs : FileSystem) : bool * FileSystem :=
  let '(deleted, fs) := DeleteDirectory PrefsDir fs in
  if deleted then
    let '(renamed, fs) := rename_tmp fs in
    if renamed then
      let '(_, fs) := FsyncDirectory fs in (true, fs)
    else (false, fs)
  else (false, fs).

(** [Prefs::FileStorage::Init] *)
Definition Init (fs : FileSystem) : bool * FileSystem :=
  let '(root, fs) := exists_dir PrefsDir fs in
  let fs :=
    if root then fs
    else
      let '(tmp, fs) := exists_dir GetTemporaryDir fs in
      if tmp then snd (SwapPrefs fs) else fs in
  let '(tmp, fs) := exists_dir GetTemporaryDir fs in
  let '(ok, fs) :=
    if tmp then DeleteDirectory GetTemporaryDir fs else (true, fs) in
  if ok then
    (* Delete empty directories. Ignore errors. *)
    (true, DeleteEmptyDirectories PrefsDir fs)
  else (false, fs).

(** [PrefsBase::StartTransaction], [CancelTransaction] and
    [SubmitTransaction] on the file-backed store. *)
Definition StartTransaction := CreateTemporaryPrefs.
Definition SubmitTransaction := SwapPrefs.




(** *** MemoryPrefs::MemoryStorage *)

Definition Memory_GetKey (key : string) (values : gmap string string)
  : option string :=
  values !! key.

Definition Memory_SetKey (key value : string) (values : gmap string string)
  : bool * gmap string string :=
  (true, <[key := value]> values).

Definition Memory_KeyExists (key : string) (values : gmap string string)
  : bool :=
  bool_decide (is_Some (values !! key)).

Definition Memory_DeleteKey (key : string) (values : gmap string string)
  : bool * gmap string string :=
  (true, delete key values).

(** *** PrefsBase, over either storage *)

Inductive Storage :=
| FileStorage (fs : FileSystem)
| MemoryStorage (values : gmap string string).

Definition Storage_GetKey (key : string) (st : Storage)
  : option string * Storage :=
  match st with
  | FileStorage fs =>
    let '(r, fs) := File_GetKey key fs in (r, FileStorage fs)
  | MemoryStorage values => (Memory_GetKey key values, st)
  end.

Definition Storage_SetKey (key value : string) (st : Storage)
  : bool * Storage :=
  match st with
  | FileStorage fs =>
    let '(r, fs) := File_SetKey key value fs in (r, FileStorage fs)
  | MemoryStorage values =>
    let '(r, values) := Memory_SetKey key value values in
    (r, MemoryStorage values)
  end.

Definition Storage_KeyExists (key : string) (st : Storage) : bool * Storage :=
  match st with
  | FileStorage fs =>
    let '(r, fs) := File_KeyExists key fs in (r, FileStorage fs)
  | MemoryStorage values => (Memory_KeyExists key values, st)
  end.

Definition Storage_DeleteKey (key : string) (st : Storage) : bool * Storage :=
  match st with
  | FileStorage fs =>
    let '(r, fs) := File_DeleteKey key fs in (r, FileStorage fs)
  | MemoryStorage values =>
    let '(r, values) := Memory_DeleteKey key values in
    (r, MemoryStorage values)
  end.

(** Observers are named by numbers, which stand for the
    [ObserverInterface*] pointers. *)
Definition Observer := nat.

Record PrefsBase := {
  storage_ : Storage;
  observers_ : gmap string (list Observer);
}.

Definition with_storage (st : Storage) (p : PrefsBase) : PrefsBase :=
  {| storage_ := st; observers_ := observers_ p |}.

(** What a call of a setter does, in order: the write to the storage, with
    its result, and the calls of the observers. *)
Inductive Event :=
| StorageSetKey (key value : string) (ok : bool)
| StorageDeleteKey (key : string) (ok : bool)
| CallOnPrefSet (o : Observer) (key : string)
| CallOnPrefDeleted (o : Observer) (key : string).

(** [PrefsBase::AddObserver] *)
Definition AddObserver (key : string) (o : Observer) (p : PrefsBase)
  : PrefsBase :=
  {| storage_ := storage_ p;
     observers_ :=
       <[key := default [] (observers_ p !! key) ++ [o]]> (observers_ p) |}.

(** Erases the first occurrence of [o], as [std::find] and [erase] do. *)
Fixpoint erase_first (o : Observer) (l : list Observer) : list Observer :=
  match l with
  | [] => []
  | x :: rest => if bool_decide (x = o) then rest else x :: erase_first o rest
  end.

(** [PrefsBase::RemoveObserver]; [observers_[key]] creates the entry. *)
Definition RemoveObserver (key : string) (o : Observer) (p : PrefsBase)
  : PrefsBase :=
  {| storage_ := storage_ p;
     observers_ :=
       <[key := erase_first o (default [] (observers_ p !! key))]>
         (observers_ p) |}.

(** [PrefsBase::GetString] *)
Definition GetString (key : string) (p : PrefsBase)
  : option string * PrefsBase :=
  let '(r, st) := Storage_GetKey key (storage_ p) in (r, with_storage st p).

(** [PrefsBase::GetInt64] *)
Definition GetInt64 (key : string) (p : PrefsBase) : option Z * PrefsBase :=
  match GetString key p with
  | (None, p) => (None, p)
  | (Some str_value, p) =>
    let str_value := Trim str_value in
    if bool_decide (str_value = EmptyString) then (None, p)
    else (ParseInt str_value, p)
  end.

(** [PrefsBase::GetBoolean] *)
Definition GetBoolean (key : string) (p : PrefsBase)
  : option bool * PrefsBase :=
  match GetString key p with
  | (None, p) => (None, p)
  | (Some str_value, p) =>
    let str_value := Trim str_value in
    if bool_decide (str_value = "false"%string) then (Some false, p)
    else if bool_decide (str_value = "true"%string) then (Some true, p)
    else (None, p)
  end.

(** [PrefsBase::Exists] *)
Definition Exists (key : string) (p : PrefsBase) : bool * PrefsBase :=
  let '(r, st) := Storage_KeyExists key (storage_ p) in (r, with_storage st p).

Section Observers.

(** What the observers do when called: any change of the preferences,
    among them registering and unregistering observers. *)
Context (OnPrefSet OnPrefDeleted : Observer -> string -> PrefsBase -> PrefsBase).

(** The loop over [copy_observers]. *)
Fixpoint notify (call : Observer -> string -> PrefsBase -> PrefsBase)
    (event : Observer -> string -> Event) (key : string)
    (copy_observers : list Observer) (p : PrefsBase)
  : PrefsBase * list Event :=
  match copy_observers with
  | [] => (p, [])
  | observer :: rest =>
    let p := call observer key p in
    let '(p, events) := notify call event key rest p in
    (p, event observer key :: events)
  end.

(** [PrefsBase::SetString] *)
Definition SetString (key value : string) (p : PrefsBase)
  : bool * PrefsBase * list Event :=
  let '(ok, st) := Storage_SetKey key value (storage_ p) in
  let p := with_storage st p in
  if ok then
    match observers_ p !! key with
    | Some observers_for_key =>
      let copy_observers := observers_for_key in
      let '(p, events) :=
        notify OnPrefSet CallOnPrefSet key copy_observers p in
      (true, p, StorageSetKey key value true :: events)
    | None => (true, p, [StorageSetKey key value true])
    end
  else (false, p, [StorageSetKey key value false]).

(** [PrefsBase::SetInt64] *)
Definition SetInt64 (key : string) (value : Z) (p : PrefsBase)
  : bool * PrefsBase * list Event :=
  SetString key (format_int64 value) p.

(** [PrefsBase::SetBoolean] *)
Definition SetBoolean (key : string) (value : bool) (p : PrefsBase)
  : bool * PrefsBase * list Event :=
  SetString key (if value then "true"%string else "false"%string) p.

(** [PrefsBase::Delete] of one key *)
Definition Delete (key : string) (p : PrefsBase)
  : bool * PrefsBase * list Event :=
  let '(ok, st) := Storage_DeleteKey key (storage_ p) in
  let p := with_storage st p in
  if ok then
    match observers_ p !! key with
    | Some observers_for_key =>
      let copy_observers := observers_for_key in
      let '(p, events) :=
        notify OnPrefDeleted CallOnPrefDeleted key copy_observers p in
      (true, p, StorageDeleteKey key true :: events)
    | None => (true, p, [StorageDeleteKey key true])
    end
  else (false, p, [StorageDeleteKey key false]).

End Observers.

(** *** Sample stores and observers *)

Definition sample_fs : FileSystem :=
  {| prefs := Some {[ "boot-id"%string := "7"%string ]};
     prefs_tmp := None; faults := []; accesses := [] |}.

Definition sample_file_prefs : PrefsBase :=
  {| storage_ := FileStorage sample_fs;
     observers_ := {[ "update-state"%string := [1%nat; 2%nat] ]} |}.

Definition sample_memory_prefs : PrefsBase :=
  {| storage_ := MemoryStorage ∅;
     observers_ := {[ "update-state"%string := [1%nat; 2%nat] ]} |}.


(** What a process leaves when it stops in [SubmitTransaction] after the
    removal of [<root>]. *)
Definition sample_interrupted_commit : FileSystem :=
  {| prefs := None;
     prefs_tmp := Some {[ "update-state"%string := "2"%string ]};
     faults := []; accesses := [] |}.

(** Observer 1 unregisters observer 2 and itself while it is notified. *)
Definition unregistering_observer (o : Observer) (key : string) (p : PrefsBase)
  : PrefsBase :=
  if bool_decide (o = 1%nat)
  then RemoveObserver key 1%nat (RemoveObserver key 2%nat p)
  else p.

(** An observer that, when notified, notes under the key "seen" what the
    key it is notified of reads as at that moment. *)
Definition recording_observer (o : Observer) (key : string) (p : PrefsBase)
  : PrefsBase :=
  let '(r, st) := Storage_GetKey key (storage_ p) in
  with_storage
    (snd (Storage_SetKey "seen" (default "missing"%string r) st)) p.

(** Observers that leave the preferences alone. *)
Definition quiet_observer (o : Observer) (key : string) (p : PrefsBase)
  : PrefsBase := p.

End Prefs.

(** ** The dynamic-partition controller

    Of the controller only the unit test
    (aosp/dynamic_partition_control_android_unittest.cc) is among the
    sources; its operations are modelled from the specification and
    cross-checked against the expectations of that test. *)

Module DynamicPartitionControl.
Import PayloadFile.

(** The state [OptimizeOperation] looks at: the capability flags and the
    dynamic partitions of the target slot that are mapped. *)
Record Controller := {
  target_supports_snapshot_ : bool;
  virtual_ab_enabled : bool;
  mapped_devices_ : gset string;
  target_suffix : string;
}.

(** The blocks of a list of extents, in order. *)
Definition extent_blocks (e : Extent) : list Z :=
  seqZ (start_block e) (num_blocks e).
Definition blocks_of (l : list Extent) : list Z :=
  concat (map extent_blocks l).

(** The extents of a list of blocks: runs of consecutive blocks. *)
Fixpoint extents_of (blocks : list Z) : list Extent :=
  match blocks with
  | [] => []
  | b :: rest =>
    match extents_of rest with
    | e :: es =>
      if start_block e =? b + 1
      then {| start_block := b; num_blocks := num_blocks e + 1 |} :: es
      else {| start_block := b; num_blocks := 1 |} :: e :: es
    | [] => [{| start_block := b; num_blocks := 1 |}]
    end
  end.

(** The pairs of a source and a destination block that differ. *)
Definition moved_blocks (src dst : list Z) : list (Z * Z) :=
  List.filter (fun sd => negb (fst sd =? snd sd)) (combine src dst).

(** Modelled from the spec: the optimisation of a SOURCE_COPY operation is
    defined with the controller, outside the sources.  "For SOURCE_COPY when
    snapshots are enabled and source==destination extents, returns an
    operation with empty extents (becomes a no-op) because the snapshot
    already virtualizes the unchanged blocks": the blocks that are their own
    source are dropped and the others kept, as the unit test expects
    ([1,3,4,7,8] -> [2,3,4,5,6] gives [1,7,8] -> [2,5,6]); the test also
    expects a failure when the two sides differ in length.  When the
    operation is not empty and no block is its own source there is nothing
    to optimise; neither the specification nor the test fixes that case, in
    which the model fails. *)
Definition OptimizeSourceCopyOperation (operation : InstallOperation)
  : option InstallOperation :=
  let src := blocks_of (src_extents operation) in
  let dst := blocks_of (dst_extents operation) in
  if negb (length src =? length dst)%nat then None
  else
    let moved := moved_blocks src dst in
    if negb (length src =? 0)%nat && (length moved =? length src)%nat
    then None
    else Some {| type := SOURCE_COPY; data_offset := None;
                 data_length := None;
                 src_extents := extents_of (map fst moved);
                 dst_extents := extents_of (map snd moved);
                 data_sha256_hash := None |}.

(** Modelled from the spec: [OptimizeOperation] is defined in
    dynamic_partition_control_android.cc, which is not among the sources.
    It optimises SOURCE_COPY "when snapshots are enabled"; "on retrofit
    devices, target partitions are static block devices and
    optimize_operation is disabled".  The unit test shows the three
    conditions: the Virtual A/B feature flag, [target_supports_snapshot_],
    and the partition being a mapped dynamic partition of the target slot. *)
Definition OptimizeOperation (c : Controller) (partition_name : string)
    (operation : InstallOperation) : option InstallOperation :=
  match type operation with
  | SOURCE_COPY =>
    if target_supports_snapshot_ c && virtual_ab_enabled c
       && bool_decide ((partition_name +:+ target_suffix c)
                         ∈ mapped_devices_ c)
    then OptimizeSourceCopyOperation operation
    else None
  | _ => None
  end.

(** The controller of the unit test once snapshots are enabled: the dynamic
    partition "foo" of slot b is mapped. *)
Definition test_controller (vab snapshot : bool) : Controller :=
  {| target_supports_snapshot_ := snapshot; virtual_ab_enabled := vab;
     mapped_devices_ := {[ "foo_b"%string ]}; target_suffix := "_b" |}.

Definition extent (start num : Z) : Extent :=
  {| start_block := start; num_blocks := num |}.

Definition source_copy (src dst : list Extent) : InstallOperation :=
  {| type := SOURCE_COPY; data_offset := None; data_length := None;
     src_extents := src; dst_extents := dst; data_sha256_hash := None |}.

(** *** Super-partition metadata *)

Record PartitionGroup := { group_name : string; maximum_size : Z }.

Record LpPartition := { lp_name : string; lp_group : string; lp_size : Z }.

(** The metadata of a super partition: its size, the groups and the dynamic
    partitions, each in a group. *)
Record Metadata := {
  super_size : Z;
  groups : list PartitionGroup;
  lp_partitions : list LpPartition;
}.

(** A group of the dynamic-partition metadata of a manifest: its name and
    size and the partitions it requests, with their sizes. *)
Record GroupUpdate := {
  gu_name : string;
  gu_size : Z;
  gu_partitions : list (string * Z);
}.

Definition has_suffix (suffix name : string) : bool :=
  bool_decide (list_ascii_of_string suffix
                 `suffix_of` list_ascii_of_string name).

(** The suffix of the partitions of a slot. *)
Definition SlotSuffixForSlotNumber (slot : Z) : string :=
  if slot =? 0 then "_a" else "_b".

(** The total size of the partitions of a group. *)
Definition group_used (m : Metadata) (group : string) : Z :=
  foldr (fun p acc => if bool_decide (lp_group p = group)
                      then lp_size p + acc else acc) 0 (lp_partitions m).

Definition total_used (m : Metadata) : Z :=
  foldr (fun p acc => lp_size p + acc) 0 (lp_partitions m).

(** Drops the groups and partitions of the slot with the given suffix. *)
Definition remove_slot (suffix : string) (m : Metadata) : Metadata :=
  {| super_size := super_size m;
     groups := List.filter (fun g => negb (has_suffix suffix (group_name g)))
                 (groups m);
     lp_partitions :=
       List.filter (fun p => negb (has_suffix suffix (lp_name p)))
         (lp_partitions m) |}.

(** Adds a partition of the given size to a group: refused when the group
    would exceed its maximum size, or the partitions the super partition. *)
Definition add_partition (group : PartitionGroup) (m : Metadata)
    (name : string) (size : Z) : option Metadata :=
  let m' := {| super_size := super_size m; groups := groups m;
               lp_partitions :=
                 lp_partitions m
                 ++ [{| lp_name := name; lp_group := group_name group;
                        lp_size := size |}] |} in
  if (maximum_size group <? group_used m' (group_name group))
     || (super_size m <? total_used m')
  then None else Some m'.

Fixpoint add_partitions (group : PartitionGroup) (suffix : string)
    (l : list (string * Z)) (m : Metadata) : option Metadata :=
  match l with
  | [] => Some m
  | (name, size) :: rest =>
    match add_partition group m (name +:+ suffix) size with
    | Some m' => add_partitions group suffix rest m'
    | None => None
    end
  end.

Definition add_group (suffix : string) (g : GroupUpdate) (m : Metadata)
  : option Metadata :=
  let group := {| group_name := gu_name g +:+ suffix;
                  maximum_size := gu_size g |} in
  add_partitions group suffix (gu_partitions g)
    {| super_size := super_size m; groups := groups m ++ [group];
       lp_partitions := lp_partitions m |}.

Fixpoint add_groups (suffix : string) (l : list GroupUpdate) (m : Metadata)
  : option Metadata :=
  match l with
  | [] => Some m
  | g :: rest =>
    match add_group suffix g m with
    | Some m' => add_groups suffix rest m'
    | None => None
    end
  end.

Definition requested_group_sizes (manifest : list GroupUpdate) : Z :=
  foldr (fun g acc => gu_size g + acc) 0 manifest.

(** The space the groups of the target slot may take.  Without Virtual A/B
    "two slots must coexist" and it is half of the super partition (tests
    NotEnoughSpaceForSlot and GroupTooBig: "Should not be able to grow over
    size of super / 2"); with Virtual A/B one slot of space is enough and it
    is the whole super partition (test RecoveryErrorShouldDeleteSource:
    "Only one slot of space in super"). *)
Definition allocatable_space (virtual_ab : bool) (m : Metadata) : Z :=
  if virtual_ab then super_size m else super_size m / 2.

(** Modelled from the spec: [UpdatePartitionMetadata] is defined in
    dynamic_partition_control_android.cc, which is not among the sources.
    It "validates and possibly resizes the target slot's metadata so that
    every requested partition has an extent large enough; refuses if any
    group exceeds its cap or if the sum exceeds half of the super-partition
    (two slots must coexist)".  As the unit test expects, the groups and
    partitions of the target slot are replaced by those of the manifest,
    and the rule of the half holds on a device without Virtual A/B only
    ([virtual_ab] is [GetVirtualAbFeatureFlag().IsEnabled()]). *)
Definition UpdatePartitionMetadata (virtual_ab : bool) (m : Metadata)
    (target_slot : Z) (manifest : list GroupUpdate) : option Metadata :=
  let suffix := SlotSuffixForSlotNumber target_slot in
  let m := remove_slot suffix m in
  if allocatable_space virtual_ab m <? requested_group_sizes manifest
  then None
  else add_groups suffix manifest m.

(** The metadata stored on the super partition, one copy per slot. *)
Record SuperPartition := {
  slot_a : option Metadata;
  slot_b : option Metadata;
}.

Definition LoadMetadata (sp : SuperPartition) (slot : Z) : option Metadata :=
  if slot =? 0 then slot_a sp else slot_b sp.

Definition StoreMetadata (sp : SuperPartition) (slot : Z) (m : Metadata)
  : SuperPartition :=
  if slot =? 0 then {| slot_a := Some m; slot_b := slot_b sp |}
  else {| slot_a := slot_a sp; slot_b := Some m |}.

(** Modelled from the spec: [PreparePartitionsForUpdate] is defined in
    dynamic_partition_control_android.cc, which is not among the sources.
    "prepare_partitions_for_update(source_slot, target_slot, manifest,
    delete_source)" loads the metadata of the source slot, drops the
    partitions of the source slot when [delete_source] is set, updates the
    metadata for the target slot and stores the result for the target slot;
    when a step fails nothing is stored.  This is the path without
    snapshots, which the unit test reaches through
    [RealPrepareDynamicPartitionsForUpdate], also on a Virtual A/B device in
    recovery. *)
Definition PreparePartitionsForUpdate (virtual_ab : bool)
    (sp : SuperPartition) (source_slot target_slot : Z)
    (manifest : list GroupUpdate) (delete_source : bool)
  : bool * SuperPartition :=
  match LoadMetadata sp source_slot with
  | None => (false, sp)
  | Some m =>
    let m := if delete_source
             then remove_slot (SlotSuffixForSlotNumber source_slot) m
             else m in
    match UpdatePartitionMetadata virtual_ab m target_slot manifest with
    | None => (false, sp)
    | Some m' => (true, StoreMetadata sp target_slot m')
    end
  end.

(** Sizes are unsigned: none is negative. *)
Definition sizes_valid (m : Metadata) : Prop :=
  Forall (fun p => 0 <= lp_size p) (lp_partitions m).

Definition request_valid (manifest : list GroupUpdate) : Prop :=
  Forall (fun g => Forall (fun ps => 0 <= snd ps) (gu_partitions g)) manifest.

Definition GiB : Z := 1024 * 1024 * 1024.
Definition MiB : Z := 1024 * 1024.

Definition group_update (n : string) (size : Z) (l : list (string * Z))
  : GroupUpdate :=
  {| gu_name := n; gu_size := size; gu_partitions := l |}.

(** The source metadata of the group tests: groups "android" (3 GiB) and
    "oem" (2 GiB) in both slots, the partitions of the target slot b
    empty, in a super partition of 10 GiB + 1 MiB. *)
Definition test_source_metadata : Metadata :=
  {| super_size := 10 * GiB + MiB;
     groups := [ {| group_name := "android_a"; maximum_size := 3 * GiB |};
                 {| group_name := "oem_a"; maximum_size := 2 * GiB |};
                 {| group_name := "android_b"; maximum_size := 3 * GiB |};
                 {| group_name := "oem_b"; maximum_size := 2 * GiB |} ];
     lp_partitions :=
       [ {| lp_name := "system_a"; lp_group := "android_a";
            lp_size := 2 * GiB |};
         {| lp_name := "vendor_a"; lp_group := "oem_a"; lp_size := 1 * GiB |};
         {| lp_name := "system_b"; lp_group := "android_b"; lp_size := 0 |};
         {| lp_name := "vendor_b"; lp_group := "oem_b"; lp_size := 0 |} ] |}.

Definition test_super : SuperPartition :=
  {| slot_a := Some test_source_metadata; slot_b := None |}.

(** The size of the default group of the tests: their default super
    partition holds two of them and 1 MiB of metadata.  The test below needs
    no more of it than that it holds the 4 GiB of the requested
    partitions. *)
Definition kDefaultGroupSize : Z := 5 * GiB.

(** The source metadata of the test RecoveryErrorShouldDeleteSource: the
    default group in both slots, "system" (2 GiB) and "vendor" (1 GiB) in
    the source slot a, in a super partition with one slot of space. *)
Definition recovery_source_metadata : Metadata :=
  {| super_size := kDefaultGroupSize + MiB;
     groups := [ {| group_name := "foo_a";
                    maximum_size := kDefaultGroupSize |};
                 {| group_name := "foo_b";
                    maximum_size := kDefaultGroupSize |} ];
     lp_partitions :=
       [ {| lp_name := "system_a"; lp_group := "foo_a";
            lp_size := 2 * GiB |};
         {| lp_name := "vendor_a"; lp_group := "foo_a";
            lp_size := 1 * GiB |} ] |}.

Definition recovery_super : SuperPartition :=
  {| slot_a := Some recovery_source_metadata; slot_b := None |}.

(** The manifest of that test: "system" (3 GiB) and "vendor" (1 GiB) in the
    default group. *)
Definition recovery_manifest : list GroupUpdate :=
  [ group_update "foo" kDefaultGroupSize
      [("system"%string, 3 * GiB); ("vendor"%string, 1 * GiB)] ].

End DynamicPartitionControl.

(** ** More of the payload writer (payload_generator/payload_file.cc) *)

Module PayloadFileMore.
Import PayloadFile.

(** The blob of an operation in a blobs file: the [data_length] bytes at
    [data_offset], as [pread] returns them. *)
Definition blob_of (file : list byte) (o : InstallOperation) : list byte :=
  match data_offset o with
  | Some offset =>
    take (Z.to_nat (get_data_length o)) (drop (Z.to_nat offset) file)
  | None => []
  end.

(** The blobs of the operations, one after the other. *)
Definition ordered_content (file : list byte) (ops : list InstallOperation)
  : list byte :=
  concat (map (blob_of file) ops).

(** What [ReorderDataBlobs] keeps of an operation and what it sets: an
    operation without blob is kept as it is; one with a blob keeps its name,
    type, length and extents and receives an offset and the hash of its
    blob. *)
Definition same_but_blob (env : Environment) (in_file : list byte)
    (a a' : AnnotatedOperation) : Prop :=
  aop_name a' = aop_name a
  /\ type (op a') = type (op a)
  /\ data_length (op a') = data_length (op a)
  /\ src_extents (op a') = src_extents (op a)
  /\ dst_extents (op a') = dst_extents (op a)
  /\ match data_offset (op a) with
     | None => a' = a
     | Some _ =>
       is_Some (data_offset (op a'))
       /\ is_Some (data_sha256_hash (op a'))
       /\ data_sha256_hash (op a') = RawHashOfData env (blob_of in_file (op a))
     end.

(** The blob of the operation, if it has one, is read in full, below 2^63
    in offset and length. *)
Definition read_in_full (in_file : list byte) (o : InstallOperation) : Prop :=
  has_data_offset o = true ->
  is_Some (data_length o)
  /\ Z.of_nat (length (blob_of in_file o)) = get_data_length o
  /\ get_data_offset o < 2 ^ 63 /\ get_data_length o < 2 ^ 63.

(** What [AddPartition] reads of a [PartitionConfig]. *)
Record PartitionConfig := {
  conf_name : string;
  conf_path : string;
  conf_postinstall : PostInstallConfig;
  conf_verity : VerityConfig;
  conf_version : string;
}.

Section AddPartition.

(** [diff_utils::InitializePartitionInfo] on a new [PartitionInfo]; [None]
    is "return false". *)
Context (InitializePartitionInfo : PartitionConfig -> option PartitionInfo).

(** [PayloadFile::AddPartition] on [part_vec_]. *)
Definition AddPartition (old_conf new_conf : PartitionConfig)
    (aops : list AnnotatedOperation)
    (merge_sequence : list CowMergeOperation) (cow_info : CowSizeInfo)
    (part_vec : list Partition) : outcome (list Partition) :=
  (* Initialize the PartitionInfo objects if present. *)
  old_info ←
    (if negb (bool_decide (conf_path old_conf = EmptyString))
     then test_and_return_false (InitializePartitionInfo old_conf)
     else Ok {| info_size := None; info_hash := None |});
  new_info ← test_and_return_false (InitializePartitionInfo new_conf);
  Ok (part_vec
      ++ [ {| name := conf_name new_conf;
              aops := aops;
              cow_merge_sequence := merge_sequence;
              postinstall := conf_postinstall new_conf;
              verity := conf_verity new_conf;
              version := conf_version new_conf;
              cow_info := cow_info;
              old_info := old_info;
              new_info := new_info |} ]).

End AddPartition.

(** The configuration of a partition of a full update, without old image,
    and what [InitializePartitionInfo] finds for it. *)
Definition sample_conf (n path : string) : PartitionConfig :=
  {| conf_name := n; conf_path := path;
     conf_postinstall := postinstall (sample_partition n []);
     conf_verity := verity (sample_partition n []);
     conf_version := EmptyString |}.

Definition sample_info (conf : PartitionConfig) : option PartitionInfo :=
  Some {| info_size := Some 4096; info_hash := None |}.

(** Three partitions; the blobs of the first two are stored out of order,
    the third has an operation without blob. *)
Definition three_parts : list Partition :=
  [ sample_partition "system" [blob_op REPLACE 1 2];
    sample_partition "vendor" [blob_op REPLACE_XZ 0 1];
    sample_partition "product"
      [ {| aop_name := "zero";
           op := {| type := ZERO; data_offset := None; data_length := None;
                    src_extents := []; dst_extents := [];
                    data_sha256_hash := None |} |} ] ].

End PayloadFileMore.

(** ** More of the preference store (common/prefs.cc) *)

Module PrefsMore.
Import Prefs.

(** The observers registered for a key, in the order of their calls. *)
Definition registered (key : string) (p : PrefsBase) : list Observer :=
  default [] (observers_ p !! key).

(** A preference file as a shell command leaves it: the text between white
    space. *)
Definition padded (before : list ascii) (text : string) (after : list ascii)
  : string :=
  string_of_list_ascii (before ++ list_ascii_of_string text ++ after).

(** [std::string::compare(0, prefix.length(), prefix) == 0] on [s]: whether
    [s] starts with [prefix]. *)
Fixpoint starts_with (s prefix : string) : bool :=
  match prefix, s with
  | EmptyString, _ => true
  | String c prefix', String c' s' =>
    bool_decide (c' = c) && starts_with s' prefix'
  | String _ _, EmptyString => false
  end.

(** [s.substr(pos)] for a position inside [s]. *)
Fixpoint substr (pos : nat) (s : string) : string :=
  match pos, s with
  | O, _ => s
  | S pos', String _ s' => substr pos' s'
  | S _, EmptyString => EmptyString
  end.

(** [android::base::Join] *)
Fixpoint Join (things : list string) (separator : string) : string :=
  match things with
  | [] => EmptyString
  | [thing] => thing
  | thing :: rest => (thing ++ separator ++ Join rest separator)%string
  end.

(** [PrefsInterface::CreateSubKey] *)
Definition CreateSubKey (ns_and_key : list string) : string :=
  Join ns_and_key (String kKeySeparator EmptyString).

(** Whether a text of segments and separators has no empty segment: no
    separator at its start, at its end or after another one.
    [after_separator] tells that a segment has to follow. *)
Fixpoint segments_ok (after_separator : bool) (l : list ascii) : bool :=
  match l with
  | [] => negb after_separator
  | c :: rest =>
    if bool_decide (c = kKeySeparator)
    then negb after_separator && segments_ok true rest
    else segments_ok false rest
  end.

(** A key that is the path of its file the way the file system writes it.
    [GetFileNameForKey] appends the key to the directory as it is, so that
    "dlc//a" and "dlc/a" are two keys of one file, of which the second is
    canonical. *)
Definition canonical (key : string) : bool :=
  segments_ok true (list_ascii_of_string key).

Section Paths.

(** The path the store was initialised with: not empty and without a
    separator at its end, so that [base::FilePath::Append] puts one
    separator between it and what is appended. *)
Context (prefs_dir_ : string).

(** [base::FilePath::Append] *)
Definition Append (dir component : string) : string :=
  (dir ++ String kKeySeparator component)%string.

Definition dir_path (l : Location) : string :=
  match l with
  | PrefsDir => prefs_dir_
  | TemporaryDir => (prefs_dir_ ++ "_tmp")%string     (* GetTemporaryDir *)
  end.

(** [prefs_dir_.AsEndingWithSeparator()] *)
Definition AsEndingWithSeparator : string :=
  (prefs_dir_ ++ String kKeySeparator EmptyString)%string.

(** What [base::FileEnumerator(prefs_dir_, true, FILES)] yields: the paths
    of the files beneath [<root>], in the order of the directory (here the
    order of the map; no property below depends on it). *)
Definition enumerate_files (fs : FileSystem) : list string :=
  map (Append prefs_dir_) (map fst (map_to_list (default ∅ (prefs fs)))).

(** [Prefs::FileStorage::GetSubKeys]: [None] for "return false". *)
Definition File_GetSubKeys (ns : string) (fs : FileSystem)
  : option (list string) * FileSystem :=
  match GetFileNameForKey ns fs with
  | (None, fs) => (None, fs)
  | (Some l, fs) =>
    let filename := Append (dir_path l) ns in
    let keys :=
      map (fun f => substr (String.length AsEndingWithSeparator) f)
        (List.filter (fun f => starts_with f filename)
           (enumerate_files fs)) in
    (Some keys, record (ListDir PrefsDir) fs)
  end.

End Paths.

(** [key.substr(key.find_last_of(kKeySeparator) + 1)], [None] when
    [find_last_of] returns [npos]. *)
Fixpoint after_last_separator (key : string) : option string :=
  match key with
  | EmptyString => None
  | String c rest =>
    match after_last_separator rest with
    | Some tail => Some tail
    | None => if bool_decide (c = kKeySeparator) then Some rest else None
    end
  end.

Section Namespaces.

Context (OnPrefDeleted : Observer -> string -> PrefsBase -> PrefsBase).
Context (prefs_dir_ : string).

(** [MemoryPrefs::MemoryStorage::GetSubKeys] compares the namespace with
    [ns.length()] characters from the start of each key, which lie beyond
    the key when it is shorter than the namespace; what it returns is left
    open.  It always returns true. *)
Context (Memory_GetSubKeys : string -> gmap string string -> list string).

Definition Storage_GetSubKeys (ns : string) (st : Storage)
  : option (list string) * Storage :=
  match st with
  | FileStorage fs =>
    let '(r, fs) := File_GetSubKeys prefs_dir_ ns fs in (r, FileStorage fs)
  | MemoryStorage values => (Some (Memory_GetSubKeys ns values), st)
  end.

(** [PrefsBase::GetSubKeys] *)
Definition GetSubKeys (ns : string) (p : PrefsBase)
  : option (list string) * PrefsBase :=
  let '(r, st) := Storage_GetSubKeys ns (storage_ p) in (r, with_storage st p).

(** The loop over [namespace_keys] in [PrefsBase::Delete(pref_key, nss)]. *)
Fixpoint delete_sub_keys (pref_key : string) (namespace_keys : list string)
    (success : bool) (p : PrefsBase) : bool * PrefsBase * list Event :=
  match namespace_keys with
  | [] => (success, p, [])
  | key :: rest =>
    if bool_decide (after_last_separator key = Some pref_key) then
      let '(deleted, p, events) := Delete OnPrefDeleted key p in
      let success := deleted && success in
      let '(success, p, events') := delete_sub_keys pref_key rest success p in
      (success, p, events ++ events')
    else delete_sub_keys pref_key rest success p
  end.

(** The loop over [nss]; [namespace_keys] stays empty when [GetSubKeys]
    fails. *)
Fixpoint delete_in_namespaces (pref_key : string) (nss : list string)
    (success : bool) (p : PrefsBase) : bool * PrefsBase * list Event :=
  match nss with
  | [] => (success, p, [])
  | ns :: rest =>
    let '(namespace_keys, p) := GetSubKeys ns p in
    let success :=
      match namespace_keys with Some _ => true | None => false end
      && success in
    let '(success, p, events) :=
      delete_sub_keys pref_key (default [] namespace_keys) success p in
    let '(success, p, events') :=
      delete_in_namespaces pref_key rest success p in
    (success, p, events ++ events')
  end.

(** [PrefsBase::Delete(pref_key, nss)] *)
Definition Delete_in_namespaces (pref_key : string) (nss : list string)
    (p : PrefsBase) : bool * PrefsBase * list Event :=
  (* Delete pref key for platform. *)
  let '(success, p, events) := Delete OnPrefDeleted pref_key p in
  (* Delete pref key in each namespace. *)
  let '(success, p, events') :=
    delete_in_namespaces pref_key nss success p in
  (success, p, events ++ events').

End Namespaces.

(** What a key reads as in the file store: the content of the file with
    that path in the directory in use. *)
Definition file_value (key : string) (fs : FileSystem) : option string :=
  dir_of (active_dir fs) fs ≫= (fun d => d !! key).

(** The keys [Delete(pref_key, nss)] takes away from a file store whose
    file system does not fail: the key itself and, outside a transaction,
    the keys that start with one of the namespaces and end with
    "/pref_key". *)
Definition deleted_by (pref_key : string) (nss : list string)
    (in_transaction : bool) (key : string) : bool :=
  key_ok key
  && (bool_decide (key = pref_key)
      || (negb in_transaction
          && bool_decide (after_last_separator key = Some pref_key)
          && existsb (fun ns => key_ok ns && starts_with key ns) nss)).

(** A file store whose file system does not fail any more, in or outside a
    transaction, in which the keys read as [f] tells. *)
Definition reads_as (p : PrefsBase) (f : string -> option string)
    (in_transaction : bool) : Prop :=
  exists fs,
    storage_ p = FileStorage fs
    /\ (forall key, file_value key fs = f key)
    /\ faults fs = []
    /\ bool_decide (is_Some (prefs_tmp fs)) = in_transaction.

(** A store with keys in two namespaces. *)
Definition sample_namespaces : FileSystem :=
  {| prefs := Some {[ "boot-id"%string := "7"%string;
                      "dlc/a/active"%string := "1"%string;
                      "dlc/b/active"%string := "0"%string;
                      "dlcx"%string := "2"%string ]};
     prefs_tmp := None; faults := []; accesses := [] |}.

Definition sample_namespace_prefs : PrefsBase :=
  {| storage_ := FileStorage sample_namespaces;
     observers_ := {[ "dlc/a/active"%string := [1%nat] ]} |}.

(** A store in memory whose only key holds [value]. *)
Definition memory_prefs_with (key value : string) : PrefsBase :=
  {| storage_ := MemoryStorage {[ key := value ]}; observers_ := ∅ |}.

End PrefsMore.

(** ** The objects of the usage report (payload_generator/payload_file.cc) *)

Module UsageReport.

(** [DeltaObject]: [type] is an [int], [size] an [off_t]. *)
Record DeltaObject := {
  object_name : string;
  object_type : Z;
  object_size : Z;
}.

(** [operator<] of [std::string]: the lexicographic order of the characters
    taken as unsigned. *)
Fixpoint string_less (a b : string) : bool :=
  match a, b with
  | _, EmptyString => false
  | EmptyString, String _ _ => true
  | String c a', String d b' =>
    (N_of_ascii c <? N_of_ascii d)%N
    || ((N_of_ascii c =? N_of_ascii d)%N && string_less a' b')
  end.

(** [DeltaObject::operator<], the order of the keys of [object_counts] in
    [ReportPayloadUsage]. *)
Definition DeltaObject_less (a b : DeltaObject) : bool :=
  if negb (object_size a =? object_size b)
  then object_size a <? object_size b
  else string_less (object_name a) (object_name b).

(** Two keys [std::map] takes for the same: neither is less than the
    other. *)
Definition equivalent (a b : DeltaObject) : Prop :=
  DeltaObject_less a b = false /\ DeltaObject_less b a = false.

End UsageReport.

(** ** The verity writer (payload_consumer/verity_writer_interface.h) *)

Module VerityWriter.

Section Finalize.

(** The state of a writer, with the two file descriptors it is given, and
    its two pure virtual functions. *)
Context {Writer : Type}.
Context (FECFinished : Writer -> bool).
Context (IncrementalFinalize : Writer -> bool * Writer).

(** [VerityWriterInterface::Finalize]: [fuel] bounds the number of turns of
    the loop, [None] is a loop that has not ended within it. *)
Fixpoint Finalize (fuel : nat) (w : Writer) : option (bool * Writer) :=
  match fuel with
  | O => None
  | S fuel' =>
    if FECFinished w then Some (true, w)
    else
      let '(ok, w) := IncrementalFinalize w in
      if ok then Finalize fuel' w else Some (false, w)
  end.

(** The writer after [n] calls of [IncrementalFinalize]. *)
Fixpoint after_calls (n : nat) (w : Writer) : Writer :=
  match n with
  | O => w
  | S n' => after_calls n' (snd (IncrementalFinalize w))
  end.

(** The first [n] calls of [IncrementalFinalize] were made on an unfinished
    writer and succeeded. *)
Fixpoint calls_succeed (n : nat) (w : Writer) : Prop :=
  match n with
  | O => True
  | S n' =>
    FECFinished w = false /\ fst (IncrementalFinalize w) = true
    /\ calls_succeed n' (snd (IncrementalFinalize w))
  end.

End Finalize.

(** A writer with a number of blocks left to write, one per call; it fails
    when asked to write block [bad]. *)
Definition blocks_finished (left : nat) : bool := bool_decide (left = O).
Definition write_block (bad : nat) (left : nat) : bool * nat :=
  (negb (bool_decide (left = bad)), pred left).

End VerityWriter.

(** ** The fake hardware of the tests (common/fake_hardware.h) *)

Module FakeHardware.

(** The conversion of an integer literal to [int]. *)
Definition to_int (z : Z) : Z := (z + 2 ^ 31) mod 2 ^ 32 - 2 ^ 31.

Definition kPowerwashCountNotSet : Z := -1.
Definition kMinKernelKeyVersion : Z := 3.
Definition kMinFirmwareKeyVersion : Z := 13.
Definition kKernelMaxRollforward : Z := to_int 0xfffffffe.
Definition kFirmwareMaxRollforward : Z := to_int 0xfffffffe.

Record State := {
  is_official_build_ : bool;
  is_normal_boot_mode_ : bool;
  are_dev_features_enabled_ : bool;
  is_oobe_enabled_ : bool;
  is_oobe_complete_ : bool;
  oobe_timestamp_ : Z;
  hardware_class_ : string;
  device_requisition_ : string;
  min_kernel_key_version_ : Z;
  min_firmware_key_version_ : Z;
  kernel_max_rollforward_ : Z;
  firmware_max_rollforward_ : Z;
  powerwash_count_ : Z;
  powerwash_scheduled_ : bool;
  save_rollback_data_ : bool;
  build_timestamp_ : Z;
  first_active_omaha_ping_sent_ : bool;
  warm_reset_ : bool;
  partition_timestamps_ : gmap string string;
}.

(** The member initializers. *)
Definition initial : State :=
  {| is_official_build_ := true;
     is_normal_boot_mode_ := true;
     are_dev_features_enabled_ := false;
     is_oobe_enabled_ := true;
     is_oobe_complete_ := true;
     oobe_timestamp_ := 1169280000;
     hardware_class_ := "Fake HWID BLAH-1234";
     device_requisition_ := "fake_requisition";
     min_kernel_key_version_ := kMinKernelKeyVersion;
     min_firmware_key_version_ := kMinFirmwareKeyVersion;
     kernel_max_rollforward_ := kKernelMaxRollforward;
     firmware_max_rollforward_ := kFirmwareMaxRollforward;
     powerwash_count_ := kPowerwashCountNotSet;
     powerwash_scheduled_ := false;
     save_rollback_data_ := false;
     build_timestamp_ := 0;
     first_active_omaha_ping_sent_ := false;
     warm_reset_ := false;
     partition_timestamps_ := ∅ |}.

(** The member functions that change the object, with their arguments;
    [GetVersionForLogging] is among them since [operator[]] creates the
    entry it does not find. *)
Inductive Call :=
| SetMaxFirmwareKeyRollforward (firmware_max_rollforward : Z)
| SetMaxKernelKeyRollforward (kernel_max_rollforward : Z)
| SchedulePowerwash
| CancelPowerwash
| SetFirstActiveOmahaPingSent
| SetIsOfficialBuild (is_official_build : bool)
| SetIsNormalBootMode (is_normal_boot_mode : bool)
| SetAreDevFeaturesEnabled (are_dev_features_enabled : bool)
| SetIsOOBEEnabled (is_oobe_enabled : bool)
| SetIsOOBEComplete (oobe_timestamp : Z)
| UnsetIsOOBEComplete
| SetHardwareClass (hardware_class : string)
| SetDeviceRequisition (requisition : string)
| SetMinKernelKeyVersion (min_kernel_key_version : Z)
| SetMinFirmwareKeyVersion (min_firmware_key_version : Z)
| SetPowerwashCount (powerwash_count : Z)
| SetBuildTimestamp (build_timestamp : Z)
| SetWarmReset (warm_reset : bool)
| SetVbmetaDigestForInactiveSlot (reset : bool)
| GetVersionForLogging (partition_name : string)
| SetVersion (partition_name timestamp : string).

Definition GetMaxFirmwareKeyRollforward (s : State) : Z :=
  firmware_max_rollforward_ s.

Definition IsPowerwashScheduled (s : State) : bool := powerwash_scheduled_ s.

Definition GetIsRollbackPowerwashScheduled (s : State) : bool :=
  powerwash_scheduled_ s && save_rollback_data_ s.

(** What a call returns, for the functions returning [bool] ([true] stands
    for the others), and the object after it. *)
Definition call (c : Call) (s : State) : bool * State :=
  let 'Build_State ob nb df oe oc ot hc dr mk mf kr fr pc ps sr bt fp wr pt :=
    s in
  match c with
  | SetMaxFirmwareKeyRollforward v =>
    if GetMaxFirmwareKeyRollforward s =? -1 then (false, s)
    else (true,
          Build_State ob nb df oe oc ot hc dr mk mf kr v pc ps sr bt fp wr pt)
  | SetMaxKernelKeyRollforward v =>
    (true, Build_State ob nb df oe oc ot hc dr mk mf v fr pc ps sr bt fp wr pt)
  | SchedulePowerwash =>
    (true,
     Build_State ob nb df oe oc ot hc dr mk mf kr fr pc true sr bt fp wr pt)
  | CancelPowerwash =>
    (true,
     Build_State ob nb df oe oc ot hc dr mk mf kr fr pc false sr bt fp wr pt)
  | SetFirstActiveOmahaPingSent =>
    (true,
     Build_State ob nb df oe oc ot hc dr mk mf kr fr pc ps sr bt true wr pt)
  | SetIsOfficialBuild v =>
    (true, Build_State v nb df oe oc ot hc dr mk mf kr fr pc ps sr bt fp wr pt)
  | SetIsNormalBootMode v =>
    (true, Build_State ob v df oe oc ot hc dr mk mf kr fr pc ps sr bt fp wr pt)
  | SetAreDevFeaturesEnabled v =>
    (true, Build_State ob nb v oe oc ot hc dr mk mf kr fr pc ps sr bt fp wr pt)
  | SetIsOOBEEnabled v =>
    (true, Build_State ob nb df v oc ot hc dr mk mf kr fr pc ps sr bt fp wr pt)
  | SetIsOOBEComplete t =>
    (true,
     Build_State ob nb df oe true t hc dr mk mf kr fr pc ps sr bt fp wr pt)
  | UnsetIsOOBEComplete =>
    (true,
     Build_State ob nb df oe false ot hc dr mk mf kr fr pc ps sr bt fp wr pt)
  | SetHardwareClass v =>
    (true, Build_State ob nb df oe oc ot v dr mk mf kr fr pc ps sr bt fp wr pt)
  | SetDeviceRequisition v =>
    (true, Build_State ob nb df oe oc ot hc v mk mf kr fr pc ps sr bt fp wr pt)
  | SetMinKernelKeyVersion v =>
    (true, Build_State ob nb df oe oc ot hc dr v mf kr fr pc ps sr bt fp wr pt)
  | SetMinFirmwareKeyVersion v =>
    (true, Build_State ob nb df oe oc ot hc dr mk v kr fr pc ps sr bt fp wr pt)
  | SetPowerwashCount v =>
    (true, Build_State ob nb df oe oc ot hc dr mk mf kr fr v ps sr bt fp wr pt)
  | SetBuildTimestamp v =>
    (true, Build_State ob nb df oe oc ot hc dr mk mf kr fr pc ps sr v fp wr pt)
  | SetWarmReset v =>
    (true, Build_State ob nb df oe oc ot hc dr mk mf kr fr pc ps sr bt fp v pt)
  | SetVbmetaDigestForInactiveSlot _ => (true, s)
  | GetVersionForLogging partition_name =>
    (true,
     Build_State ob nb df oe oc ot hc dr mk mf kr fr pc ps sr bt fp wr
       (<[partition_name := default EmptyString (pt !! partition_name)]> pt))
  | SetVersion partition_name timestamp =>
    (true,
     Build_State ob nb df oe oc ot hc dr mk mf kr fr pc ps sr bt fp wr
       (<[partition_name := timestamp]> pt))
  end.

(** The object after a sequence of calls. *)
Definition calls (l : list Call) (s : State) : State :=
  fold_left (fun s c => snd (call c s)) l s.

(** What [GetVersionForLogging] returns. *)
Definition version_for_logging (partition_name : string) (s : State)
  : string :=
  default EmptyString (partition_timestamps_ s !! partition_name).

End FakeHardware.

(** * Properties of the payload writer *)

Module PayloadFileProofs.
Import PayloadFile.

Lemma obind_Ok {A B} (m : outcome A) (k : A -> outcome B) (b : B) :
  (m ≫= k) = Ok b -> exists a, m = Ok a /\ k a = Ok b.
Proof. destruct m; simpl; intros H; try discriminate. eauto. Qed.

Lemma require_Ok (c : bool) (u : unit) : require c = Ok u -> c = true.
Proof. destruct c; simpl; [reflexivity | discriminate]. Qed.

Lemma test_and_return_false_Ok {A} (o : option A) (a : A) :
  test_and_return_false o = Ok a -> o = Some a.
Proof. destruct o; simpl; intros H; inversion H; reflexivity. Qed.

(** Peels one monadic step off a hypothesis [_ = Ok _]. *)
Tactic Notation "step_ok" hyp(H) "as" simple_intropattern(a)
    simple_intropattern(Ha) :=
  apply obind_Ok in H; destruct H as (a & Ha & H).

Lemma byte_of_Z_value z : Z.of_N (Byte.to_N (byte_of_Z z)) = z mod 256.
Proof.
  unfold byte_of_Z. change 255 with (Z.ones 8).
  rewrite Z.land_ones by lia. change (2 ^ 8) with 256.
  pose proof (Z.mod_pos_bound z 256 ltac:(lia)) as Hb.
  destruct (Byte.of_N (Z.to_N (z mod 256))) as [b|] eqn:E.
  - apply Byte.to_of_N in E. rewrite E. apply Z2N.id. lia.
  - apply Byte.of_N_None_iff in E. lia.
Qed.

Lemma fold_be_bytes n v : forall acc,
  fold_left (fun acc b => acc * 256 + Z.of_N (Byte.to_N b)) (be_bytes n v) acc
  = acc * 256 ^ Z.of_nat n + v mod 256 ^ Z.of_nat n.
Proof.
  induction n as [|k IH]; intros acc.
  - simpl. rewrite Z.mod_1_r. lia.
  - cbn [be_bytes fold_left]. rewrite IH, byte_of_Z_value.
    rewrite Z.shiftr_div_pow2 by lia.
    replace (2 ^ (8 * Z.of_nat k)) with (256 ^ Z.of_nat k)
      by (change 256 with (2 ^ 8); rewrite <- Z.pow_mul_r by lia; reflexivity).
    rewrite Nat2Z.inj_succ, Z.pow_succ_r by lia.
    rewrite (Z.mul_comm 256 (256 ^ Z.of_nat k)).
    assert (0 < 256 ^ Z.of_nat k) by (apply Z.pow_pos_nonneg; lia).
    rewrite Z.rem_mul_r by lia. ring.
Qed.

(** The eight bytes written for a 64-bit value denote it in big-endian
    order, and so do the four bytes of a 32-bit value. *)
Lemma be_decode_htobe64 v : be_decode (htobe64 v) = wrap64 v.
Proof.
  change (htobe64 v) with (be_bytes 8 v). unfold be_decode, wrap64.
  rewrite fold_be_bytes. reflexivity.
Qed.

Lemma be_decode_htobe32 v : be_decode (htobe32 v) = wrap32 v.
Proof.
  change (htobe32 v) with (be_bytes 4 (wrap32 v)). unfold be_decode, wrap32.
  rewrite fold_be_bytes. change (256 ^ Z.of_nat 4) with (2 ^ 32).
  rewrite Z.mod_mod by lia. reflexivity.
Qed.

Section Writer.
Context (env : Environment).

Lemma offsets_from_app start l1 l2 :
  offsets_from start l1 -> offsets_from (last_offset start l1) l2 ->
  offsets_from start (l1 ++ l2).
Proof.
  revert start. induction l1 as [|o l1 IH]; simpl; intros start H1 H2; [exact H2|].
  destruct (data_offset o); [|auto].
  destruct H1 as (-> & Hlen & H1). repeat split; auto.
Qed.

Lemma last_offset_app start l1 l2 :
  last_offset start (l1 ++ l2) = last_offset (last_offset start l1) l2.
Proof.
  revert start. induction l1 as [|o l1 IH]; simpl; intros start; [reflexivity|].
  destruct (data_offset o); apply IH.
Qed.

Lemma ReorderOne_spec {out_path} in_file st aop aop' st' :
  ReorderOne env in_file out_path st aop = Ok (aop', st') ->
  offsets_from (out_file_size st) [op aop']
  /\ out_file_size st' = last_offset (out_file_size st) [op aop']
  /\ Z.of_nat (length (written st')) =
     Z.of_nat (length (written st))
     + (if has_data_offset (op aop') then get_data_length (op aop') else 0).
Proof.
  unfold ReorderOne. intros H.
  destruct (data_offset (op aop)) as [offset|] eqn:Eoff.
  - destruct (data_length (op aop)) as [len|] eqn:Elen; [|discriminate].
    destruct (2 ^ 63 <=? len); [discriminate|].
    destruct (pread in_file len offset) as [buf|]; [|discriminate].
    step_ok H as u Hlen. apply require_Ok in Hlen. apply Z.eqb_eq in Hlen.
    step_ok H as o1 Ho1. unfold AddOperationHash in Ho1.
    step_ok Ho1 as hash Hhash. inversion Ho1; subst o1; clear Ho1.
    step_ok H as w Hw. unfold FileWriter_Write in Hw.
    destruct (Write_succeeds env out_path (written st) buf); [|discriminate].
    inversion Hw; subst w; clear Hw.
    inversion H; subst aop' st'; clear H. simpl.
    unfold get_data_length, has_data_offset; simpl. rewrite Elen; simpl.
    rewrite length_app. repeat split; try lia. rewrite Hlen. reflexivity.
  - inversion H; subst aop' st'; clear H. simpl. rewrite Eoff.
    unfold has_data_offset. rewrite Eoff. simpl. repeat split; lia.
Qed.

Lemma blob_bytes_app l1 l2 : blob_bytes (l1 ++ l2) = blob_bytes l1 + blob_bytes l2.
Proof. unfold blob_bytes. induction l1; simpl; lia. Qed.

Lemma ReorderAops_spec {out_path} in_file l : forall st l' st',
  ReorderAops env in_file out_path st l = Ok (l', st') ->
  offsets_from (out_file_size st) (map op l')
  /\ out_file_size st' = last_offset (out_file_size st) (map op l')
  /\ Z.of_nat (length (written st')) =
     Z.of_nat (length (written st)) + blob_bytes (map op l').
Proof.
  induction l as [|aop l IH]; simpl; intros st l' st' H.
  - inversion H; subst. simpl. unfold blob_bytes; simpl. repeat split; lia.
  - step_ok H as [aop1 st1] Ha.
    step_ok H as [rest st2] Ha0.
    inversion H; subst l' st'; clear H.
    apply ReorderOne_spec in Ha as (H1 & H2 & H3).
    apply IH in Ha0 as (H4 & H5 & H6).
    change (map op (aop1 :: rest)) with ([op aop1] ++ map op rest).
    rewrite last_offset_app, blob_bytes_app, <- H2. repeat split.
    + apply offsets_from_app; [exact H1 | rewrite <- H2; exact H4].
    + exact H5.
    + rewrite H6, H3. unfold blob_bytes at 2. simpl. lia.
Qed.

Lemma ReorderParts_spec {out_path} in_file ps : forall st ps' st',
  ReorderParts env in_file out_path st ps = Ok (ps', st') ->
  offsets_from (out_file_size st) (flat_ops ps')
  /\ out_file_size st' = last_offset (out_file_size st) (flat_ops ps')
  /\ Z.of_nat (length (written st')) =
     Z.of_nat (length (written st)) + blob_bytes (flat_ops ps').
Proof.
  induction ps as [|p ps IH]; simpl; intros st ps' st' H.
  - inversion H; subst. unfold flat_ops, blob_bytes; simpl. repeat split; lia.
  - step_ok H as [l1 st1] Ha.
    step_ok H as [rest st2] Ha0.
    inversion H; subst ps' st'; clear H.
    apply ReorderAops_spec in Ha as (H1 & H2 & H3).
    apply IH in Ha0 as (H4 & H5 & H6).
    unfold flat_ops; simpl. fold (flat_ops rest).
    rewrite last_offset_app, blob_bytes_app, <- H2. repeat split.
    + apply offsets_from_app; [exact H1 | rewrite <- H2; exact H4].
    + exact H5.
    + lia.
Qed.


Lemma offsets_from_blob_bytes_nonneg ops : forall start,
  offsets_from start ops -> 0 <= blob_bytes ops.
Proof.
  induction ops as [|o ops IH]; intros start H; unfold blob_bytes; simpl; [lia|].
  fold (blob_bytes ops). simpl in H. unfold has_data_offset.
  destruct (data_offset o); simpl.
  - destruct H as (_ & Hlen & H). apply IH in H. lia.
  - apply IH in H. lia.
Qed.

Lemma wrap64_small z : 0 <= z < 2 ^ 64 -> wrap64 z = z.
Proof. intros H. unfold wrap64. apply Z.mod_small. exact H. Qed.

Lemma has_data_offset_Some o off :
  data_offset o = Some off -> has_data_offset o = true.
Proof. unfold has_data_offset. intros ->. reflexivity. Qed.

Lemma has_data_offset_None o :
  data_offset o = None -> has_data_offset o = false.
Proof.
  unfold has_data_offset. intros ->. apply bool_decide_eq_false.
  intros [x Hx]. discriminate.
Qed.

Lemma blob_bytes_cons o ops :
  blob_bytes (o :: ops)
  = (if has_data_offset o then get_data_length o else 0) + blob_bytes ops.
Proof. reflexivity. Qed.

Lemma offsets_from_running ops : forall start,
  offsets_from start ops -> 0 <= start -> start + blob_bytes ops < 2 ^ 64 ->
  map get_data_offset (List.filter has_data_offset ops)
  = running_offsets start
      (map get_data_length (List.filter has_data_offset ops))
  /\ Forall (fun len => 0 <= len)
       (map get_data_length (List.filter has_data_offset ops))
  /\ last_offset start ops = start + blob_bytes ops.
Proof.
  induction ops as [|o ops IH]; intros start H Hs Hb.
  - unfold blob_bytes. simpl. repeat split; [constructor | lia].
  - rewrite blob_bytes_cons in Hb |- *. simpl in H |- *.
    destruct (data_offset o) as [off|] eqn:E.
    + rewrite (has_data_offset_Some _ _ E) in Hb |- *.
      destruct H as (-> & Hlen & H).
      pose proof (offsets_from_blob_bytes_nonneg _ _ H) as Hnn.
      rewrite wrap64_small in H |- * by lia.
      destruct (IH _ H) as (H1 & H2 & H3); [lia | lia |].
      simpl. unfold get_data_offset at 1. rewrite E. simpl.
      rewrite H1, H3. split; [reflexivity|].
      split; [constructor; assumption | lia].
    + rewrite (has_data_offset_None _ E) in Hb |- *.
      destruct (IH _ H) as (H1 & H2 & H3); [lia | lia |].
      rewrite H3. split; [assumption|]. split; [assumption | lia].
Qed.

Lemma running_offsets_lower lens : forall start,
  Forall (fun len => 0 <= len) lens ->
  Forall (fun off => start <= off) (running_offsets start lens).
Proof.
  induction lens as [|len lens IH]; intros start H; simpl; [constructor|].
  inversion H; subst. constructor; [lia|].
  eapply Forall_impl; [apply IH; assumption|]. simpl. intros; lia.
Qed.

Lemma running_offsets_sorted lens : forall start,
  Forall (fun len => 0 <= len) lens ->
  StronglySorted Z.le (running_offsets start lens).
Proof.
  induction lens as [|len lens IH]; intros start H; simpl; [constructor|].
  inversion H; subst. constructor; [apply IH; assumption|].
  eapply Forall_impl; [apply running_offsets_lower; eassumption|].
  simpl. intros; lia.
Qed.

Lemma running_offsets_strict lens : forall start,
  Forall (fun len => 0 < len) lens ->
  StronglySorted Z.lt (running_offsets start lens).
Proof.
  induction lens as [|len lens IH]; intros start H; simpl; [constructor|].
  inversion H; subst. constructor; [apply IH; assumption|].
  eapply Forall_impl; [apply (running_offsets_lower lens (start + len))|].
  - eapply Forall_impl; [eassumption|]. simpl. intros; lia.
  - simpl. intros; lia.
Qed.

(** After a successful reordering the order check cannot hit its fatal
    branch. *)
Lemma CheckAops_after_reorder l : forall start,
  offsets_from start (map op l) ->
  CheckAops start l = Ok (last_offset start (map op l)).
Proof.
  induction l as [|aop l IH]; intros start H; simpl in *; [reflexivity|].
  unfold has_data_offset, get_data_offset.
  destruct (data_offset (op aop)) as [off|]; simpl.
  - destruct H as (-> & _ & H). rewrite Z.eqb_refl. apply IH. exact H.
  - apply IH. exact H.
Qed.

Lemma offsets_from_app_inv l1 : forall start l2,
  offsets_from start (l1 ++ l2) ->
  offsets_from start l1 /\ offsets_from (last_offset start l1) l2.
Proof.
  induction l1 as [|o l1 IH]; simpl; intros start l2 H; [auto|].
  destruct (data_offset o).
  - destruct H as (-> & Hlen & H). apply IH in H as [H1 H2]. auto.
  - apply IH. exact H.
Qed.

Lemma CheckParts_after_reorder ps : forall start,
  offsets_from start (flat_ops ps) ->
  CheckParts start ps = Ok (last_offset start (flat_ops ps)).
Proof.
  induction ps as [|p ps IH]; intros start H; simpl; [reflexivity|].
  unfold flat_ops in H |- *. simpl in H |- *. fold (flat_ops ps) in H |- *.
  apply offsets_from_app_inv in H as [H1 H2].
  rewrite (CheckAops_after_reorder _ _ H1). simpl.
  rewrite last_offset_app. apply IH. exact H2.
Qed.

Lemma manifest_operations_set_partitions ps m :
  manifest_operations (set_partitions (map (PartitionToUpdate env) ps) m)
  = flat_ops ps.
Proof.
  unfold manifest_operations, flat_ops. simpl. rewrite map_map. reflexivity.
Qed.

(** What a successful [WritePayload] went through. *)
Lemma WritePayload_inv part_vec manifest major payload_file
      data_blobs_path data_blobs key r :
  WritePayload env part_vec manifest major payload_file
    data_blobs_path data_blobs key = Ok r ->
  exists ps ordered_blobs,
    manifest_operations (manifest_out r) = flat_ops ps
    /\ offsets_from 0 (flat_ops ps)
    /\ Z.of_nat (length ordered_blobs) = blob_bytes (flat_ops ps)
    /\ (key <> EmptyString ->
        signatures_offset (manifest_out r)
        = Some (last_offset 0 (flat_ops ps))
        /\ SignatureBlobLength env key = signatures_size (manifest_out r))
    /\ (key = EmptyString ->
        signatures_offset (manifest_out r) = signatures_offset manifest
        /\ signatures_size (manifest_out r) = signatures_size manifest)
    /\ written_payload r
       = WritePayloadManifest env payload_file kOrderedBlobsFile ordered_blobs
           key major (manifest_out r).
Proof.
  unfold WritePayload. intros H.
  step_ok H as [ps ordered_blobs] Hre.
  unfold ReorderDataBlobs in Hre.
  step_ok Hre as u1 Hr. step_ok Hre as u2 Hw. step_ok Hre as [ps1 st1] Hparts.
  inversion Hre; subst ps1 ordered_blobs; clear Hre.
  apply ReorderParts_spec in Hparts as (H1 & H2 & H3). simpl in H1, H2, H3.
  step_ok H as next Hcheck. rewrite (CheckParts_after_reorder _ _ H1) in Hcheck.
  inversion Hcheck; subst next; clear Hcheck.
  step_ok H as m Hm. inversion H; subst r; clear H. simpl.
  exists ps, (written st1).
  destruct (bool_decide (key = EmptyString)) eqn:Ek.
  - apply bool_decide_eq_true in Ek. inversion Hm; subst m; clear Hm.
    rewrite manifest_operations_set_partitions. simpl.
    repeat split; try assumption; try lia; try reflexivity; intros; congruence.
  - apply bool_decide_eq_false in Ek.
    step_ok Hm as len Hlen. apply test_and_return_false_Ok in Hlen.
    inversion Hm; subst m; clear Hm. simpl.
    unfold manifest_operations. simpl.
    split.
    { apply (manifest_operations_set_partitions ps manifest). }
    repeat split; try assumption; try lia; try reflexivity; try congruence.
Qed.

(** C1 (amended).  In the manifest of every payload [WritePayload] produces,
    whose blobs take less than 2^64 bytes in all, the [data_offset] of each
    blob-bearing operation, taken in emitted order across all partitions, is
    the sum of the [data_length]s of the blob-bearing operations before it,
    starting at 0.  The lengths are not negative, so the offsets never
    decrease; they strictly increase when no blob is empty. *)
Theorem WritePayload_data_offsets_cumulative part_vec manifest major
    payload_file data_blobs_path data_blobs key r :
  WritePayload env part_vec manifest major payload_file
    data_blobs_path data_blobs key = Ok r ->
  blob_bytes (manifest_operations (manifest_out r)) < 2 ^ 64 ->
  let ops := blob_operations (manifest_out r) in
  map get_data_offset ops = running_offsets 0 (map get_data_length ops)
  /\ Forall (fun len => 0 <= len) (map get_data_length ops)
  /\ StronglySorted Z.le (map get_data_offset ops)
  /\ (Forall (fun len => 0 < len) (map get_data_length ops) ->
      StronglySorted Z.lt (map get_data_offset ops)).
Proof.
  intros H Hb ops.
  apply WritePayload_inv in H as (ps & blobs & Hops & Hoff & _).
  subst ops. unfold blob_operations. rewrite Hops in Hb |- *.
  destruct (offsets_from_running _ _ Hoff) as (H1 & H2 & _); [lia | lia |].
  rewrite H1. repeat split; try assumption.
  - apply running_offsets_sorted. exact H2.
  - apply running_offsets_strict.
Qed.

Lemma kBlobBufSize_pos : (0 < kBlobBufSize)%nat.
Proof.
  unfold kBlobBufSize. apply Nat2Z.inj_lt. rewrite Z2Nat.id; lia.
Qed.

Lemma take_nil_inv {A} (n : nat) (l : list A) :
  (0 < n)%nat -> take n l = [] -> l = [].
Proof. destruct n; [lia|]. destruct l; [reflexivity | discriminate]. Qed.

(** The loop appending the blobs copies all of them, whatever the size of
    its buffer, as soon as the fuel exceeds their number. *)
Lemma AppendBlobs_Ok {path} n fuel : forall blobs file file',
  (0 < n)%nat -> (length blobs < fuel)%nat ->
  AppendBlobs env path n fuel blobs file = Ok file' -> file' = file ++ blobs.
Proof.
  induction fuel as [|fuel IH]; intros blobs file file' Hpos Hfuel H; [lia|].
  simpl in H.
  destruct (take n blobs) as [|b buf] eqn:E.
  - apply take_nil_inv in E; [|exact Hpos]. subst blobs.
    inversion H. rewrite app_nil_r. reflexivity.
  - step_ok H as w Hw. unfold FileWriter_Write in Hw.
    destruct (Write_succeeds env path file (b :: buf)); [|discriminate].
    inversion Hw; subst w; clear Hw.
    apply IH in H.
    + rewrite H, <- E, <- app_assoc, take_drop. reflexivity.
    + exact Hpos.
    + rewrite length_drop.
      assert (length blobs <> 0)%nat
        by (destruct blobs; [rewrite take_nil in E; discriminate | simpl; lia]).
      lia.
Qed.

(** The fuel given by [WritePayload] is enough: when no write fails the loop
    ends with all the blobs appended. *)
Lemma AppendBlobs_total {path} n fuel : forall blobs file,
  (forall f b, Write_succeeds env path f b = true) ->
  (0 < n)%nat -> (length blobs < fuel)%nat ->
  AppendBlobs env path n fuel blobs file = Ok (file ++ blobs).
Proof.
  induction fuel as [|fuel IH]; intros blobs file Hw Hpos Hfuel; [lia|].
  simpl.
  destruct (take n blobs) as [|b buf] eqn:E.
  - apply take_nil_inv in E; [|exact Hpos]. subst blobs.
    rewrite app_nil_r. reflexivity.
  - unfold FileWriter_Write. rewrite Hw. simpl. rewrite IH.
    + rewrite <- E, <- app_assoc, take_drop. reflexivity.
    + exact Hw.
    + exact Hpos.
    + rewrite length_drop.
      assert (length blobs <> 0)%nat
        by (destruct blobs; [rewrite take_nil in E; discriminate | simpl; lia]).
      lia.
Qed.

Lemma FileWriter_Write_Ok {path} file buf file' :
  FileWriter_Write env path file buf = Ok file' -> file' = file ++ buf.
Proof.
  unfold FileWriter_Write.
  destruct (Write_succeeds env path file buf); [|discriminate].
  intros H; inversion H; reflexivity.
Qed.

(** What a successful run of the static overload wrote. *)
Lemma WritePayloadManifest_inv payload_file blobs_file blobs key major
      manifest file msize :
  WritePayloadManifest env payload_file blobs_file blobs key major manifest
  = Ok (file, msize) ->
  exists serialized meta_sig sig,
    SerializeToString env manifest = Some serialized
    /\ msize = wrap64 (wrap64 (4 + 2 * 8 + Z.of_nat (length serialized)) + 4)
    /\ file = metadata_bytes major manifest serialized
              ++ meta_sig ++ blobs ++ sig
    /\ (key = EmptyString -> meta_sig = [] /\ sig = [])
    /\ (key <> EmptyString ->
        (exists hash,
            RawHashOfFile env (metadata_bytes major manifest serialized) msize
            = Some hash
            /\ SignHashWithKeys env hash key = Some meta_sig)
        /\ SignPayload env
             (metadata_bytes major manifest serialized ++ meta_sig ++ blobs)
             key msize (get_signatures_size manifest)
             (wrap64 (msize + get_signatures_size manifest
                      + get_signatures_offset manifest))
           = Some sig).
Proof.
  unfold WritePayloadManifest. intros H.
  step_ok H as serialized Hser. apply test_and_return_false_Ok in Hser.
  step_ok H as u1 Hopen.
  step_ok H as f1 Hf1. apply FileWriter_Write_Ok in Hf1. subst f1.
  step_ok H as f2 Hf2. apply FileWriter_Write_Ok in Hf2. subst f2.
  step_ok H as f3 Hf3. apply FileWriter_Write_Ok in Hf3. subst f3.
  step_ok H as f4 Hf4. apply FileWriter_Write_Ok in Hf4. subst f4.
  step_ok H as f5 Hf5. apply FileWriter_Write_Ok in Hf5. subst f5.
  step_ok H as f6 Hf6. step_ok H as u2 Hopen2.
  step_ok H as f7 Hf7.
  apply AppendBlobs_Ok in Hf7; [|apply kBlobBufSize_pos|apply Nat.lt_succ_diag_r].
  subst f7.
  step_ok H as f8 Hf8. inversion H; subst file msize; clear H.
  assert (Hmeta : (((([] ++ kDeltaMagic) ++ htobe64 major)
                    ++ htobe64 (Z.of_nat (length serialized)))
                    ++ htobe32 (get_signatures_size manifest)) ++ serialized
                  = metadata_bytes major manifest serialized).
  { unfold metadata_bytes. rewrite app_nil_l, <- !app_assoc. reflexivity. }
  rewrite Hmeta in *. clear Hmeta.
  change (Z.of_nat (length kDeltaMagic)) with 4 in *.
  destruct (bool_decide (key = EmptyString)) eqn:Ek.
  - apply bool_decide_eq_true in Ek.
    inversion Hf6; subst f6; clear Hf6. inversion Hf8; subst f8; clear Hf8.
    exists serialized, [], []. rewrite app_nil_r. simpl.
    repeat split; try assumption; try reflexivity; intros; congruence.
  - apply bool_decide_eq_false in Ek.
    step_ok Hf6 as hash Hhash. apply test_and_return_false_Ok in Hhash.
    step_ok Hf6 as meta_sig Hms. apply test_and_return_false_Ok in Hms.
    apply FileWriter_Write_Ok in Hf6. subst f6.
    step_ok Hf8 as sig Hsig. apply test_and_return_false_Ok in Hsig.
    apply FileWriter_Write_Ok in Hf8. subst f8.
    exists serialized, meta_sig, sig. rewrite <- !app_assoc in Hsig.
    split; [assumption|]. split; [reflexivity|].
    split; [rewrite <- !app_assoc; reflexivity|].
    split; [intros; congruence|]. intros _. split; [eauto | exact Hsig].
Qed.

Lemma metadata_bytes_length major manifest serialized :
  Z.of_nat (length (metadata_bytes major manifest serialized))
  = 4 + 8 + 8 + 4 + Z.of_nat (length serialized).
Proof.
  unfold metadata_bytes. rewrite !length_app.
  change (length kDeltaMagic) with 4%nat.
  change (length (htobe64 major)) with 8%nat.
  change (length (htobe64 (Z.of_nat (length serialized)))) with 8%nat.
  change (length (htobe32 (get_signatures_size manifest))) with 4%nat.
  lia.
Qed.

Lemma metadata_size_no_wrap len :
  0 <= len < 2 ^ 64 - 24 ->
  wrap64 (wrap64 (4 + 2 * 8 + len) + 4) = 4 + 8 + 8 + 4 + len.
Proof.
  intros H. rewrite (wrap64_small (4 + 2 * 8 + len)) by lia.
  rewrite wrap64_small by lia. lia.
Qed.

Lemma blob_at_app (pre blob post : list byte) (offset : Z) :
  Z.of_nat (length pre) = offset -> blob_at (pre ++ blob ++ post) offset blob.
Proof.
  intros <-. unfold blob_at. split; [lia|].
  rewrite Nat2Z.id, drop_app_length, take_app_length. reflexivity.
Qed.

(** C2.  A payload file written by [WritePayload] starts with the four bytes
    of the magic, the major version as eight big-endian bytes, the length of
    the serialized manifest as eight big-endian bytes, the signature size of
    the manifest as four big-endian bytes, and the serialized manifest; the
    metadata size stored through [metadata_size_out] is
    4 + 8 + 8 + 4 + the length of the serialized manifest.  (A serialized
    manifest is a string in memory, far shorter than 2^64 - 24 bytes.) *)
Theorem WritePayloadManifest_layout payload_file blobs_file blobs key major
    manifest serialized file msize :
  WritePayloadManifest env payload_file blobs_file blobs key major manifest
  = Ok (file, msize) ->
  SerializeToString env manifest = Some serialized ->
  Z.of_nat (length serialized) < 2 ^ 64 - 24 ->
  (exists rest,
      file = kDeltaMagic
             ++ htobe64 major
             ++ htobe64 (Z.of_nat (length serialized))
             ++ htobe32 (get_signatures_size manifest)
             ++ serialized ++ rest)
  /\ length kDeltaMagic = 4%nat
  /\ length (htobe64 major) = 8%nat
  /\ be_decode (htobe64 major) = wrap64 major
  /\ length (htobe64 (Z.of_nat (length serialized))) = 8%nat
  /\ be_decode (htobe64 (Z.of_nat (length serialized)))
     = Z.of_nat (length serialized)
  /\ length (htobe32 (get_signatures_size manifest)) = 4%nat
  /\ be_decode (htobe32 (get_signatures_size manifest))
     = wrap32 (get_signatures_size manifest)
  /\ msize = 4 + 8 + 8 + 4 + Z.of_nat (length serialized).
Proof.
  intros H Hser Hlen.
  apply WritePayloadManifest_inv in H
    as (serialized' & meta_sig & sig & Hser' & Hms & Hfile & _).
  rewrite Hser in Hser'. inversion Hser'; subst serialized'; clear Hser'.
  split.
  { exists (meta_sig ++ blobs ++ sig). rewrite Hfile. unfold metadata_bytes.
    rewrite <- !app_assoc. reflexivity. }
  repeat split; try reflexivity.
  - apply be_decode_htobe64.
  - rewrite be_decode_htobe64. apply wrap64_small. lia.
  - apply be_decode_htobe32.
  - rewrite Hms. apply metadata_size_no_wrap. lia.
Qed.

(** C3 (amended).  In a signed payload written by [WritePayload], the
    metadata signature follows the metadata and the payload signature follows
    the data blobs: the payload-signature blob begins at byte offset
    metadata_size + (length of the metadata signature) + signatures_offset,
    where signatures_offset is the field of the manifest, and it ends the
    file.  (The blobs take less than 2^64 bytes and the serialized manifest
    less than 2^64 - 24.) *)
Theorem WritePayload_signature_offset part_vec manifest major payload_file
    data_blobs_path data_blobs key r serialized file msize :
  WritePayload env part_vec manifest major payload_file
    data_blobs_path data_blobs key = Ok r ->
  written_payload r = Ok (file, msize) ->
  key <> EmptyString ->
  blob_bytes (manifest_operations (manifest_out r)) < 2 ^ 64 ->
  SerializeToString env (manifest_out r) = Some serialized ->
  Z.of_nat (length serialized) < 2 ^ 64 - 24 ->
  exists hash meta_sig payload_so_far sig,
    SignHashWithKeys env hash key = Some meta_sig
    /\ SignPayload env payload_so_far key msize
         (get_signatures_size (manifest_out r))
         (wrap64 (msize + get_signatures_size (manifest_out r)
                  + get_signatures_offset (manifest_out r)))
       = Some sig
    /\ blob_at file msize meta_sig
    /\ blob_at file
         (msize + Z.of_nat (length meta_sig)
          + get_signatures_offset (manifest_out r)) sig
    /\ Z.of_nat (length file)
       = msize + Z.of_nat (length meta_sig)
         + get_signatures_offset (manifest_out r) + Z.of_nat (length sig).
Proof.
  intros H Hw Hkey Hb Hser Hlen.
  apply WritePayload_inv in H
    as (ps & blobs & Hops & Hoff & Hblobs & Hsig & _ & Hwritten).
  destruct (Hsig Hkey) as [Hso _]. clear Hsig.
  rewrite Hwritten in Hw.
  apply WritePayloadManifest_inv in Hw
    as (serialized' & meta_sig & sig & Hser' & Hms & Hfile & _ & Hsigned).
  rewrite Hser in Hser'. inversion Hser'; subst serialized'; clear Hser'.
  destruct (Hsigned Hkey) as [[hash [_ Hmeta]] Hpay]. clear Hsigned.
  rewrite Hops in Hb.
  destruct (offsets_from_running _ _ Hoff) as (_ & _ & Hlast); [lia | lia |].
  assert (Hsigoff : get_signatures_offset (manifest_out r)
                    = Z.of_nat (length blobs)).
  { unfold get_signatures_offset. rewrite Hso. simpl. lia. }
  assert (Hmsize : msize
                   = Z.of_nat (length (metadata_bytes major (manifest_out r)
                                         serialized))).
  { rewrite metadata_bytes_length, Hms. apply metadata_size_no_wrap. lia. }
  exists hash, meta_sig,
    (metadata_bytes major (manifest_out r) serialized ++ meta_sig ++ blobs),
    sig.
  split; [exact Hmeta|]. split; [exact Hpay|]. rewrite Hfile, Hsigoff.
  split; [|split].
  - apply blob_at_app. symmetry. exact Hmsize.
  - replace (metadata_bytes major (manifest_out r) serialized
             ++ meta_sig ++ blobs ++ sig)
      with ((metadata_bytes major (manifest_out r) serialized
             ++ meta_sig ++ blobs) ++ sig ++ [])
      by (rewrite app_nil_r, <- !app_assoc; reflexivity).
    apply blob_at_app. rewrite !length_app. lia.
  - rewrite !length_app. lia.
Qed.

End Writer.

(** C1, witness of the amended statement: two partitions whose blobs are
    stored out of order. *)
Lemma WritePayload_data_offsets_cumulative_witness :
  exists r,
    WritePayload sample_env sample_parts sample_manifest 2 "payload.bin"
      "blobs.bin" sample_blobs no_key = Ok r
    /\ map get_data_offset (blob_operations (manifest_out r)) = [0; 2]
    /\ StronglySorted Z.le (map get_data_offset (blob_operations (manifest_out r))).
Proof.
  eexists. split; [vm_compute; reflexivity|]. split; [vm_compute; reflexivity|].
  refine (proj1 (proj2 (proj2
    (WritePayload_data_offsets_cumulative sample_env sample_parts
       sample_manifest 2 "payload.bin" "blobs.bin" sample_blobs no_key _ _ _)))).
  - vm_compute; reflexivity.
  - vm_compute; reflexivity.
Defined.

(** C1 as stated fails: an operation bearing an empty blob and the one after
    it get the same [data_offset], in a payload that is written in full. *)
Lemma WritePayload_data_offsets_not_strict :
  exists r file metadata_size,
    WritePayload sample_env empty_blob_parts sample_manifest 2 "payload.bin"
      "blobs.bin" [x41] no_key = Ok r
    /\ written_payload r = Ok (file, metadata_size)
    /\ map get_data_offset (blob_operations (manifest_out r)) = [0; 0]
    /\ ~ StronglySorted Z.lt
          (map get_data_offset (blob_operations (manifest_out r))).
Proof.
  eexists. eexists. eexists.
  split; [vm_compute; reflexivity|]. split; [vm_compute; reflexivity|].
  split; [vm_compute; reflexivity|].
  vm_compute. intros H. inversion H as [|a l Hs Hall]; subst.
  inversion Hall as [|b l' Hlt _]; subst. vm_compute in Hlt. discriminate.
Qed.

(** Remark: [WritePayload] does not look at the result of the static
    overload; it returns true also when the payload file could not be
    written. *)
Example WritePayload_ignores_write_failure :
  exists r,
    WritePayload readonly_env sample_parts sample_manifest 2 "payload.bin"
      "blobs.bin" sample_blobs no_key = Ok r
    /\ written_payload r = Failure.
Proof. eexists. split; vm_compute; reflexivity. Qed.

(** C2, witness: the unsigned sample payload, whose manifest takes 24
    bytes. *)
Lemma WritePayloadManifest_layout_witness :
  exists file,
    WritePayloadManifest sample_env "payload.bin" "blobs.bin" sample_blobs
      no_key 2 sample_manifest = Ok (file, 48)
    /\ take 4 file = kDeltaMagic
    /\ 48 = 4 + 8 + 8 + 4
            + Z.of_nat (length (sample_serialize sample_manifest)).
Proof.
  eexists. split; [vm_compute; reflexivity|]. split; [vm_compute; reflexivity|].
  refine (proj2 (proj2 (proj2 (proj2 (proj2 (proj2 (proj2 (proj2
    (WritePayloadManifest_layout sample_env "payload.bin" "blobs.bin"
       sample_blobs no_key 2 sample_manifest
       (sample_serialize sample_manifest)
       _ 48 _ _ _))))))))).
  - vm_compute; reflexivity.
  - reflexivity.
  - vm_compute; reflexivity.
Defined.

(** C3, witness of the amended statement: in the signed sample payload the
    metadata take 48 bytes, each signature 256 and the blobs 3. *)
Lemma WritePayload_signature_offset_witness :
  exists r file,
    sample_signed = Ok r
    /\ written_payload r = Ok (file, 48)
    /\ get_signatures_offset (manifest_out r) = 3
    /\ exists hash meta_sig payload_so_far sig,
        SignHashWithKeys sample_env hash "key.pem" = Some meta_sig
        /\ SignPayload sample_env payload_so_far "key.pem" 48
             (get_signatures_size (manifest_out r))
             (wrap64 (48 + get_signatures_size (manifest_out r)
                      + get_signatures_offset (manifest_out r)))
           = Some sig
        /\ blob_at file 48 meta_sig
        /\ blob_at file
             (48 + Z.of_nat (length meta_sig)
              + get_signatures_offset (manifest_out r)) sig
        /\ Z.of_nat (length file)
           = 48 + Z.of_nat (length meta_sig)
             + get_signatures_offset (manifest_out r)
             + Z.of_nat (length sig).
Proof.
  eexists. eexists. split; [vm_compute; reflexivity|].
  split; [vm_compute; reflexivity|]. split; [vm_compute; reflexivity|].
  eapply (WritePayload_signature_offset sample_env sample_parts
            sample_manifest 2 "payload.bin" "blobs.bin" sample_blobs
            "key.pem").
  - vm_compute; reflexivity.
  - vm_compute; reflexivity.
  - discriminate.
  - vm_compute; reflexivity.
  - vm_compute; reflexivity.
  - vm_compute; reflexivity.
Defined.

(** C3 as stated fails: in the signed sample payload the payload signature
    begins 256 bytes, the length of the metadata signature, after
    metadata_size + signatures_offset = 51; the bytes at offset 51 are those
    of the metadata signature. *)
Lemma WritePayload_signature_not_at_claimed_offset :
  exists r file msize sig,
    sample_signed = Ok r
    /\ written_payload r = Ok (file, msize)
    /\ SignPayload sample_env (take 307 file) "key.pem" msize
         (get_signatures_size (manifest_out r))
         (wrap64 (msize + get_signatures_size (manifest_out r)
                  + get_signatures_offset (manifest_out r)))
       = Some sig
    /\ file = take 307 file ++ sig
    /\ msize + get_signatures_offset (manifest_out r) = 51
    /\ ~ blob_at file (msize + get_signatures_offset (manifest_out r)) sig.
Proof.
  eexists. eexists. eexists. eexists.
  split; [vm_compute; reflexivity|]. split; [vm_compute; reflexivity|].
  split; [vm_compute; reflexivity|]. split; [vm_compute; reflexivity|].
  split; [vm_compute; reflexivity|].
  intros [_ H]. vm_compute in H. discriminate H.
Qed.

End PayloadFileProofs.

(** * Properties of the preference store *)

Module PrefsProofs.
Import Prefs.

(** ** Decimal text of 64-bit integers *)

Lemma code_digit_char d : 0 <= d <= 9 -> code (digit_char d) = 48 + d.
Proof.
  intros H. unfold code, digit_char. rewrite N_ascii_embedding.
  - rewrite Z2N.id; lia.
  - apply N2Z.inj_lt. rewrite Z2N.id; lia.
Qed.

Lemma digit_char_is_decimal n : is_decimal (digit_char (n mod 10)).
Proof.
  unfold is_decimal. rewrite code_digit_char.
  - pose proof (Z.mod_pos_bound n 10). lia.
  - pose proof (Z.mod_pos_bound n 10). lia.
Qed.

Lemma decimal_digits_all fuel : forall n acc,
  Forall is_decimal acc -> Forall is_decimal (decimal_digits fuel n acc).
Proof.
  induction fuel as [|fuel IH]; intros n acc H; simpl; [exact H|].
  destruct (n <? 10).
  - constructor; [apply digit_char_is_decimal | exact H].
  - apply IH. constructor; [apply digit_char_is_decimal | exact H].
Qed.

Lemma decimal_digits_nonempty fuel n acc :
  decimal_digits (S fuel) n acc <> [].
Proof.
  revert n acc. induction fuel as [|fuel IH]; intros n acc.
  - simpl. destruct (n <? 10); discriminate.
  - change (decimal_digits (S (S fuel)) n acc)
      with (if n <? 10 then digit_char (n mod 10) :: acc
            else decimal_digits (S fuel) (n / 10) (digit_char (n mod 10) :: acc)).
    destruct (n <? 10); [discriminate | apply IH].
Qed.

Lemma digit_value_decimal c :
  is_decimal c -> digit_value 10 c = Some (code c - 48).
Proof.
  unfold is_decimal, digit_value, isdigit. intros H.
  replace (48 <=? code c) with true by (symmetry; apply Z.leb_le; lia).
  replace (code c <=? 57) with true by (symmetry; apply Z.leb_le; lia).
  reflexivity.
Qed.

(** Reading back the digits of [n] yields [n]. *)
Lemma read_decimal_digits fuel : forall n acc,
  0 <= n < 10 ^ Z.of_nat (S fuel) ->
  exists count,
    read_digits 10 0 0 (decimal_digits (S fuel) n acc)
    = read_digits 10 n (S count) acc.
Proof.
  induction fuel as [|fuel IH]; intros n acc Hn.
  - change (10 ^ Z.of_nat 1) with 10 in Hn.
    cbn [decimal_digits].
    replace (n <? 10) with true by (symmetry; apply Z.ltb_lt; lia).
    exists 0%nat. cbn [read_digits].
    rewrite digit_value_decimal by apply digit_char_is_decimal.
    rewrite code_digit_char, Z.mod_small by (rewrite ?Z.mod_small; lia).
    f_equal. lia.
  - change (decimal_digits (S (S fuel)) n acc)
      with (if n <? 10 then digit_char (n mod 10) :: acc
            else decimal_digits (S fuel) (n / 10) (digit_char (n mod 10) :: acc)).
    assert (Hd : digit_value 10 (digit_char (n mod 10)) = Some (n mod 10)).
    { rewrite digit_value_decimal by apply digit_char_is_decimal.
      rewrite code_digit_char; [f_equal; lia|].
      pose proof (Z.mod_pos_bound n 10). lia. }
    destruct (n <? 10) eqn:E.
    + apply Z.ltb_lt in E. exists 0%nat. cbn [read_digits]. rewrite Hd.
      rewrite Z.mod_small by lia. reflexivity.
    + apply Z.ltb_ge in E.
      destruct (IH (n / 10) (digit_char (n mod 10) :: acc)) as [count Hc].
      { rewrite (Nat2Z.inj_succ (S fuel)), Z.pow_succ_r in Hn by lia.
        split; [apply Z.div_pos; lia|].
        apply Z.div_lt_upper_bound; lia. }
      exists (S count). rewrite Hc. cbn [read_digits]. rewrite Hd.
      replace (n / 10 * 10 + n mod 10) with n
        by (pose proof (Z.div_mod n 10); lia).
      reflexivity.
Qed.

Lemma skip_spaces_plain c l : isspace c = false -> skip_spaces (c :: l) = c :: l.
Proof. intros H. simpl. rewrite H. reflexivity. Qed.

Lemma is_decimal_not_space c : is_decimal c -> isspace c = false.
Proof.
  unfold is_decimal, isspace. intros H.
  replace (code c =? 32) with false by (symmetry; apply Z.eqb_neq; lia).
  replace (9 <=? code c) with true by (symmetry; apply Z.leb_le; lia).
  replace (code c <=? 13) with false by (symmetry; apply Z.leb_gt; lia).
  reflexivity.
Qed.

Lemma is_numeric_plain c : is_numeric c -> isspace c = false /\ code c <> 0.
Proof.
  intros [H | H].
  - split; [apply is_decimal_not_space; exact H | unfold is_decimal in H; lia].
  - unfold isspace. rewrite H. split; [reflexivity | lia].
Qed.

Lemma c_str_numeric l : Forall is_numeric l -> c_str l = l.
Proof.
  induction 1 as [|c l Hc Hl IH]; simpl; [reflexivity|].
  apply is_numeric_plain in Hc as [_ Hc].
  replace (code c =? 0) with false by (symmetry; apply Z.eqb_neq; lia).
  rewrite IH. reflexivity.
Qed.

Lemma skip_spaces_numeric l : Forall is_numeric l -> skip_spaces l = l.
Proof.
  destruct 1 as [|c l Hc Hl]; [reflexivity|].
  apply skip_spaces_plain. apply is_numeric_plain. exact Hc.
Qed.

Lemma Trim_numeric l :
  Forall is_numeric l -> Trim (string_of_list_ascii l) = string_of_list_ascii l.
Proof.
  intros H. unfold Trim. rewrite list_ascii_of_string_of_list_ascii.
  rewrite (skip_spaces_numeric l H).
  rewrite skip_spaces_numeric by (apply Forall_rev; exact H).
  rewrite rev_involutive. reflexivity.
Qed.

Lemma ParseInt_base_decimal c l :
  is_numeric c -> Forall is_decimal l -> ParseInt_base (c :: l) = 10.
Proof.
  intros Hc Hl. unfold ParseInt_base.
  destruct l as [|x l]; [reflexivity|].
  inversion Hl as [|? ? Hx _]; subst. unfold is_decimal in Hx.
  replace (code x =? 120) with false by (symmetry; apply Z.eqb_neq; lia).
  replace (code x =? 88) with false by (symmetry; apply Z.eqb_neq; lia).
  rewrite andb_false_r. reflexivity.
Qed.

Lemma read_digits_nil base acc count :
  read_digits base acc count [] = (acc, count, []).
Proof. reflexivity. Qed.

Lemma strtoll_unsigned c l n count :
  is_decimal c ->
  read_digits 10 0 0 (c :: l) = (n, S count, []) ->
  INT64_MIN <= n <= INT64_MAX ->
  strtoll (c :: l) 10 = (Some n, []).
Proof.
  intros Hc Hr Hn. unfold strtoll. unfold is_decimal in Hc.
  replace (code c =? 45) with false by (symmetry; apply Z.eqb_neq; lia).
  replace (code c =? 43) with false by (symmetry; apply Z.eqb_neq; lia).
  change (10 =? 16) with false. cbv iota. rewrite Hr.
  replace (INT64_MIN <=? n) with true by (symmetry; apply Z.leb_le; lia).
  replace (n <=? INT64_MAX) with true by (symmetry; apply Z.leb_le; lia).
  reflexivity.
Qed.

Lemma strtoll_negative c l n count :
  code c = 45 ->
  read_digits 10 0 0 l = (n, S count, []) ->
  INT64_MIN <= - n <= INT64_MAX ->
  strtoll (c :: l) 10 = (Some (- n), []).
Proof.
  intros Hc Hr Hn. unfold strtoll. rewrite Hc.
  change (45 =? 45) with true. change (10 =? 16) with false. cbv iota.
  rewrite Hr.
  replace (INT64_MIN <=? - n) with true by (symmetry; apply Z.leb_le; lia).
  replace (- n <=? INT64_MAX) with true by (symmetry; apply Z.leb_le; lia).
  reflexivity.
Qed.

Lemma format_int64_numeric value :
  exists l, format_int64 value = string_of_list_ascii l /\ Forall is_numeric l
            /\ l <> [].
Proof.
  unfold format_int64. destruct (value <? 0).
  - eexists. split; [reflexivity|]. split; [|discriminate].
    constructor; [right; reflexivity|].
    eapply Forall_impl; [apply decimal_digits_all; constructor|].
    intros c Hc. left. exact Hc.
  - eexists. split; [reflexivity|]. split; [|apply decimal_digits_nonempty].
    eapply Forall_impl; [apply decimal_digits_all; constructor|].
    intros c Hc. left. exact Hc.
Qed.

(** Parsing the decimal text of a 64-bit integer gives the integer back. *)
Lemma ParseInt_format_int64 value :
  INT64_MIN <= value <= INT64_MAX ->
  ParseInt (format_int64 value) = Some value.
Proof.
  intros Hv. unfold INT64_MIN, INT64_MAX in Hv.
  assert (Hpow : 10 ^ Z.of_nat 19 = 10000000000000000000) by reflexivity.
  unfold ParseInt, format_int64.
  rewrite list_ascii_of_string_of_list_ascii.
  destruct (value <? 0) eqn:E.
  - apply Z.ltb_lt in E.
    pose proof (decimal_digits_all 19 (- value) [] (List.Forall_nil _)) as Hall.
    destruct (read_decimal_digits 18 (- value) []) as [count Hr]; [lia|].
    rewrite read_digits_nil in Hr.
    set (l := decimal_digits 19 (- value) []) in *.
    assert (Hnum : Forall is_numeric ("-"%char :: l)).
    { constructor; [right; reflexivity|].
      eapply Forall_impl; [exact Hall|]. intros c Hc. left. exact Hc. }
    rewrite (c_str_numeric _ Hnum), (skip_spaces_numeric _ Hnum).
    rewrite (ParseInt_base_decimal "-"%char l) by
      (try exact Hall; right; reflexivity).
    rewrite (strtoll_negative "-"%char l (- value) count)
      by (try reflexivity; try exact Hr; unfold INT64_MIN, INT64_MAX; lia).
    rewrite Z.opp_involutive.
    rewrite bool_decide_eq_false_2 by discriminate.
    replace (value <? INT64_MIN) with false
      by (symmetry; apply Z.ltb_ge; unfold INT64_MIN; lia).
    replace (INT64_MAX <? value) with false
      by (symmetry; apply Z.ltb_ge; unfold INT64_MAX; lia).
    reflexivity.
  - apply Z.ltb_ge in E.
    pose proof (decimal_digits_all 19 value [] (List.Forall_nil _)) as Hall.
    destruct (read_decimal_digits 18 value []) as [count Hr]; [lia|].
    rewrite read_digits_nil in Hr.
    pose proof (decimal_digits_nonempty 18 value []) as Hne.
    destruct (decimal_digits 19 value []) as [|c l] eqn:El; [congruence|].
    assert (Hnum : Forall is_numeric (c :: l)).
    { eapply Forall_impl; [exact Hall|]. intros x Hx. left. exact Hx. }
    inversion Hall as [|? ? Hc Hl]; subst.
    rewrite (c_str_numeric _ Hnum), (skip_spaces_numeric _ Hnum).
    rewrite (ParseInt_base_decimal c l) by (try exact Hl; left; exact Hc).
    rewrite (strtoll_unsigned c l value count Hc Hr)
      by (unfold INT64_MIN, INT64_MAX; lia).
    rewrite bool_decide_eq_false_2 by discriminate.
    replace (value <? INT64_MIN) with false
      by (symmetry; apply Z.ltb_ge; unfold INT64_MIN; lia).
    replace (INT64_MAX <? value) with false
      by (symmetry; apply Z.ltb_ge; unfold INT64_MAX; lia).
    reflexivity.
Qed.

Lemma Trim_format_int64 value :
  Trim (format_int64 value) = format_int64 value
  /\ format_int64 value <> EmptyString.
Proof.
  destruct (format_int64_numeric value) as (l & -> & Hl & Hne).
  split; [apply Trim_numeric; exact Hl|].
  destruct l; [congruence | discriminate].
Qed.

(** ** The file storage *)

Lemma key_ok_spec key :
  key_ok key = negb (bool_decide (key = EmptyString))
               && forallb key_char_ok (list_ascii_of_string key).
Proof. reflexivity. Qed.

Lemma GetFileNameForKey_invalid key fs :
  key_ok key = false -> GetFileNameForKey key fs = (None, fs).
Proof.
  unfold key_ok, GetFileNameForKey. intros H.
  destruct (negb (bool_decide (key = EmptyString))); [|reflexivity].
  simpl in H. rewrite H. reflexivity.
Qed.

Lemma GetFileNameForKey_valid key fs :
  key_ok key = true ->
  GetFileNameForKey key fs
  = (Some (active_dir fs), record (Stat TemporaryDir EmptyString) fs).
Proof.
  unfold key_ok, GetFileNameForKey. intros H.
  apply andb_true_iff in H as [H1 H2]. rewrite H1, H2. reflexivity.
Qed.

Lemma key_ok_cases key : {key_ok key = true} + {key_ok key = false}.
Proof. destruct (key_ok key); [left | right]; reflexivity. Qed.

(** Destructs the file system and the faults an operation consumes. *)
Ltac fs_cases fs :=
  let r := fresh "root" in
  let t := fresh "tmp" in
  let f := fresh "fl" in
  let a := fresh "acc" in
  destruct fs as [r t f a];
  destruct t; destruct r;
  destruct f as [|[|] [|[|] f]].

(** After a successful [SetKey] the key is read back with its value. *)
Lemma File_SetKey_GetKey key value fs fs' :
  File_SetKey key value fs = (true, fs') ->
  fst (File_GetKey key fs') = Some value.
Proof.
  unfold File_SetKey, File_GetKey. destruct (key_ok_cases key) as [Hk | Hk].
  - rewrite !(GetFileNameForKey_valid _ _ Hk). intros H.
    fs_cases fs; cbn in H; inversion H; subst; cbn;
      try apply lookup_insert_eq.
  - rewrite (GetFileNameForKey_invalid _ _ Hk). discriminate.
Qed.

Lemma key_char_ok_iff c : key_char_ok c = true <-> in_key_class c.
Proof.
  unfold key_char_ok, in_key_class, isalpha, isdigit, kKeySeparator.
  rewrite !orb_true_iff, !andb_true_iff, !Z.leb_le, !bool_decide_eq_true.
  tauto.
Qed.

Lemma key_ok_false_iff key :
  key_ok key = false
  <-> key = EmptyString
      \/ exists c, In c (list_ascii_of_string key) /\ ~ in_key_class c.
Proof.
  unfold key_ok. rewrite andb_false_iff, negb_false_iff, bool_decide_eq_true.
  split.
  - intros [H | H]; [left; exact H | right].
    induction (list_ascii_of_string key) as [|c l IH]; [discriminate|].
    simpl in H. apply andb_false_iff in H as [H | H].
    + exists c. split; [left; reflexivity|].
      rewrite <- key_char_ok_iff, H. discriminate.
    + destruct (IH H) as (c' & Hin & Hc'). exists c'. split; [right|]; assumption.
  - intros [H | (c & Hin & Hc)]; [left; exact H | right].
    destruct (forallb key_char_ok (list_ascii_of_string key)) eqn:E;
      [|reflexivity].
    rewrite forallb_forall in E. apply E in Hin.
    apply key_char_ok_iff in Hin. contradiction.
Qed.

(** ** Transactions of the file storage *)





(** Reading a key depends only on the two directories. *)
Lemma File_GetKey_result key fs :
  fst (File_GetKey key fs)
  = if key_ok key then dir_of (active_dir fs) fs ≫= (fun d => d !! key)
    else None.
Proof.
  unfold File_GetKey. destruct (key_ok_cases key) as [Hk | Hk]; rewrite Hk.
  - rewrite (GetFileNameForKey_valid _ _ Hk). unfold active_dir.
    destruct fs as [r [t|] f a]; reflexivity.
  - rewrite (GetFileNameForKey_invalid _ _ Hk). reflexivity.
Qed.




Section Observers.
Context (OnPrefSet OnPrefDeleted : Observer -> string -> PrefsBase -> PrefsBase).

(** C6.  On the file-backed store, reading, writing, testing or deleting a
    key that is empty or has a character outside [A-Za-z0-9_-/] fails, and
    the file system is left as it was, access log included: no file is
    read, written or removed, and no observer is called. *)
Theorem invalid_key_rejected key value int_value bool_value fs observers :
  key = EmptyString
  \/ (exists c, In c (list_ascii_of_string key) /\ ~ in_key_class c) ->
  let p := {| storage_ := FileStorage fs; observers_ := observers |} in
  File_GetKey key fs = (None, fs)
  /\ File_SetKey key value fs = (false, fs)
  /\ File_KeyExists key fs = (false, fs)
  /\ File_DeleteKey key fs = (false, fs)
  /\ GetString key p = (None, p)
  /\ GetInt64 key p = (None, p)
  /\ GetBoolean key p = (None, p)
  /\ Exists key p = (false, p)
  /\ SetString OnPrefSet key value p
     = (false, p, [StorageSetKey key value false])
  /\ SetInt64 OnPrefSet key int_value p
     = (false, p, [StorageSetKey key (format_int64 int_value) false])
  /\ SetBoolean OnPrefSet key bool_value p
     = (false, p,
        [StorageSetKey key (if bool_value then "true" else "false")%string
           false])
  /\ Delete OnPrefDeleted key p = (false, p, [StorageDeleteKey key false]).
Proof.
  intros H p. apply key_ok_false_iff in H.
  unfold SetInt64, SetBoolean, GetInt64, GetBoolean, GetString, Exists,
    SetString, Delete, Storage_GetKey, Storage_SetKey, Storage_KeyExists,
    Storage_DeleteKey, File_GetKey, File_SetKey, File_KeyExists,
    File_DeleteKey.
  subst p. cbn [storage_]. rewrite !(GetFileNameForKey_invalid _ _ H).
  repeat split.
Qed.

Lemma GetString_result key p :
  fst (GetString key p) = fst (Storage_GetKey key (storage_ p)).
Proof.
  unfold GetString. destruct (Storage_GetKey key (storage_ p)). reflexivity.
Qed.

(** Observers that do not change what a key reads as leave it so through
    the whole notification. *)
Lemma notify_reads call event key l :
  (forall o q, fst (GetString key (call o key q)) = fst (GetString key q)) ->
  forall p,
    fst (GetString key (fst (notify call event key l p)))
    = fst (GetString key p).
Proof.
  intros Hcall. induction l as [|o l IH]; intros p; simpl; [reflexivity|].
  specialize (IH (call o key p)).
  destruct (notify call event key l (call o key p)) as [p' events].
  simpl in IH |- *. rewrite IH. apply Hcall.
Qed.

Lemma Storage_SetKey_GetKey key value st st' :
  Storage_SetKey key value st = (true, st') ->
  fst (Storage_GetKey key st') = Some value.
Proof.
  destruct st as [fs | values]; simpl.
  - destruct (File_SetKey key value fs) as [ok fs'] eqn:E.
    intros H; inversion H; subst. simpl.
    apply File_SetKey_GetKey in E.
    destruct (File_GetKey key fs') as [r fs'']. exact E.
  - intros H; inversion H; subst. simpl. unfold Memory_GetKey.
    apply lookup_insert_eq.
Qed.

Lemma File_DeleteKey_GetKey key fs fs' :
  File_DeleteKey key fs = (true, fs') -> fst (File_GetKey key fs') = None.
Proof.
  unfold File_DeleteKey. destruct (key_ok_cases key) as [Hk | Hk].
  - rewrite (GetFileNameForKey_valid _ _ Hk).
    fs_cases fs; cbn; intros E; inversion E; subst;
      rewrite File_GetKey_result, Hk; cbn;
      rewrite ?lookup_delete_eq; reflexivity.
  - rewrite (GetFileNameForKey_invalid _ _ Hk). discriminate.
Qed.

Lemma Storage_DeleteKey_GetKey key st st' :
  Storage_DeleteKey key st = (true, st') ->
  fst (Storage_GetKey key st') = None.
Proof.
  destruct st as [fs | values]; simpl.
  - destruct (File_DeleteKey key fs) as [ok fs'] eqn:E.
    intros H; inversion H; subst. simpl.
    apply File_DeleteKey_GetKey in E.
    destruct (File_GetKey key fs') as [r fs'']. exact E.
  - intros H; inversion H; subst. simpl. unfold Memory_GetKey.
    apply lookup_delete_eq.
Qed.

(** The loop over [copy_observers] applies the observers one after the
    other, in the order of the list. *)
Lemma notify_result call event key l : forall p,
  notify call event key l p
  = (fold_left (fun q o => call o key q) l p, map (fun o => event o key) l).
Proof.
  induction l as [|o l IH]; intros p; cbn [notify fold_left map];
    [reflexivity|].
  rewrite IH. reflexivity.
Qed.

(** C5.  [SetString] and [Delete] invoke the observers exactly when the
    write to the storage succeeded, and after it.  The whole result of the
    setter is given: it returns what the storage returned; when the storage
    succeeded, the preferences it leaves are those obtained by applying the
    observers registered for the key when the setter was entered, each once
    and in order of registration, whatever they do to the registrations
    while they are notified, starting from the preferences that hold the
    written storage, in which the key already reads as the value (or as
    missing, for [Delete]); when the storage failed, no observer is applied
    and the preferences are those the failed write left.  The events are
    the write followed by the calls. *)
Theorem observers_notified_after_success key value p :
  (let ok := fst (Storage_SetKey key value (storage_ p)) in
   let written :=
     with_storage (snd (Storage_SetKey key value (storage_ p))) p in
   let called := if ok then default [] (observers_ p !! key) else [] in
   SetString OnPrefSet key value p
   = (ok,
      fold_left (fun q o => OnPrefSet o key q) called written,
      StorageSetKey key value ok
        :: map (fun o => CallOnPrefSet o key) called)
   /\ (ok = true -> fst (GetString key written) = Some value))
  /\ (let ok := fst (Storage_DeleteKey key (storage_ p)) in
      let deleted :=
        with_storage (snd (Storage_DeleteKey key (storage_ p))) p in
      let called := if ok then default [] (observers_ p !! key) else [] in
      Delete OnPrefDeleted key p
      = (ok,
         fold_left (fun q o => OnPrefDeleted o key q) called deleted,
         StorageDeleteKey key ok
           :: map (fun o => CallOnPrefDeleted o key) called)
      /\ (ok = true -> fst (GetString key deleted) = None)).
Proof.
  split.
  - unfold SetString.
    destruct (Storage_SetKey key value (storage_ p)) as [ok st] eqn:E.
    cbn [fst snd]. split.
    + destruct ok; [|reflexivity].
      cbn [with_storage observers_].
      destruct (observers_ p !! key) as [l|]; cbn [default];
        [|reflexivity].
      rewrite notify_result. reflexivity.
    + intros ->. rewrite GetString_result. cbn [with_storage storage_].
      apply (Storage_SetKey_GetKey _ _ _ _ E).
  - unfold Delete.
    destruct (Storage_DeleteKey key (storage_ p)) as [ok st] eqn:E.
    cbn [fst snd]. split.
    + destruct ok; [|reflexivity].
      cbn [with_storage observers_].
      destruct (observers_ p !! key) as [l|]; cbn [default];
        [|reflexivity].
      rewrite notify_result. reflexivity.
    + intros ->. rewrite GetString_result. cbn [with_storage storage_].
      apply (Storage_DeleteKey_GetKey _ _ _ E).
Qed.

(** After a successful [SetString], [GetString] reads the value back, when
    the observers of the key do not change what the key reads as. *)
Lemma SetString_GetString key value p p' events :
  (forall o q,
      fst (GetString key (OnPrefSet o key q)) = fst (GetString key q)) ->
  SetString OnPrefSet key value p = (true, p', events) ->
  fst (GetString key p') = Some value.
Proof.
  intros Hobs. unfold SetString.
  destruct (Storage_SetKey key value (storage_ p)) as [[|] st] eqn:E;
    [|discriminate].
  apply Storage_SetKey_GetKey in E.
  assert (Hwritten : fst (GetString key (with_storage st p)) = Some value)
    by (rewrite GetString_result; exact E).
  destruct (observers_ (with_storage st p) !! key) as [l|].
  - pose proof (notify_reads OnPrefSet CallOnPrefSet key l Hobs
                  (with_storage st p)) as Hn.
    destruct (notify OnPrefSet CallOnPrefSet key l (with_storage st p))
      as [q ev].
    intros H; inversion H; subst. simpl in Hn. congruence.
  - intros H; inversion H; subst. exact Hwritten.
Qed.

(** C7.  After a successful [SetInt64] of a 64-bit value, [GetInt64] of the
    key returns the value, which is stored as its decimal text (digits after
    an optional minus sign); after a successful [SetBoolean], [GetBoolean]
    returns the boolean, which is stored as "true" or "false".  (The
    observers of the key, which the setter calls, are assumed not to change
    what the key reads as.) *)
Theorem typed_value_round_trip key p :
  (forall o q,
      fst (GetString key (OnPrefSet o key q)) = fst (GetString key q)) ->
  (forall value p' events,
      INT64_MIN <= value <= INT64_MAX ->
      SetInt64 OnPrefSet key value p = (true, p', events) ->
      fst (GetInt64 key p') = Some value
      /\ fst (GetString key p') = Some (format_int64 value)
      /\ Forall is_numeric (list_ascii_of_string (format_int64 value)))
  /\ (forall value p' events,
        SetBoolean OnPrefSet key value p = (true, p', events) ->
        fst (GetBoolean key p') = Some value
        /\ fst (GetString key p')
           = Some (if value then "true" else "false")%string).
Proof.
  intros Hobs. split.
  - intros value p' events Hv H. unfold SetInt64 in H.
    apply (SetString_GetString _ _ _ _ _ Hobs) in H.
    split; [|split; [exact H|]].
    + unfold GetInt64.
      destruct (GetString key p') as [r q]. simpl in H. subst r.
      destruct (Trim_format_int64 value) as [-> Hne].
      rewrite bool_decide_eq_false_2 by exact Hne. simpl.
      apply ParseInt_format_int64. exact Hv.
    + destruct (format_int64_numeric value) as (l & -> & Hl & _).
      rewrite list_ascii_of_string_of_list_ascii. exact Hl.
  - intros value p' events H. unfold SetBoolean in H.
    apply (SetString_GetString _ _ _ _ _ Hobs) in H.
    split; [|exact H]. unfold GetBoolean.
    destruct (GetString key p') as [r q]. simpl in H. subst r.
    destruct value; reflexivity.
Qed.

End Observers.

(** What the observers of the sample stores see when a key is set: both
    are called, although the first unregisters the second. *)
Example unregistering_during_notification :
  snd (SetString unregistering_observer "update-state" "2" sample_memory_prefs)
  = [ StorageSetKey "update-state" "2" true;
      CallOnPrefSet 1%nat "update-state"; CallOnPrefSet 2%nat "update-state" ]
  /\ observers_ (snd (fst (SetString unregistering_observer "update-state" "2"
                            sample_memory_prefs))) !! "update-state"%string
     = Some [].
Proof. split; vm_compute; reflexivity. Qed.

(** Remark: the copy [StartTransaction] makes has the files right under
    [<root>] only.  A key in a sub-directory is not seen inside the
    transaction and is not in the store after [SubmitTransaction]. *)
Example transaction_copy_skips_subdirectories :
  let fs0 := snd (File_SetKey "ns/retries" "3" sample_fs) in
  let fs1 := snd (StartTransaction fs0) in
  fst (File_GetKey "ns/retries" fs0) = Some "3"%string
  /\ fst (StartTransaction fs0) = true
  /\ fst (File_GetKey "ns/retries" fs1) = None
  /\ fst (SubmitTransaction fs1) = true
  /\ fst (File_GetKey "ns/retries" (snd (SubmitTransaction fs1))) = None
  /\ fst (File_GetKey "boot-id" (snd (SubmitTransaction fs1)))
     = Some "7"%string.
Proof. repeat split; vm_compute; reflexivity. Qed.

(** Remark: [Init] does not look at the result of [SwapPrefs].  When the
    rename of [<root>_tmp] fails there, [Init] goes on to delete
    [<root>_tmp] and returns true with no store left. *)
Example Init_after_failed_promotion :
  let fs := {| prefs := None; prefs_tmp := prefs_tmp sample_interrupted_commit;
               faults := [false; true]; accesses := [] |} in
  fst (Init fs) = true
  /\ prefs (snd (Init fs)) = None /\ prefs_tmp (snd (Init fs)) = None.
Proof. repeat split; vm_compute; reflexivity. Qed.

(** C5, witness: the two observers of "update-state" in the memory store
    note what the key reads as when they are notified; they are notified
    after the write, and what they note is the value written. *)
Lemma observers_notified_after_success_witness :
  SetString recording_observer "update-state" "2" sample_memory_prefs
  = (true,
     fold_left (fun q o => recording_observer o "update-state" q)
       [1%nat; 2%nat]
       (with_storage
          (snd (Storage_SetKey "update-state" "2"
                  (storage_ sample_memory_prefs)))
          sample_memory_prefs),
     [ StorageSetKey "update-state" "2" true;
       CallOnPrefSet 1%nat "update-state";
       CallOnPrefSet 2%nat "update-state" ])
  /\ fst (GetString "seen"
            (snd (fst (SetString recording_observer "update-state" "2"
                         sample_memory_prefs)))) = Some "2"%string.
Proof.
  destruct (observers_notified_after_success recording_observer
              quiet_observer "update-state" "2" sample_memory_prefs)
    as [[H _] _].
  cbv zeta in H. rewrite H. split; vm_compute; reflexivity.
Defined.


(** C6, witness: a key with a space. *)
Lemma invalid_key_rejected_witness :
  File_GetKey "boot id" sample_fs = (None, sample_fs)
  /\ File_SetKey "boot id" "8" sample_fs = (false, sample_fs)
  /\ File_KeyExists "boot id" sample_fs = (false, sample_fs)
  /\ File_DeleteKey "boot id" sample_fs = (false, sample_fs).
Proof.
  assert (Hkey : "boot id"%string = EmptyString
                 \/ (exists c, In c (list_ascii_of_string "boot id")
                               /\ ~ in_key_class c)).
  { right. exists " "%char. split; [vm_compute; tauto|].
    unfold in_key_class. vm_compute.
    intros [[H _] | [[H _] | [[H _] | [H | [H | H]]]]];
      try (apply H; reflexivity); discriminate H. }
  pose proof (invalid_key_rejected quiet_observer quiet_observer "boot id" "8"
                0 true sample_fs ∅ Hkey) as H.
  cbv zeta in H.
  destruct H as (H1 & H2 & H3 & H4 & _).
  repeat split; assumption.
Defined.

(** C7, witness: on the file-backed sample store, with an observer that
    unregisters observers while it is notified. *)
Lemma typed_value_round_trip_witness :
  let int_set :=
    SetInt64 unregistering_observer "update-state" (-77) sample_file_prefs in
  let bool_set :=
    SetBoolean unregistering_observer "update-state" true sample_file_prefs in
  fst (fst int_set) = true
  /\ fst (GetInt64 "update-state" (snd (fst int_set))) = Some (-77)
  /\ fst (GetString "update-state" (snd (fst int_set))) = Some "-77"%string
  /\ fst (fst bool_set) = true
  /\ fst (GetBoolean "update-state" (snd (fst bool_set))) = Some true
  /\ fst (GetString "update-state" (snd (fst bool_set))) = Some "true"%string.
Proof.
  intros int_set bool_set.
  assert (Hquiet : forall o q,
             fst (GetString "update-state"
                    (unregistering_observer o "update-state" q))
             = fst (GetString "update-state" q)).
  { intros o q. rewrite !GetString_result. unfold unregistering_observer.
    destruct (bool_decide (o = 1%nat)); reflexivity. }
  destruct (typed_value_round_trip unregistering_observer "update-state"
              sample_file_prefs Hquiet) as [Hint Hbool].
  assert (Hrange : INT64_MIN <= -77 <= INT64_MAX) by (vm_compute; split; discriminate).
  assert (Hi : SetInt64 unregistering_observer "update-state" (-77)
                 sample_file_prefs
               = (true, snd (fst int_set), snd int_set))
    by (vm_compute; reflexivity).
  assert (Hb : SetBoolean unregistering_observer "update-state" true
                 sample_file_prefs
               = (true, snd (fst bool_set), snd bool_set))
    by (vm_compute; reflexivity).
  destruct (Hint _ _ _ Hrange Hi) as (H1 & H2 & _).
  destruct (Hbool _ _ _ Hb) as (H3 & H4).
  split; [vm_compute; reflexivity|]. split; [exact H1|]. split; [exact H2|].
  split; [vm_compute; reflexivity|]. split; [exact H3 | exact H4].
Defined.

End PrefsProofs.

(** * Properties of the dynamic-partition controller *)

Module DynamicPartitionControlProofs.
Import PayloadFile DynamicPartitionControl.

(** The expectations of the unit test [OptimizeOperationTest], in its
    order. *)
Example OptimizeOperationTest_expectations :
  let c := test_controller true true in
  let op1 := source_copy [extent 0 1] [extent 0 1] in
  let op2 := source_copy [extent 0 1; extent 1 5] [extent 0 1; extent 1 5] in
  let op3 := source_copy [extent 0 1; extent 1 5; extent 6 5]
                         [extent 0 1; extent 1 5; extent 6 5] in
  (* Not a SOURCE_COPY operation, cannot skip. *)
  OptimizeOperation c "foo"
    {| type := REPLACE; data_offset := None; data_length := None;
       src_extents := []; dst_extents := []; data_sha256_hash := None |}
  = None
  (* GetVirtualAbFeatureFlag is disabled. *)
  /\ OptimizeOperation (test_controller false false) "foo" (source_copy [] [])
     = None
  (* target_supports_snapshot_ is false. *)
  /\ OptimizeOperation (test_controller true false) "foo" (source_copy [] [])
     = None
  (* Empty source and destination. Skip. *)
  /\ OptimizeOperation c "foo" (source_copy [] []) = Some (source_copy [] [])
  (* Something in sources, destinations empty, and the other way round. *)
  /\ OptimizeOperation c "foo" (source_copy [extent 0 1] []) = None
  /\ OptimizeOperation c "foo" (source_copy [] [extent 0 1]) = None
  (* Sources and destinations are identical. Skip. *)
  /\ OptimizeOperation c "foo" op1 = Some (source_copy [] [])
  /\ OptimizeOperation c "foo"
       (source_copy [extent 0 1; extent 1 5] [extent 0 1]) = None
  /\ OptimizeOperation c "foo" op2 = Some (source_copy [] [])
  /\ OptimizeOperation c "foo"
       (source_copy [extent 0 1; extent 1 5]
                    [extent 0 1; extent 1 5; extent 6 5]) = None
  /\ OptimizeOperation c "foo" op3 = Some (source_copy [] [])
  (* [1, 3, 4, 7, 8] -> [2, 3, 4, 5, 6] gives [1, 7, 8] -> [2, 5, 6] *)
  /\ OptimizeOperation c "foo"
       (source_copy [extent 1 1; extent 3 2; extent 7 2] [extent 2 5])
     = Some (source_copy [extent 1 1; extent 7 2] [extent 2 1; extent 5 2])
  (* Don't skip for static partitions. *)
  /\ OptimizeOperation c "bar"
       (source_copy [extent 1 1; extent 3 2; extent 7 2] [extent 2 5])
     = None.
Proof. vm_compute. repeat split. Qed.

Lemma moved_blocks_same l : moved_blocks l l = [].
Proof.
  unfold moved_blocks. induction l as [|b l IH]; simpl; [reflexivity|].
  rewrite Z.eqb_refl. simpl. exact IH.
Qed.

(** C8.  For a SOURCE_COPY operation whose source extents are its
    destination extents, on a mapped dynamic partition of the target slot
    with snapshots enabled, [OptimizeOperation] succeeds and the operation
    it returns has no source and no destination extent: no block is read or
    written for it. *)
Theorem OptimizeOperation_identity c partition_name operation :
  type operation = SOURCE_COPY ->
  src_extents operation = dst_extents operation ->
  target_supports_snapshot_ c = true ->
  virtual_ab_enabled c = true ->
  (partition_name +:+ target_suffix c) ∈ mapped_devices_ c ->
  exists optimized,
    OptimizeOperation c partition_name operation = Some optimized
    /\ type optimized = SOURCE_COPY
    /\ src_extents optimized = []
    /\ dst_extents optimized = []
    /\ blocks_of (src_extents optimized) = []
    /\ blocks_of (dst_extents optimized) = [].
Proof.
  intros Htype Hsame Hsnap Hvab Hmapped.
  unfold OptimizeOperation. rewrite Htype, Hsnap, Hvab.
  rewrite bool_decide_eq_true_2 by exact Hmapped. cbn [andb].
  unfold OptimizeSourceCopyOperation. rewrite Hsame, moved_blocks_same.
  rewrite Nat.eqb_refl. cbn [negb length map extents_of].
  destruct (length (blocks_of (dst_extents operation))) as [|n] eqn:E.
  - eexists. split; [reflexivity|]. repeat split.
  - cbn. eexists. split; [reflexivity|]. repeat split.
Qed.

(** C8, witness: the operation of the specification's scenario, whose
    source and destination extents are both {start:0, num:4}. *)
Lemma OptimizeOperation_identity_witness :
  exists optimized,
    OptimizeOperation (test_controller true true) "foo"
      (source_copy [extent 0 4] [extent 0 4]) = Some optimized
    /\ type optimized = SOURCE_COPY
    /\ src_extents optimized = []
    /\ dst_extents optimized = []
    /\ blocks_of (src_extents optimized) = []
    /\ blocks_of (dst_extents optimized) = [].
Proof.
  apply (OptimizeOperation_identity (test_controller true true) "foo"
           (source_copy [extent 0 4] [extent 0 4])).
  - reflexivity.
  - reflexivity.
  - reflexivity.
  - reflexivity.
  - vm_compute. reflexivity.
Defined.

(** The expectations of the group tests of the unit test on
    [UpdatePartitionMetadata], for the target slot b. *)
Example GroupTest_expectations :
  (* ResizeWithinGroup *)
  is_Some (UpdatePartitionMetadata false test_source_metadata 1
             [ group_update "android" (3 * GiB) [("system", 3 * GiB)];
               group_update "oem" (2 * GiB) [("vendor", 2 * GiB)] ])
  (* NotEnoughSpaceForGroup *)
  /\ UpdatePartitionMetadata false test_source_metadata 1
       [ group_update "android" (3 * GiB) [("system", 1 * GiB)];
         group_update "oem" (2 * GiB) [("vendor", 3 * GiB)] ] = None
  (* GroupTooBig *)
  /\ UpdatePartitionMetadata false test_source_metadata 1
       [ group_update "android" (3 * GiB) [];
         group_update "oem" (3 * GiB) [] ] = None
  (* ResizeGroup *)
  /\ is_Some (UpdatePartitionMetadata false test_source_metadata 1
                [ group_update "android" (2 * GiB) [("system", 2 * GiB)];
                  group_update "oem" (3 * GiB) [("vendor", 3 * GiB)] ]).
Proof.
  split; [vm_compute; eexists; reflexivity|].
  split; [vm_compute; reflexivity|].
  split; [vm_compute; reflexivity|].
  vm_compute; eexists; reflexivity.
Qed.

Lemma group_used_app m group p :
  group_used {| super_size := super_size m; groups := groups m;
                lp_partitions := lp_partitions m ++ [p] |} group
  = group_used m group
    + (if bool_decide (lp_group p = group) then lp_size p else 0).
Proof.
  unfold group_used. simpl.
  induction (lp_partitions m) as [|q l IH]; simpl.
  - destruct (bool_decide (lp_group p = group)); lia.
  - rewrite IH. destruct (bool_decide (lp_group q = group)); lia.
Qed.

Lemma group_used_nonneg m group : sizes_valid m -> 0 <= group_used m group.
Proof.
  unfold sizes_valid, group_used. induction 1 as [|q l Hq Hl IH]; simpl; [lia|].
  destruct (bool_decide (lp_group q = group)); lia.
Qed.

Lemma add_partition_valid group m name size m' :
  sizes_valid m -> 0 <= size ->
  add_partition group m name size = Some m' -> sizes_valid m'.
Proof.
  unfold add_partition. intros Hm Hs H.
  destruct (_ || _); [discriminate|]. inversion H; subst.
  unfold sizes_valid in *. simpl. apply Forall_app. split; [exact Hm|].
  constructor; [exact Hs | constructor].
Qed.

(** A partition larger than the maximum size of its group is refused. *)
Lemma add_partition_too_large group m name size :
  sizes_valid m -> maximum_size group < size ->
  add_partition group m name size = None.
Proof.
  intros Hm Hs. unfold add_partition. rewrite group_used_app. simpl.
  rewrite bool_decide_eq_true_2 by reflexivity.
  pose proof (group_used_nonneg m (group_name group) Hm).
  replace (maximum_size group <? group_used m (group_name group) + size)
    with true by (symmetry; apply Z.ltb_lt; lia).
  reflexivity.
Qed.

Lemma add_partitions_too_large group suffix l : forall m name size,
  sizes_valid m -> Forall (fun ps => 0 <= snd ps) l ->
  In (name, size) l -> maximum_size group < size ->
  add_partitions group suffix l m = None.
Proof.
  induction l as [|[n sz] l IH]; intros m name size Hm Hl Hin Hs; [destruct Hin|].
  inversion Hl as [|? ? Hsz Hl']; subst. simpl in Hsz |- *.
  destruct (add_partition group m (n +:+ suffix) sz) as [m'|] eqn:E;
    [|reflexivity].
  destruct Hin as [Heq | Hin].
  - inversion Heq; subst.
    rewrite add_partition_too_large in E by assumption. discriminate.
  - apply (IH m' name size); try assumption.
    eapply add_partition_valid; eassumption.
Qed.

Lemma add_partitions_valid group suffix l : forall m m',
  sizes_valid m -> Forall (fun ps => 0 <= snd ps) l ->
  add_partitions group suffix l m = Some m' -> sizes_valid m'.
Proof.
  induction l as [|[n sz] l IH]; intros m m' Hm Hl H; simpl in H.
  - inversion H; subst. exact Hm.
  - inversion Hl as [|? ? Hsz Hl']; subst. simpl in Hsz.
    destruct (add_partition group m (n +:+ suffix) sz) as [m1|] eqn:E;
      [|discriminate].
    apply (IH m1 m'); try assumption.
    eapply add_partition_valid; eassumption.
Qed.

Lemma add_groups_too_large suffix manifest : forall m g name size,
  sizes_valid m -> request_valid manifest ->
  In g manifest -> In (name, size) (gu_partitions g) -> gu_size g < size ->
  add_groups suffix manifest m = None.
Proof.
  induction manifest as [|g0 manifest IH];
    intros m g name size Hm Hv Hg Hin Hs; [destruct Hg|].
  inversion Hv as [|? ? Hg0 Hv']; subst. simpl.
  destruct (add_group suffix g0 m) as [m'|] eqn:E; [|reflexivity].
  destruct Hg as [-> | Hg].
  - unfold add_group in E.
    rewrite (add_partitions_too_large _ _ _ _ name size) in E;
      [discriminate | exact Hm | exact Hg0 | exact Hin | exact Hs].
  - apply (IH m' g name size); try assumption.
    unfold add_group in E.
    eapply add_partitions_valid; [| exact Hg0 | exact E]. exact Hm.
Qed.

Lemma remove_slot_valid suffix m : sizes_valid m -> sizes_valid (remove_slot suffix m).
Proof.
  unfold sizes_valid, remove_slot. simpl. intros H.
  rewrite List.Forall_forall in H |- *. intros p Hp.
  apply filter_In in Hp as [Hp _]. apply H. exact Hp.
Qed.

(** C9 (amended).  [PreparePartitionsForUpdate] fails when the manifest
    requests a partition larger than the maximum size of its group, and, on
    a device without Virtual A/B, when the sizes of the requested groups add
    up to more than half of the size of the super partition; in both cases
    the metadata stored on the super partition are left as they were. *)
Theorem PreparePartitionsForUpdate_refuses virtual_ab sp source_slot
    target_slot manifest delete_source :
  (forall m, LoadMetadata sp source_slot = Some m -> sizes_valid m) ->
  request_valid manifest ->
  (exists g name size,
      In g manifest /\ In (name, size) (gu_partitions g) /\ gu_size g < size)
  \/ (virtual_ab = false
      /\ exists m,
          LoadMetadata sp source_slot = Some m
          /\ super_size m / 2 < requested_group_sizes manifest) ->
  PreparePartitionsForUpdate virtual_ab sp source_slot target_slot manifest
    delete_source
  = (false, sp).
Proof.
  intros Hvalid Hreq H. unfold PreparePartitionsForUpdate.
  destruct (LoadMetadata sp source_slot) as [m|] eqn:El; [|reflexivity].
  specialize (Hvalid m eq_refl).
  set (m1 := if delete_source
             then remove_slot (SlotSuffixForSlotNumber source_slot) m else m).
  assert (Hm1 : sizes_valid m1 /\ super_size m1 = super_size m).
  { subst m1. destruct delete_source; [|auto].
    split; [apply remove_slot_valid; exact Hvalid | reflexivity]. }
  destruct Hm1 as [Hm1 Hsize].
  assert (Hnone : UpdatePartitionMetadata virtual_ab m1 target_slot manifest
                  = None).
  { unfold UpdatePartitionMetadata, allocatable_space.
    cbn [remove_slot super_size].
    destruct (_ <? requested_group_sizes manifest) eqn:Espace; [reflexivity|].
    destruct H as [(g & name & size & Hg & Hin & Hs)
                  | (Hvab & m' & Hm' & Hhalf)].
    - apply (add_groups_too_large _ _ _ g name size); try assumption.
      apply remove_slot_valid. exact Hm1.
    - inversion Hm'; subst m'. rewrite Hvab in Espace.
      apply Z.ltb_ge in Espace. rewrite Hsize in Espace. lia. }
  rewrite Hnone. reflexivity.
Qed.

(** C9, witness: the request of the test GroupTooBig, two groups of 3 GiB
    in a super partition of 10 GiB + 1 MiB, without Virtual A/B. *)
Lemma PreparePartitionsForUpdate_refuses_witness :
  PreparePartitionsForUpdate false test_super 0 1
    [ group_update "android" (3 * GiB) [];
      group_update "oem" (3 * GiB) [] ] true
  = (false, test_super).
Proof.
  apply PreparePartitionsForUpdate_refuses.
  - intros m H. vm_compute in H. inversion H; subst.
    repeat constructor; vm_compute; discriminate.
  - repeat constructor.
  - right. split; [reflexivity|]. exists test_source_metadata.
    split; [reflexivity | vm_compute; reflexivity].
Defined.

(** C9 as stated fails: in the test RecoveryErrorShouldDeleteSource, on a
    Virtual A/B device, the requested group takes 5 GiB of a super partition
    of 5 GiB + 1 MiB, more than half of it, and [PreparePartitionsForUpdate]
    succeeds and stores the metadata of the target slot, with "system" of
    3 GiB and "vendor" of 1 GiB, as the test expects. *)
Lemma PreparePartitionsForUpdate_accepts_more_than_half :
  exists m stored,
    LoadMetadata recovery_super 0 = Some m
    /\ sizes_valid m
    /\ request_valid recovery_manifest
    /\ super_size m / 2 < requested_group_sizes recovery_manifest
    /\ PreparePartitionsForUpdate true recovery_super 0 1 recovery_manifest
         true
       = (true, StoreMetadata recovery_super 1 stored)
    /\ StoreMetadata recovery_super 1 stored <> recovery_super
    /\ map (fun p => (lp_name p, lp_size p)) (lp_partitions stored)
       = [("system_b"%string, 3 * GiB); ("vendor_b"%string, 1 * GiB)].
Proof.
  exists recovery_source_metadata. eexists.
  split; [reflexivity|].
  split; [repeat constructor; vm_compute; discriminate|].
  split; [repeat constructor; vm_compute; discriminate|].
  split; [vm_compute; reflexivity|].
  split; [vm_compute; reflexivity|].
  split; [vm_compute; discriminate | vm_compute; reflexivity].
Qed.

End DynamicPartitionControlProofs.

(** * More properties of the payload writer *)

Module PayloadFileMoreProofs.
Import PayloadFile PayloadFileProofs PayloadFileMore.

Section Writer.
Context (env : Environment).

Lemma pread_Some file count offset buf :
  pread file count offset = Some buf ->
  offset < 2 ^ 63 /\ buf = take (Z.to_nat count) (drop (Z.to_nat offset) file).
Proof.
  unfold pread. destruct (2 ^ 63 <=? offset) eqn:E; [discriminate|].
  apply Z.leb_gt in E. intros H; inversion H. auto.
Qed.

(** What one turn of the loop of [ReorderDataBlobs] does. *)
Lemma ReorderOne_effect {out_path} in_file st aop aop' st' :
  ReorderOne env in_file out_path st aop = Ok (aop', st') ->
  same_but_blob env in_file aop aop'
  /\ written st' = written st ++ blob_of in_file (op aop)
  /\ match data_offset (op aop) with
     | None => out_file_size st' = out_file_size st
     | Some offset =>
       data_offset (op aop') = Some (out_file_size st)
       /\ out_file_size st'
          = wrap64 (out_file_size st + get_data_length (op aop))
       /\ is_Some (data_length (op aop))
       /\ Z.of_nat (length (blob_of in_file (op aop)))
          = get_data_length (op aop)
       /\ offset < 2 ^ 63 /\ get_data_length (op aop) < 2 ^ 63
       /\ Write_succeeds env out_path (written st)
            (blob_of in_file (op aop)) = true
     end.
Proof.
  unfold ReorderOne, same_but_blob, blob_of, get_data_length. intros H.
  destruct (data_offset (op aop)) as [offset|] eqn:Eoff.
  - destruct (data_length (op aop)) as [len|] eqn:Elen; [|discriminate].
    destruct (2 ^ 63 <=? len) eqn:Ebig; [discriminate|].
    apply Z.leb_gt in Ebig.
    destruct (pread in_file len offset) as [buf|] eqn:Eread; [|discriminate].
    apply pread_Some in Eread as [Hoff ->].
    step_ok H as u Hlen. apply require_Ok in Hlen. apply Z.eqb_eq in Hlen.
    step_ok H as o1 Ho1. unfold AddOperationHash in Ho1.
    step_ok Ho1 as hash Hhash. apply test_and_return_false_Ok in Hhash.
    inversion Ho1; subst o1; clear Ho1.
    step_ok H as w Hw. unfold FileWriter_Write in Hw.
    destruct (Write_succeeds env out_path (written st) _) eqn:Ew;
      [|discriminate].
    inversion Hw; subst w; clear Hw.
    inversion H; subst aop' st'; clear H. cbn.
    rewrite Hlen, Hhash. cbn.
    repeat split; eauto.
  - inversion H; subst aop' st'; clear H.
    rewrite app_nil_r. repeat split; reflexivity.
Qed.

Lemma ordered_content_cons file o ops :
  ordered_content file (o :: ops) = blob_of file o ++ ordered_content file ops.
Proof. reflexivity. Qed.

Lemma ordered_content_app file l1 l2 :
  ordered_content file (l1 ++ l2)
  = ordered_content file l1 ++ ordered_content file l2.
Proof.
  unfold ordered_content. rewrite map_app, concat_app. reflexivity.
Qed.

Lemma ReorderAops_effect {out_path} in_file l : forall st l' st',
  ReorderAops env in_file out_path st l = Ok (l', st') ->
  Forall2 (same_but_blob env in_file) l l'
  /\ written st' = written st ++ ordered_content in_file (map op l)
  /\ Forall (read_in_full in_file) (map op l).
Proof.
  induction l as [|aop l IH]; cbn [ReorderAops]; intros st l' st' H.
  - inversion H; subst. rewrite app_nil_r.
    split; [constructor|]. split; [reflexivity | constructor].
  - step_ok H as [aop1 st1] Ha. step_ok H as [rest st2] Hrest.
    inversion H; subst l' st'; clear H.
    apply ReorderOne_effect in Ha as (H1 & H2 & H3).
    apply IH in Hrest as (H4 & H5 & H6).
    split; [constructor; assumption|]. split.
    + cbn [map]. rewrite ordered_content_cons, H5, H2, app_assoc.
      reflexivity.
    + cbn [map]. constructor; [|exact H6].
      intros Hhas. unfold has_data_offset, get_data_offset in *.
      destruct (data_offset (op aop)) as [offset|].
      * cbn. tauto.
      * apply bool_decide_eq_true in Hhas. destruct Hhas; discriminate.
Qed.

Lemma flat_ops_cons p ps : flat_ops (p :: ps) = map op (aops p) ++ flat_ops ps.
Proof. reflexivity. Qed.

Lemma ReorderParts_effect {out_path} in_file ps : forall st ps' st',
  ReorderParts env in_file out_path st ps = Ok (ps', st') ->
  Forall2 (fun p p' =>
             p' = with_aops (aops p') p
             /\ Forall2 (same_but_blob env in_file) (aops p) (aops p'))
    ps ps'
  /\ written st' = written st ++ ordered_content in_file (flat_ops ps)
  /\ Forall (read_in_full in_file) (flat_ops ps).
Proof.
  induction ps as [|p ps IH]; cbn [ReorderParts]; intros st ps' st' H.
  - inversion H; subst. rewrite app_nil_r.
    split; [constructor|]. split; [reflexivity | constructor].
  - step_ok H as [l1 st1] Ha. step_ok H as [rest st2] Hrest.
    inversion H; subst ps' st'; clear H.
    apply ReorderAops_effect in Ha as (H1 & H2 & H3).
    apply IH in Hrest as (H4 & H5 & H6).
    split; [constructor; [split; [reflexivity | exact H1] | exact H4]|].
    rewrite flat_ops_cons. split.
    + rewrite ordered_content_app, H5, H2, app_assoc. reflexivity.
    + apply Forall_app. split; assumption.
Qed.

Lemma ReorderDataBlobs_inv part_vec in_path in_file out_path ps out_file :
  ReorderDataBlobs env part_vec in_path in_file out_path = Ok (ps, out_file) ->
  Open_for_read env in_path = true
  /\ Open_for_write env out_path = true
  /\ exists st,
      ReorderParts env in_file out_path
        {| written := []; out_file_size := 0 |} part_vec
      = Ok (ps, st)
      /\ out_file = written st.
Proof.
  unfold ReorderDataBlobs. intros H.
  step_ok H as u1 Hr. apply require_Ok in Hr.
  step_ok H as u2 Hw. apply require_Ok in Hw.
  step_ok H as [ps1 st1] Hparts. inversion H; subst; clear H.
  eauto.
Qed.

(** X1.  The file [ReorderDataBlobs] writes is the concatenation of the
    blobs of the operations, read at their old offsets and taken in the
    order of the partitions and of the operations within them; when it
    succeeds every blob was read in full, with an offset and a length below
    2^63. *)
Theorem ReorderDataBlobs_content part_vec in_path in_file out_path ps
    out_file :
  ReorderDataBlobs env part_vec in_path in_file out_path = Ok (ps, out_file) ->
  out_file = ordered_content in_file (flat_ops part_vec)
  /\ Forall (read_in_full in_file) (flat_ops part_vec).
Proof.
  intros H. apply ReorderDataBlobs_inv in H as (_ & _ & st & H & ->).
  apply ReorderParts_effect in H as (_ & H2 & H3). auto.
Qed.

(** X2.  [ReorderDataBlobs] changes nothing but the place and the hash of
    the blobs: the partitions stay the same in number and order, each with
    all its fields but the operations; the operations stay the same in
    number and order; an operation without blob is unchanged; an operation
    with a blob keeps its name, type, length and extents and carries the
    hash of its blob. *)
Theorem ReorderDataBlobs_keeps_operations part_vec in_path in_file out_path
    ps out_file :
  ReorderDataBlobs env part_vec in_path in_file out_path = Ok (ps, out_file) ->
  Forall2 (fun p p' =>
             p' = with_aops (aops p') p
             /\ Forall2 (same_but_blob env in_file) (aops p) (aops p'))
    part_vec ps.
Proof.
  intros H. apply ReorderDataBlobs_inv in H as (_ & _ & st & H & _).
  apply ReorderParts_effect in H as (H1 & _). exact H1.
Qed.

Lemma ReorderOne_position {out_path} in_file st aop aop' st' :
  ReorderOne env in_file out_path st aop = Ok (aop', st') ->
  out_file_size st = Z.of_nat (length (written st)) ->
  Z.of_nat (length (written st')) < 2 ^ 64 ->
  out_file_size st' = Z.of_nat (length (written st'))
  /\ 0 <= get_data_offset (op aop')
  /\ forall rest,
       blob_of (written st' ++ rest) (op aop') = blob_of in_file (op aop).
Proof.
  intros H Hsize Hbound.
  apply ReorderOne_effect in H as (Hsame & Hw & H).
  destruct Hsame as (_ & _ & Hlen & _ & _ & Hsame).
  rewrite Hw in Hbound |- *. rewrite length_app in Hbound |- *.
  destruct (data_offset (op aop)) as [offset|] eqn:Eoff.
  - destruct H as (Hoff' & Hsize' & _ & Hblob & _ & _ & _).
    split; [|split].
    + rewrite Hsize', Hsize, <- Hblob, Nat2Z.inj_add.
      apply wrap64_small. lia.
    + unfold get_data_offset. rewrite Hoff', Hsize. cbn. lia.
    + intros rest. unfold blob_of at 1. rewrite Hoff'.
      unfold get_data_length at 1. rewrite Hlen.
      fold (get_data_length (op aop)). rewrite <- Hblob, Hsize, !Nat2Z.id.
      rewrite <- app_assoc, drop_app_length, take_app_length. reflexivity.
  - subst aop'. split; [|split].
    + unfold blob_of. rewrite Eoff. cbn. lia.
    + unfold get_data_offset. rewrite Eoff. cbn. lia.
    + intros rest. unfold blob_of. rewrite Eoff. reflexivity.
Qed.

Lemma ReorderAops_position {out_path} in_file l : forall st l' st',
  ReorderAops env in_file out_path st l = Ok (l', st') ->
  out_file_size st = Z.of_nat (length (written st)) ->
  Z.of_nat (length (written st')) < 2 ^ 64 ->
  out_file_size st' = Z.of_nat (length (written st'))
  /\ Forall2 (fun o o' =>
                0 <= get_data_offset o'
                /\ forall rest,
                     blob_of (written st' ++ rest) o' = blob_of in_file o)
       (map op l) (map op l').
Proof.
  induction l as [|aop l IH]; cbn [ReorderAops]; intros st l' st' H Hsize Hb.
  - inversion H; subst. split; [exact Hsize | constructor].
  - step_ok H as [aop1 st1] Ha. step_ok H as [rest st2] Hrest.
    inversion H; subst l' st'; clear H.
    pose proof (ReorderAops_effect _ _ _ _ _ Hrest) as (_ & Hgrow & _).
    assert (Hb1 : Z.of_nat (length (written st1)) < 2 ^ 64)
      by (rewrite Hgrow, length_app in Hb; lia).
    destruct (ReorderOne_position _ _ _ _ _ Ha Hsize Hb1)
      as (Hsize1 & Hpos & Hblob).
    destruct (IH _ _ _ Hrest Hsize1 Hb) as [Hsize2 Hall].
    split; [exact Hsize2|]. cbn [map]. constructor; [|exact Hall].
    split; [exact Hpos|].
    intros tail. rewrite Hgrow, <- app_assoc. apply Hblob.
Qed.

Lemma ReorderParts_position {out_path} in_file ps : forall st ps' st',
  ReorderParts env in_file out_path st ps = Ok (ps', st') ->
  out_file_size st = Z.of_nat (length (written st)) ->
  Z.of_nat (length (written st')) < 2 ^ 64 ->
  out_file_size st' = Z.of_nat (length (written st'))
  /\ Forall2 (fun o o' =>
                0 <= get_data_offset o'
                /\ forall rest,
                     blob_of (written st' ++ rest) o' = blob_of in_file o)
       (flat_ops ps) (flat_ops ps').
Proof.
  induction ps as [|p ps IH]; cbn [ReorderParts]; intros st ps' st' H Hsize Hb.
  - inversion H; subst. split; [exact Hsize | constructor].
  - step_ok H as [l1 st1] Ha. step_ok H as [rest st2] Hrest.
    inversion H; subst ps' st'; clear H.
    pose proof (ReorderParts_effect _ _ _ _ _ Hrest) as (_ & Hgrow & _).
    assert (Hb1 : Z.of_nat (length (written st1)) < 2 ^ 64)
      by (rewrite Hgrow, length_app in Hb; lia).
    destruct (ReorderAops_position _ _ _ _ _ Ha Hsize Hb1) as [Hsize1 Hblob].
    destruct (IH _ _ _ Hrest Hsize1 Hb) as [Hsize2 Hall].
    split; [exact Hsize2|]. rewrite !flat_ops_cons. cbn [aops with_aops].
    apply Forall2_app; [|exact Hall].
    eapply Forall2_impl; [exact Hblob|].
    intros o o' [Hpos Ho]. split; [exact Hpos|].
    intros tail. rewrite Hgrow, <- app_assoc. apply Ho.
Qed.

(** X3.  In the file [ReorderDataBlobs] writes (of less than 2^64 bytes)
    every operation finds its blob at its new offset: the bytes the
    operation denotes in the new file with its new [data_offset] are the
    bytes it denoted in the old file with its old one. *)
Theorem ReorderDataBlobs_blobs_at_new_offsets part_vec in_path in_file
    out_path ps out_file :
  ReorderDataBlobs env part_vec in_path in_file out_path = Ok (ps, out_file) ->
  Z.of_nat (length out_file) < 2 ^ 64 ->
  Forall2 (fun o o' => blob_of out_file o' = blob_of in_file o)
    (flat_ops part_vec) (flat_ops ps).
Proof.
  intros H Hb. apply ReorderDataBlobs_inv in H as (_ & _ & st & H & ->).
  apply ReorderParts_position in H as [_ H]; [|reflexivity | exact Hb].
  eapply Forall2_impl; [exact H|].
  intros o o' [_ Ho]. rewrite <- (Ho []), app_nil_r. reflexivity.
Qed.





(** After a successful reordering the order check of [WritePayload]
    succeeds. *)
Lemma CheckParts_after_ReorderDataBlobs part_vec in_path in_file out_path ps
      out_file :
  ReorderDataBlobs env part_vec in_path in_file out_path = Ok (ps, out_file) ->
  CheckParts 0 ps = Ok (last_offset 0 (flat_ops ps)).
Proof.
  intros H. apply ReorderDataBlobs_inv in H as (_ & _ & st & H & _).
  apply ReorderParts_spec in H as (H1 & _).
  apply CheckParts_after_reorder. exact H1.
Qed.

(** X5.  The outcome of [WritePayload] is decided by the reordering and
    by the length of the signature alone: it dies exactly when
    [ReorderDataBlobs] does, so that the fatal "bad blob offset" of its
    order check is never reached, and it returns true exactly when
    [ReorderDataBlobs] succeeds and, for a signed payload, the length of
    the signature is obtained, whatever happens to the payload file. *)
Theorem WritePayload_outcome part_vec manifest major payload_file in_path
    in_file key :
  let reorder :=
    ReorderDataBlobs env part_vec in_path in_file kOrderedBlobsFile in
  let result :=
    WritePayload env part_vec manifest major payload_file in_path in_file
      key in
  (result = Fatal <-> reorder = Fatal)
  /\ ((exists r, result = Ok r)
      <-> (exists reordered, reorder = Ok reordered)
          /\ (key = EmptyString \/ is_Some (SignatureBlobLength env key))).
Proof.
  intros reorder result. subst result. unfold WritePayload. fold reorder.
  pose proof (CheckParts_after_ReorderDataBlobs part_vec in_path in_file
                kOrderedBlobsFile) as Hcheck.
  fold reorder in Hcheck.
  destruct reorder as [[ps ordered]| |].
  - cbn [mbind outcome_bind obind]. rewrite (Hcheck _ _ eq_refl).
    cbn [mbind outcome_bind obind].
    destruct (bool_decide (key = EmptyString)) eqn:Ek.
    + apply bool_decide_eq_true in Ek. cbn [mbind outcome_bind obind].
      split; [split; discriminate|]. split; eauto.
    + apply bool_decide_eq_false in Ek.
      destruct (SignatureBlobLength env key) as [len|];
        cbn [test_and_return_false mbind outcome_bind obind].
      * split; [split; discriminate|]. split; eauto.
      * split; [split; discriminate|]. split.
        -- intros [r Hr]. discriminate.
        -- intros [_ [Hk | [x Hx]]]; [contradiction | discriminate].
  - cbn [mbind outcome_bind obind]. split; [split; discriminate|].
    split; [intros [r Hr]; discriminate | intros [[x Hx] _]; discriminate].
  - cbn [mbind outcome_bind obind]. split; [split; reflexivity|].
    split; [intros [r Hr]; discriminate | intros [[x Hx] _]; discriminate].
Qed.

Lemma WritePayload_inv_reorder part_vec manifest major payload_file in_path
      in_file key r :
  WritePayload env part_vec manifest major payload_file in_path in_file key
  = Ok r ->
  exists ps ordered,
    ReorderDataBlobs env part_vec in_path in_file kOrderedBlobsFile
    = Ok (ps, ordered)
    /\ partitions (manifest_out r) = map (PartitionToUpdate env) ps
    /\ minor_version (manifest_out r) = minor_version manifest
    /\ block_size (manifest_out r) = block_size manifest
    /\ max_timestamp (manifest_out r) = max_timestamp manifest
    /\ written_payload r
       = WritePayloadManifest env payload_file kOrderedBlobsFile ordered
           key major (manifest_out r).
Proof.
  unfold WritePayload. intros H.
  step_ok H as [ps ordered] Hre. step_ok H as next Hcheck.
  step_ok H as m Hm. inversion H; subst r; clear H. cbn.
  exists ps, ordered. split; [exact Hre|].
  destruct (bool_decide (key = EmptyString)).
  - inversion Hm; subst m. cbn. auto 6.
  - step_ok Hm as len Hlen. inversion Hm; subst m. cbn. auto 6.
Qed.





(** X7.  [WritePayload] rebuilds the partitions of the manifest from the
    partitions added to the payload: whatever partitions the manifest had,
    it ends with one per added partition, in the same order, with the name,
    the merge sequence and the number of operations of that partition; the
    minor version, the block size and the timestamp are kept. *)
Theorem WritePayload_manifest_partitions part_vec manifest major payload_file
    in_path in_file key r :
  WritePayload env part_vec manifest major payload_file in_path in_file key
  = Ok r ->
  Forall2 (fun p pu =>
             partition_name pu = name p
             /\ merge_operations pu = cow_merge_sequence p
             /\ length (operations pu) = length (aops p))
    part_vec (partitions (manifest_out r))
  /\ minor_version (manifest_out r) = minor_version manifest
  /\ block_size (manifest_out r) = block_size manifest
  /\ max_timestamp (manifest_out r) = max_timestamp manifest.
Proof.
  intros H.
  apply WritePayload_inv_reorder in H
    as (ps & ordered & Hre & Hparts & H1 & H2 & H3 & _).
  split; [|auto]. rewrite Hparts. clear Hparts.
  apply ReorderDataBlobs_inv in Hre as (_ & _ & st & Hre & _).
  apply ReorderParts_effect in Hre as (Hall & _).
  induction Hall as [|p p' l l' [Hp Haops] _ IH]; cbn [map]; constructor.
  - rewrite Hp. cbn. split; [reflexivity|]. split; [reflexivity|].
    rewrite length_map. symmetry. eapply Forall2_length. exact Haops.
  - exact IH.
Qed.

(** X8.  A partition added without an old image has no
    [old_partition_info] in the manifest: when [AddPartition] succeeds for
    a configuration whose old path is empty and [WritePayload] succeeds on
    the partitions so obtained, the manifest ends with the entry of that
    partition, under the name of its new configuration, with the merge
    sequence and as many operations as were given, and without
    [old_partition_info], whatever [InitializePartitionInfo] does. *)
Theorem AddPartition_without_old_image InitializePartitionInfo old_conf
    new_conf aops merge_sequence cow_info part_vec part_vec' manifest major
    payload_file in_path in_file key r :
  AddPartition InitializePartitionInfo old_conf new_conf aops merge_sequence
    cow_info part_vec = Ok part_vec' ->
  conf_path old_conf = EmptyString ->
  WritePayload env part_vec' manifest major payload_file in_path in_file key
  = Ok r ->
  exists before pu,
    partitions (manifest_out r) = before ++ [pu]
    /\ length before = length part_vec
    /\ partition_name pu = conf_name new_conf
    /\ merge_operations pu = merge_sequence
    /\ length (operations pu) = length aops
    /\ old_partition_info pu = None.
Proof.
  unfold AddPartition. intros Hadd Hpath H. rewrite Hpath in Hadd.
  rewrite bool_decide_eq_true_2 in Hadd by reflexivity. cbn [negb] in Hadd.
  step_ok Hadd as old Hold. inversion Hold; subst old; clear Hold.
  step_ok Hadd as new Hnew. inversion Hadd; subst part_vec'; clear Hadd.
  apply WritePayload_inv_reorder in H
    as (ps & ordered & Hre & Hparts & _).
  apply ReorderDataBlobs_inv in Hre as (_ & _ & st & Hre & _).
  apply ReorderParts_effect in Hre as (Hall & _).
  apply Forall2_app_inv_l in Hall as (ps0 & ps1 & Hall0 & Hall1 & ->).
  inversion Hall1 as [|p p' l l' [Hp Haops] Hnil]; subst.
  inversion Hnil; subst.
  exists (map (PartitionToUpdate env) ps0), (PartitionToUpdate env p').
  split; [rewrite Hparts, map_app; reflexivity|].
  split; [rewrite length_map; symmetry; eapply Forall2_length; exact Hall0|].
  rewrite Hp. cbn.
  split; [reflexivity|]. split; [reflexivity|]. split; [|reflexivity].
  rewrite length_map. symmetry. eapply Forall2_length. exact Haops.
Qed.

End Writer.

(** X1, witness: the blobs "B" "AA" of the sample, stored as "BAA", are
    written as "AAB". *)
Lemma ReorderDataBlobs_content_witness :
  exists ps,
    ReorderDataBlobs sample_env sample_parts "blobs.bin" sample_blobs
      "ordered.bin" = Ok (ps, [x41; x41; x42])
    /\ [x41; x41; x42] = ordered_content sample_blobs (flat_ops sample_parts).
Proof.
  eexists. split; [vm_compute; reflexivity|].
  eapply (ReorderDataBlobs_content sample_env sample_parts "blobs.bin"
            sample_blobs "ordered.bin").
  vm_compute. reflexivity.
Defined.

(** X2, witness. *)
Lemma ReorderDataBlobs_keeps_operations_witness :
  exists ps out_file,
    ReorderDataBlobs sample_env three_parts "blobs.bin" sample_blobs
      "ordered.bin" = Ok (ps, out_file)
    /\ Forall2 (fun p p' =>
                  p' = with_aops (aops p') p
                  /\ Forall2 (same_but_blob sample_env sample_blobs)
                       (aops p) (aops p'))
         three_parts ps.
Proof.
  eexists. eexists. split; [vm_compute; reflexivity|].
  eapply (ReorderDataBlobs_keeps_operations sample_env three_parts
            "blobs.bin" sample_blobs "ordered.bin").
  vm_compute. reflexivity.
Defined.

(** X3, witness. *)
Lemma ReorderDataBlobs_blobs_at_new_offsets_witness :
  exists ps out_file,
    ReorderDataBlobs sample_env three_parts "blobs.bin" sample_blobs
      "ordered.bin" = Ok (ps, out_file)
    /\ Forall2 (fun o o' => blob_of out_file o' = blob_of sample_blobs o)
         (flat_ops three_parts) (flat_ops ps).
Proof.
  eexists. eexists. split; [vm_compute; reflexivity|].
  eapply (ReorderDataBlobs_blobs_at_new_offsets sample_env three_parts
            "blobs.bin" sample_blobs "ordered.bin").
  - vm_compute. reflexivity.
  - vm_compute. reflexivity.
Defined.



(** X7, witness. *)
Lemma WritePayload_manifest_partitions_witness :
  exists r,
    sample_signed = Ok r
    /\ Forall2 (fun p pu =>
                  partition_name pu = name p
                  /\ merge_operations pu = cow_merge_sequence p
                  /\ length (operations pu) = length (aops p))
         sample_parts (partitions (manifest_out r)).
Proof.
  eexists. split; [vm_compute; reflexivity|].
  eapply (WritePayload_manifest_partitions sample_env sample_parts
            sample_manifest 2 "payload.bin" "blobs.bin" sample_blobs
            "key.pem").
  vm_compute. reflexivity.
Defined.

(** X5, witness: the payload file cannot be created, and [WritePayload]
    returns true. *)
Lemma WritePayload_outcome_witness :
  exists r,
    WritePayload readonly_env sample_parts sample_manifest 2 "payload.bin"
      "blobs.bin" sample_blobs no_key = Ok r.
Proof.
  destruct (WritePayload_outcome readonly_env sample_parts sample_manifest 2
              "payload.bin" "blobs.bin" sample_blobs no_key) as [_ H].
  apply H. split; [|left; reflexivity].
  eexists. vm_compute. reflexivity.
Defined.

(** X8, witness: "product" added to the sample partitions. *)
Lemma AddPartition_without_old_image_witness :
  exists part_vec' r before pu,
    AddPartition sample_info (sample_conf "product" EmptyString)
      (sample_conf "product" "product.img") [] []
      {| cow_size := 0; op_count_max := 0 |} sample_parts = Ok part_vec'
    /\ WritePayload sample_env part_vec' sample_manifest 2 "payload.bin"
         "blobs.bin" sample_blobs no_key = Ok r
    /\ partitions (manifest_out r) = before ++ [pu]
    /\ partition_name pu = "product"%string
    /\ old_partition_info pu = None.
Proof.
  destruct (AddPartition_without_old_image sample_env sample_info
              (sample_conf "product" EmptyString)
              (sample_conf "product" "product.img") [] []
              {| cow_size := 0; op_count_max := 0 |} sample_parts
              (sample_parts ++ [with_aops [] (sample_partition "product" [])])
              sample_manifest 2 "payload.bin" "blobs.bin" sample_blobs no_key
              (match WritePayload sample_env
                       (sample_parts
                        ++ [with_aops [] (sample_partition "product" [])])
                       sample_manifest 2 "payload.bin" "blobs.bin"
                       sample_blobs no_key with
               | Ok r => r
               | _ => {| manifest_out := sample_manifest;
                         written_payload := Failure |}
               end))
    as (before & pu & H1 & _ & H3 & _ & _ & H6).
  - vm_compute. reflexivity.
  - reflexivity.
  - vm_compute. reflexivity.
  - eexists. eexists. exists before, pu.
    split; [vm_compute; reflexivity|].
    split; [vm_compute; reflexivity|].
    split; [exact H1|]. split; [exact H3 | exact H6].
Defined.

End PayloadFileMoreProofs.

(** * More properties of the preference store *)

Module PrefsMoreProofs.
Import Prefs PrefsProofs PrefsMore.


Lemma Storage_GetKey_file key fs :
  fst (Storage_GetKey key (FileStorage fs)) = fst (File_GetKey key fs).
Proof. simpl. destruct (File_GetKey key fs). reflexivity. Qed.


Lemma File_SetKey_other key value key' fs :
  key' <> key ->
  file_value key' (snd (File_SetKey key value fs)) = file_value key' fs.
Proof.
  intros Hne. unfold File_SetKey, file_value.
  destruct (key_ok_cases key) as [Hk | Hk].
  - rewrite (GetFileNameForKey_valid _ _ Hk).
    fs_cases fs; cbn; try reflexivity;
      rewrite ?lookup_insert_ne, ?lookup_empty by congruence; reflexivity.
  - rewrite (GetFileNameForKey_invalid _ _ Hk). reflexivity.
Qed.

Lemma File_DeleteKey_other key key' fs :
  key' <> key ->
  file_value key' (snd (File_DeleteKey key fs)) = file_value key' fs.
Proof.
  intros Hne. unfold File_DeleteKey, file_value.
  destruct (key_ok_cases key) as [Hk | Hk].
  - rewrite (GetFileNameForKey_valid _ _ Hk).
    fs_cases fs; cbn; try reflexivity;
      rewrite ?lookup_delete_ne by congruence; reflexivity.
  - rewrite (GetFileNameForKey_invalid _ _ Hk). reflexivity.
Qed.

Lemma File_GetKey_value key fs :
  fst (File_GetKey key fs) = if key_ok key then file_value key fs else None.
Proof. apply File_GetKey_result. Qed.

(** X9.  Writing or deleting a key, successfully or not, never changes what
    another key reads as: in the memory store for any two keys, in the file
    store for two keys that are canonical, that is the paths of two
    files. *)
Theorem other_keys_untouched key value key' st :
  key' <> key ->
  match st with
  | FileStorage _ => canonical key = true /\ canonical key' = true
  | MemoryStorage _ => True
  end ->
  fst (Storage_GetKey key' (snd (Storage_SetKey key value st)))
  = fst (Storage_GetKey key' st)
  /\ fst (Storage_GetKey key' (snd (Storage_DeleteKey key st)))
     = fst (Storage_GetKey key' st).
Proof.
  intros Hne _. destruct st as [fs | values]; split.
  - assert (H := File_SetKey_other key value key' fs Hne).
    cbn [Storage_SetKey]. destruct (File_SetKey key value fs) as [ok fs'].
    cbn [snd] in *. rewrite !Storage_GetKey_file, !File_GetKey_value, H.
    reflexivity.
  - assert (H := File_DeleteKey_other key key' fs Hne).
    cbn [Storage_DeleteKey]. destruct (File_DeleteKey key fs) as [ok fs'].
    cbn [snd] in *. rewrite !Storage_GetKey_file, !File_GetKey_value, H.
    reflexivity.
  - cbn. unfold Memory_GetKey. apply lookup_insert_ne. congruence.
  - cbn. unfold Memory_GetKey. apply lookup_delete_ne. congruence.
Qed.

(** X9, witness. *)
Lemma other_keys_untouched_witness :
  fst (Storage_GetKey "dlc/a/active"
         (snd (Storage_SetKey "dlc/b/active" "1"
                 (FileStorage sample_namespaces))))
  = Some "1"%string
  /\ fst (Storage_GetKey "dlc/a/active"
            (snd (Storage_DeleteKey "dlc/b/active"
                    (FileStorage sample_namespaces))))
     = Some "1"%string.
Proof.
  assert (Hne : "dlc/a/active"%string <> "dlc/b/active"%string)
    by discriminate.
  assert (Hc : canonical "dlc/b/active" = true
               /\ canonical "dlc/a/active" = true)
    by (split; reflexivity).
  destruct (other_keys_untouched "dlc/b/active" "1" "dlc/a/active"
              (FileStorage sample_namespaces) Hne Hc) as [H1 H2].
  rewrite H1, H2. split; vm_compute; reflexivity.
Defined.



(** ** Typed values *)

Lemma skip_spaces_app_spaces before l :
  Forall (fun c => isspace c = true) before ->
  skip_spaces (before ++ l) = skip_spaces l.
Proof.
  induction 1 as [|c before Hc _ IH]; [reflexivity|].
  simpl. rewrite Hc. exact IH.
Qed.

Lemma skip_spaces_spaces l :
  Forall (fun c => isspace c = true) l -> skip_spaces l = [].
Proof.
  intros H. rewrite <- (app_nil_r l). rewrite skip_spaces_app_spaces by exact H.
  reflexivity.
Qed.

Lemma skip_spaces_head c l : isspace c = false -> skip_spaces (c :: l) = c :: l.
Proof. intros H. simpl. rewrite H. reflexivity. Qed.

(** [Trim] takes the white space around a text away, when the text starts
    and ends with other characters. *)
Lemma Trim_padded before first middle last after :
  Forall (fun c => isspace c = true) before ->
  Forall (fun c => isspace c = true) after ->
  isspace first = false -> isspace last = false ->
  Trim (string_of_list_ascii (before ++ (first :: middle ++ [last]) ++ after))
  = string_of_list_ascii (first :: middle ++ [last]).
Proof.
  intros Hb Ha Hf Hl. unfold Trim. rewrite list_ascii_of_string_of_list_ascii.
  rewrite skip_spaces_app_spaces by exact Hb.
  cbn [app]. rewrite skip_spaces_head by exact Hf.
  change (first :: (middle ++ [last]) ++ after)
    with ((first :: middle ++ [last]) ++ after).
  rewrite rev_app_distr.
  rewrite skip_spaces_app_spaces by (apply Forall_rev; exact Ha).
  change (first :: middle ++ [last]) with ((first :: middle) ++ [last]).
  rewrite rev_app_distr. cbn [rev app].
  rewrite skip_spaces_head by exact Hl.
  change (last :: rev middle ++ [first])
    with (rev [last] ++ (rev middle ++ rev [first])).
  rewrite <- !rev_app_distr, rev_involutive. reflexivity.
Qed.

Lemma Trim_padded_single before c after :
  Forall (fun c => isspace c = true) before ->
  Forall (fun c => isspace c = true) after ->
  isspace c = false ->
  Trim (string_of_list_ascii (before ++ [c] ++ after))
  = string_of_list_ascii [c].
Proof.
  intros Hb Ha Hc. unfold Trim. rewrite list_ascii_of_string_of_list_ascii.
  rewrite skip_spaces_app_spaces by exact Hb.
  cbn [app]. rewrite skip_spaces_head by exact Hc.
  change (c :: after) with ([c] ++ after).
  rewrite rev_app_distr.
  rewrite skip_spaces_app_spaces by (apply Forall_rev; exact Ha).
  cbn [rev app]. rewrite skip_spaces_head by exact Hc. reflexivity.
Qed.

Lemma Trim_padded_empty before after :
  Forall (fun c => isspace c = true) before ->
  Forall (fun c => isspace c = true) after ->
  Trim (padded before EmptyString after) = EmptyString.
Proof.
  intros Hb Ha. unfold Trim, padded.
  rewrite list_ascii_of_string_of_list_ascii. cbn [list_ascii_of_string app].
  rewrite (skip_spaces_spaces (before ++ after))
    by (apply Forall_app; split; assumption).
  reflexivity.
Qed.

(** A text without white space in it, between white space. *)
Lemma Trim_padded_text before l after :
  Forall (fun c => isspace c = true) before ->
  Forall (fun c => isspace c = true) after ->
  Forall (fun c => isspace c = false) l -> l <> [] ->
  Trim (padded before (string_of_list_ascii l) after) = string_of_list_ascii l.
Proof.
  intros Hb Ha Hl Hne. unfold padded.
  rewrite list_ascii_of_string_of_list_ascii.
  destruct l as [|first l]; [congruence|].
  destruct (rev l) as [|last m] eqn:E.
  - apply (f_equal (@rev ascii)) in E. rewrite rev_involutive in E.
    subst l. inversion Hl; subst.
    apply Trim_padded_single; assumption.
  - apply (f_equal (@rev ascii)) in E. rewrite rev_involutive in E.
    cbn [rev] in E. subst l. inversion Hl as [|? ? Hfirst Hrest]; subst.
    apply Forall_app in Hrest as [_ Hlast].
    inversion Hlast; subst.
    apply Trim_padded; assumption.
Qed.

Lemma GetInt64_of_text key p text :
  fst (GetString key p) = Some text ->
  fst (GetInt64 key p)
  = if bool_decide (Trim text = EmptyString) then None
    else ParseInt (Trim text).
Proof.
  unfold GetInt64. destruct (GetString key p) as [r q]. simpl.
  intros ->. destruct (bool_decide (Trim text = EmptyString)); reflexivity.
Qed.

Lemma GetBoolean_of_text key p text :
  fst (GetString key p) = Some text ->
  fst (GetBoolean key p)
  = if bool_decide (Trim text = "false"%string) then Some false
    else if bool_decide (Trim text = "true"%string) then Some true
    else None.
Proof.
  unfold GetBoolean. destruct (GetString key p) as [r q]. simpl.
  intros ->.
  destruct (bool_decide (Trim text = "false"%string));
    [|destruct (bool_decide (Trim text = "true"%string))]; reflexivity.
Qed.

(** X12.  The typed reads ignore white space around the stored text: an
    integer or boolean written with blanks or a newline around it, as a
    shell leaves it, is read as the value; a text of white space only is
    neither an integer nor a boolean. *)
Theorem typed_reads_ignore_white_space key p before after :
  Forall (fun c => isspace c = true) before ->
  Forall (fun c => isspace c = true) after ->
  (forall value,
      INT64_MIN <= value <= INT64_MAX ->
      fst (GetString key p) = Some (padded before (format_int64 value) after) ->
      fst (GetInt64 key p) = Some value)
  /\ (forall value : bool,
        fst (GetString key p)
        = Some (padded before (if value then "true" else "false") after) ->
        fst (GetBoolean key p) = Some value)
  /\ (fst (GetString key p) = Some (padded before EmptyString after) ->
      fst (GetInt64 key p) = None /\ fst (GetBoolean key p) = None).
Proof.
  intros Hb Ha. split; [|split].
  - intros value Hv H. rewrite (GetInt64_of_text _ _ _ H).
    destruct (format_int64_numeric value) as (l & El & Hl & Hne).
    pose proof (Trim_format_int64 value) as [_ Hnonempty].
    rewrite El in *. rewrite Trim_padded_text; try assumption.
    + rewrite bool_decide_eq_false_2 by exact Hnonempty.
      rewrite <- El. apply ParseInt_format_int64. exact Hv.
    + eapply Forall_impl; [exact Hl|]. intros c Hc.
      apply is_numeric_plain. exact Hc.
  - intros value H. rewrite (GetBoolean_of_text _ _ _ H).
    destruct value.
    + change "true"%string with (string_of_list_ascii
        ["t"; "r"; "u"; "e"]%char).
      rewrite Trim_padded_text; try assumption; try discriminate.
      * reflexivity.
      * repeat constructor.
    + change "false"%string with (string_of_list_ascii
        ["f"; "a"; "l"; "s"; "e"]%char).
      rewrite Trim_padded_text; try assumption; try discriminate.
      * reflexivity.
      * repeat constructor.
  - intros H. rewrite (GetInt64_of_text _ _ _ H), (GetBoolean_of_text _ _ _ H).
    rewrite Trim_padded_empty by assumption. split; reflexivity.
Qed.

(** X12, witness: " 42" followed by a newline. *)
Lemma typed_reads_ignore_white_space_witness :
  fst (GetInt64 "retries"
         (memory_prefs_with "retries" (padded [" "%char] "42" ["010"%char])))
  = Some 42.
Proof.
  assert (Hb : Forall (fun c => isspace c = true) [" "%char])
    by (repeat constructor).
  assert (Ha : Forall (fun c => isspace c = true) ["010"%char])
    by (repeat constructor).
  destruct (typed_reads_ignore_white_space "retries"
              (memory_prefs_with "retries"
                 (padded [" "%char] "42" ["010"%char]))
              [" "%char] ["010"%char] Hb Ha) as [Hint _].
  apply (Hint 42).
  - vm_compute. split; discriminate.
  - vm_compute. reflexivity.
Defined.

Section Observers.
Context (OnPrefSet : Observer -> string -> PrefsBase -> PrefsBase).

(** X13.  The text of an integer is no boolean and the text of a boolean is
    no integer: after a successful [SetInt64], [GetBoolean] of the key
    fails, and after a successful [SetBoolean], [GetInt64] fails.  (The
    observers of the key are assumed not to change what the key reads
    as.) *)
Theorem typed_values_do_not_convert key p :
  (forall o q,
      fst (GetString key (OnPrefSet o key q)) = fst (GetString key q)) ->
  (forall value p' events,
      SetInt64 OnPrefSet key value p = (true, p', events) ->
      fst (GetBoolean key p') = None)
  /\ (forall value p' events,
        SetBoolean OnPrefSet key value p = (true, p', events) ->
        fst (GetInt64 key p') = None).
Proof.
  intros Hobs. split.
  - intros value p' events H. unfold SetInt64 in H.
    apply (SetString_GetString _ _ _ _ _ _ Hobs) in H.
    rewrite (GetBoolean_of_text _ _ _ H).
    destruct (Trim_format_int64 value) as [-> _].
    destruct (format_int64_numeric value) as (l & -> & Hl & Hne).
    destruct l as [|c l]; [congruence|].
    inversion Hl as [|? ? Hc _]; subst.
    assert (Hf : code c <> 102 /\ code c <> 116)
      by (destruct Hc as [Hc | Hc]; unfold is_decimal in *; lia).
    rewrite !bool_decide_eq_false_2; [reflexivity| |];
      simpl; intros E; inversion E; subst; destruct Hf; auto.
  - intros value p' events H. unfold SetBoolean in H.
    apply (SetString_GetString _ _ _ _ _ _ Hobs) in H.
    rewrite (GetInt64_of_text _ _ _ H). destruct value; reflexivity.
Qed.

End Observers.

(** X13, witness. *)
Lemma typed_values_do_not_convert_witness :
  fst (GetBoolean "update-state"
         (snd (fst (SetInt64 quiet_observer "update-state" 1
                      sample_memory_prefs)))) = None.
Proof.
  assert (Hobs : forall o q,
    fst (GetString "update-state" (quiet_observer o "update-state" q))
    = fst (GetString "update-state" q)) by reflexivity.
  destruct (typed_values_do_not_convert quiet_observer "update-state"
              sample_memory_prefs Hobs) as [Hint _].
  eapply (Hint 1). vm_compute. reflexivity.
Defined.

(** ** Transactions *)




(** X15.  [SubmitTransaction] without a transaction destroys the store:
    when [<root>_tmp] does not exist it reports failure, but has removed
    [<root>] before it finds out, unless that removal failed; afterwards
    no key can be read. *)
Theorem submit_without_transaction_destroys_store fs :
  prefs_tmp fs = None ->
  fst (SubmitTransaction fs) = false
  /\ prefs_tmp (snd (SubmitTransaction fs)) = None
  /\ (hd false (faults fs) = false ->
      prefs (snd (SubmitTransaction fs)) = None
      /\ forall key, fst (File_GetKey key (snd (SubmitTransaction fs))) = None).
Proof.
  intros Htmp. unfold SubmitTransaction, SwapPrefs.
  assert (Hread : forall fs' key,
    prefs fs' = None -> prefs_tmp fs' = None ->
    fst (File_GetKey key fs') = None).
  { intros fs' key H1 H2. rewrite File_GetKey_result. unfold active_dir.
    rewrite H2. cbn. rewrite H1. destruct (key_ok key); reflexivity. }
  fs_cases fs; cbn in Htmp; try discriminate; cbn;
    (split; [reflexivity|]; split; [reflexivity|]);
    intros Hf; try discriminate; (split; [reflexivity|]);
    intros key; apply Hread; reflexivity.
Qed.

(** X15, witness. *)
Lemma submit_without_transaction_destroys_store_witness :
  fst (SubmitTransaction sample_fs) = false
  /\ prefs (snd (SubmitTransaction sample_fs)) = None.
Proof.
  assert (Htmp : prefs_tmp sample_fs = None) by reflexivity.
  destruct (submit_without_transaction_destroys_store sample_fs Htmp)
    as (H1 & _ & H3).
  split; [exact H1|]. apply H3. reflexivity.
Defined.






(** ** Observers *)

Lemma erase_first_absent o l : o ∉ l -> erase_first o (l ++ [o]) = l.
Proof.
  induction l as [|x l IH]; intros H; cbn.
  - rewrite bool_decide_eq_true_2 by reflexivity. reflexivity.
  - rewrite bool_decide_eq_false_2.
    + f_equal. apply IH. intros Hin. apply H. right. exact Hin.
    + intros ->. apply H. left.
Qed.

Lemma erase_first_split o before after :
  o ∉ before -> erase_first o (before ++ o :: after) = before ++ after.
Proof.
  induction before as [|x before IH]; intros H; cbn.
  - rewrite bool_decide_eq_true_2 by reflexivity. reflexivity.
  - rewrite bool_decide_eq_false_2.
    + f_equal. apply IH. intros Hin. apply H. right. exact Hin.
    + intros ->. apply H. left.
Qed.

Lemma erase_first_missing o l : o ∉ l -> erase_first o l = l.
Proof.
  induction l as [|x l IH]; intros H; cbn; [reflexivity|].
  rewrite bool_decide_eq_false_2.
  - f_equal. apply IH. intros Hin. apply H. right. exact Hin.
  - intros ->. apply H. left.
Qed.

(** X18.  [RemoveObserver] erases the first registration of the observer
    for the key, the oldest one, and nothing else: the registrations before
    and after it stay, in their order; when the observer is not registered
    for the key the registrations stay as they are; the other keys and the
    stored values are untouched. *)
Theorem RemoveObserver_erases_one_registration key o p :
  (forall before after,
      registered key p = before ++ o :: after ->
      o ∉ before ->
      registered key (RemoveObserver key o p) = before ++ after)
  /\ (o ∉ registered key p ->
      registered key (RemoveObserver key o p) = registered key p)
  /\ (forall key',
        key' <> key ->
        registered key' (RemoveObserver key o p) = registered key' p)
  /\ storage_ (RemoveObserver key o p) = storage_ p.
Proof.
  unfold registered, RemoveObserver. cbn. split; [|split; [|split]].
  - intros before after Hl Hbefore. rewrite lookup_insert_eq. cbn.
    rewrite Hl. apply erase_first_split. exact Hbefore.
  - intros Hmissing. rewrite lookup_insert_eq. cbn.
    apply erase_first_missing. exact Hmissing.
  - intros key' Hne. rewrite lookup_insert_ne by congruence. reflexivity.
  - reflexivity.
Qed.

(** X18, witness: the observer 1 registered before and after the
    observer 2; the older registration is the one erased. *)
Lemma RemoveObserver_erases_one_registration_witness :
  registered "update-state"
    (AddObserver "update-state" 1%nat sample_file_prefs)
  = [1%nat; 2%nat; 1%nat]
  /\ registered "update-state"
       (RemoveObserver "update-state" 1%nat
          (AddObserver "update-state" 1%nat sample_file_prefs))
     = [2%nat; 1%nat]
  /\ registered "update-state"
       (RemoveObserver "update-state" 3%nat sample_file_prefs)
     = [1%nat; 2%nat]
  /\ registered "update-state"
       (RemoveObserver "boot-id" 1%nat sample_file_prefs)
     = [1%nat; 2%nat].
Proof.
  split; [reflexivity|]. split; [|split].
  - destruct (RemoveObserver_erases_one_registration "update-state" 1%nat
                (AddObserver "update-state" 1%nat sample_file_prefs))
      as (H & _).
    apply (H [] [2%nat; 1%nat]); [reflexivity|].
    intros Hin. apply elem_of_nil in Hin. exact Hin.
  - destruct (RemoveObserver_erases_one_registration "update-state" 3%nat
                sample_file_prefs) as (_ & H & _).
    rewrite H; [reflexivity|].
    intros Hin. vm_compute in Hin.
    repeat (apply elem_of_cons in Hin as [Hin | Hin]; [discriminate|]).
    apply elem_of_nil in Hin. exact Hin.
  - destruct (RemoveObserver_erases_one_registration "boot-id" 1%nat
                sample_file_prefs) as (_ & _ & H & _).
    rewrite H; [reflexivity | discriminate].
Defined.

(** X19.  Registering an observer and unregistering it again restores the
    registrations of the key, when the observer was not registered for it
    before; when it was, the older registration is the one erased. *)
Theorem AddObserver_RemoveObserver key o p :
  o ∉ registered key p ->
  registered key (RemoveObserver key o (AddObserver key o p))
  = registered key p.
Proof.
  intros H. unfold registered, RemoveObserver, AddObserver in *. cbn.
  rewrite !lookup_insert_eq. cbn. apply erase_first_absent. exact H.
Qed.

(** X19, witness. *)
Lemma AddObserver_RemoveObserver_witness :
  registered "update-state"
    (RemoveObserver "update-state" 3%nat
       (AddObserver "update-state" 3%nat sample_file_prefs))
  = [1%nat; 2%nat].
Proof.
  rewrite AddObserver_RemoveObserver.
  - vm_compute. reflexivity.
  - vm_compute. intros H.
    repeat (apply elem_of_cons in H as [H | H]; [discriminate|]).
    apply elem_of_nil in H. exact H.
Defined.

(** ** Sub-keys *)

Lemma starts_with_app dir s prefix :
  starts_with (dir ++ s) (dir ++ prefix) = starts_with s prefix.
Proof.
  induction dir as [|c dir IH]; [reflexivity|].
  change (starts_with (String c (dir ++ s)) (String c (dir ++ prefix))
          = starts_with s prefix).
  cbn [starts_with].
  rewrite bool_decide_eq_true_2 by reflexivity. exact IH.
Qed.

Lemma substr_app dir s : substr (String.length dir) (dir ++ s) = s.
Proof. induction dir as [|c dir IH]; [reflexivity | exact IH]. Qed.

Lemma String_app_assoc (a b c : string) :
  ((a ++ b) ++ c = a ++ (b ++ c))%string.
Proof.
  induction a as [|x a IH]; [reflexivity|].
  change (String x ((a ++ b) ++ c) = String x (a ++ (b ++ c)))%string.
  rewrite IH. reflexivity.
Qed.

Lemma starts_with_tmp dir s prefix :
  starts_with (Append dir s) (Append (dir ++ "_tmp") prefix) = false.
Proof.
  unfold Append. rewrite String_app_assoc, starts_with_app. reflexivity.
Qed.

Lemma substr_Append dir key :
  substr (String.length (AsEndingWithSeparator dir)) (Append dir key) = key.
Proof.
  unfold AsEndingWithSeparator, Append.
  change (String kKeySeparator key)
    with (String kKeySeparator EmptyString ++ key)%string.
  rewrite <- String_app_assoc. apply substr_app.
Qed.

Lemma starts_with_Append dir key ns :
  starts_with (Append dir key) (Append dir ns) = starts_with key ns.
Proof.
  unfold Append. rewrite starts_with_app. cbn [starts_with].
  rewrite bool_decide_eq_true_2 by reflexivity. reflexivity.
Qed.

Lemma File_GetSubKeys_keys prefs_dir_ ns fs :
  key_ok ns = true ->
  fst (File_GetSubKeys prefs_dir_ ns fs)
  = Some (if bool_decide (is_Some (prefs_tmp fs)) then []
          else List.filter (fun key => starts_with key ns)
                 (map fst (map_to_list (default ∅ (prefs fs))))).
Proof.
  intros Hk. unfold File_GetSubKeys.
  rewrite (GetFileNameForKey_valid _ _ Hk). cbn [fst]. f_equal.
  unfold enumerate_files. cbn [prefs record].
  generalize (map fst (map_to_list (default ∅ (prefs fs)))). intros keys.
  unfold active_dir.
  destruct (bool_decide (is_Some (prefs_tmp fs))); cbn [dir_path].
  - induction keys as [|key keys IH]; [reflexivity|].
    cbn [map List.filter]. rewrite starts_with_tmp. exact IH.
  - induction keys as [|key keys IH]; [reflexivity|].
    cbn [map List.filter]. rewrite starts_with_Append.
    destruct (starts_with key ns); cbn [map]; rewrite IH;
      rewrite ?substr_Append; reflexivity.
Qed.

(** X20.  Outside a transaction, [GetSubKeys] of the file store returns
    the stored keys that start with the text of the namespace, and only
    those: the test is on characters, not on path segments, so that the
    namespace "dlc" also lists a key "dlcx". *)
Theorem GetSubKeys_lists_keys_starting_with_namespace prefs_dir_ ns fs :
  key_ok ns = true -> prefs_tmp fs = None ->
  exists keys,
    fst (File_GetSubKeys prefs_dir_ ns fs) = Some keys
    /\ forall key,
         key ∈ keys
         <-> starts_with key ns = true
             /\ is_Some (prefs fs ≫= (fun d => d !! key)).
Proof.
  intros Hk Htmp. rewrite (File_GetSubKeys_keys _ _ _ Hk), Htmp.
  rewrite bool_decide_eq_false_2 by (intros [x Hx]; discriminate).
  eexists. split; [reflexivity|]. intros key.
  rewrite list_elem_of_In, List.filter_In, List.in_map_iff.
  assert (Hin : (exists y : string * string,
                    y.1 = key
                    /\ In y (map_to_list (default ∅ (prefs fs))))
                <-> is_Some (prefs fs ≫= (fun d => d !! key))).
  { split.
    - intros [[k v] [<- Hy]].
      apply list_elem_of_In, elem_of_map_to_list in Hy.
      destruct (prefs fs) as [d|]; cbn in *; [eauto|].
      rewrite lookup_empty in Hy. discriminate.
    - intros [v Hv]. exists (key, v). split; [reflexivity|].
      apply list_elem_of_In, elem_of_map_to_list.
      destruct (prefs fs) as [d|]; cbn in *; [exact Hv | discriminate]. }
  tauto.
Qed.

(** X20, witness: the namespace "dlc" lists "dlcx". *)
Lemma GetSubKeys_lists_keys_starting_with_namespace_witness :
  exists keys,
    fst (File_GetSubKeys "/data/prefs" "dlc" sample_namespaces) = Some keys
    /\ "dlcx"%string ∈ keys.
Proof.
  assert (Hk : key_ok "dlc" = true) by reflexivity.
  assert (Htmp : prefs_tmp sample_namespaces = None) by reflexivity.
  destruct (GetSubKeys_lists_keys_starting_with_namespace
              "/data/prefs" "dlc" sample_namespaces Hk Htmp)
    as (keys & Hkeys & Hin).
  exists keys. split; [exact Hkeys|].
  apply Hin. split; [reflexivity|]. vm_compute. eauto.
Defined.

(** X21.  Inside a transaction [GetSubKeys] of the file store finds
    nothing: it enumerates [<root>] but compares with a path under
    [<root>_tmp], so that it succeeds with no key at all, whatever is
    stored and whatever the transaction has written. *)
Theorem GetSubKeys_finds_nothing_in_transaction prefs_dir_ ns fs :
  is_Some (prefs_tmp fs) -> key_ok ns = true ->
  fst (File_GetSubKeys prefs_dir_ ns fs) = Some [].
Proof.
  intros Htmp Hk. rewrite (File_GetSubKeys_keys _ _ _ Hk).
  rewrite bool_decide_eq_true_2 by exact Htmp. reflexivity.
Qed.

(** X21, witness: a key written in the transaction is not listed. *)
Lemma GetSubKeys_finds_nothing_in_transaction_witness :
  fst (File_GetSubKeys "/data/prefs" "dlc"
         (snd (File_SetKey "dlc/c/active" "1"
                 (snd (StartTransaction sample_namespaces)))))
  = Some [].
Proof.
  apply GetSubKeys_finds_nothing_in_transaction.
  - vm_compute. eauto.
  - reflexivity.
Defined.

(** ** Deleting a key in several namespaces *)

Lemma File_GetSubKeys_elem prefs_dir_ ns fs :
  key_ok ns = true ->
  exists keys,
    fst (File_GetSubKeys prefs_dir_ ns fs) = Some keys
    /\ forall key,
         key ∈ keys
         <-> bool_decide (is_Some (prefs_tmp fs)) = false
             /\ starts_with key ns = true
             /\ is_Some (file_value key fs).
Proof.
  intros Hk. rewrite (File_GetSubKeys_keys _ _ _ Hk).
  eexists. split; [reflexivity|]. intros key.
  unfold file_value, active_dir.
  destruct (bool_decide (is_Some (prefs_tmp fs))).
  - split; [intros H; apply elem_of_nil in H; contradiction|].
    intros [H _]. discriminate.
  - cbn [dir_of].
    rewrite list_elem_of_In, List.filter_In, List.in_map_iff.
    assert (Hin : (exists y : string * string,
                      y.1 = key
                      /\ In y (map_to_list (default ∅ (prefs fs))))
                  <-> is_Some (prefs fs ≫= (fun d => d !! key))).
    { split.
      - intros [[k v] [<- Hy]].
        apply list_elem_of_In, elem_of_map_to_list in Hy.
        destruct (prefs fs) as [d|]; cbn in *; [eauto|].
        rewrite lookup_empty in Hy. discriminate.
      - intros [v Hv]. exists (key, v). split; [reflexivity|].
        apply list_elem_of_In, elem_of_map_to_list.
        destruct (prefs fs) as [d|]; cbn in *; [exact Hv | discriminate]. }
    tauto.
Qed.

Lemma File_GetSubKeys_state prefs_dir_ ns fs :
  prefs (snd (File_GetSubKeys prefs_dir_ ns fs)) = prefs fs
  /\ prefs_tmp (snd (File_GetSubKeys prefs_dir_ ns fs)) = prefs_tmp fs
  /\ faults (snd (File_GetSubKeys prefs_dir_ ns fs)) = faults fs.
Proof.
  unfold File_GetSubKeys. destruct (key_ok_cases ns) as [Hk | Hk].
  - rewrite (GetFileNameForKey_valid _ _ Hk). cbn. auto.
  - rewrite (GetFileNameForKey_invalid _ _ Hk). cbn. auto.
Qed.

Lemma File_GetSubKeys_invalid prefs_dir_ ns fs :
  key_ok ns = false -> fst (File_GetSubKeys prefs_dir_ ns fs) = None.
Proof.
  intros Hk. unfold File_GetSubKeys.
  rewrite (GetFileNameForKey_invalid _ _ Hk). reflexivity.
Qed.

Lemma File_DeleteKey_no_fault key fs :
  faults fs = [] ->
  faults (snd (File_DeleteKey key fs)) = []
  /\ bool_decide (is_Some (prefs_tmp (snd (File_DeleteKey key fs))))
     = bool_decide (is_Some (prefs_tmp fs))
  /\ forall k,
       file_value k (snd (File_DeleteKey key fs))
       = if key_ok key && bool_decide (k = key) then None
         else file_value k fs.
Proof.
  intros Hf. unfold File_DeleteKey, file_value.
  destruct (key_ok_cases key) as [Hk | Hk]; rewrite Hk.
  - rewrite (GetFileNameForKey_valid _ _ Hk).
    destruct fs as [r t f a]; cbn in Hf; subst f.
    destruct t, r; cbn; (split; [reflexivity|]; split; [reflexivity|]);
      intros k; destruct (decide (k = key)) as [-> | Hne];
      rewrite ?bool_decide_eq_true_2 by reflexivity;
      rewrite ?bool_decide_eq_false_2 by exact Hne;
      rewrite ?lookup_delete_eq; rewrite ?lookup_delete_ne by congruence;
      reflexivity.
  - rewrite (GetFileNameForKey_invalid _ _ Hk). cbn. auto.
Qed.

Lemma reads_as_ext p f g tx :
  (forall key, f key = g key) -> reads_as p f tx -> reads_as p g tx.
Proof.
  intros Hfg (fs & H1 & H2 & H3 & H4). exists fs.
  split; [exact H1|]. split; [|auto].
  intros key. rewrite H2. apply Hfg.
Qed.

Section Namespaces.

Context (OnPrefDeleted : Observer -> string -> PrefsBase -> PrefsBase).
Context (prefs_dir_ : string).
Context (Memory_GetSubKeys : string -> gmap string string -> list string).

(** The observers leave the stored values alone. *)
Hypothesis quiet : forall o key q, storage_ (OnPrefDeleted o key q) = storage_ q.

Lemma notify_storage event key l : forall p,
  storage_ (fst (notify OnPrefDeleted event key l p)) = storage_ p.
Proof.
  induction l as [|o l IH]; intros p; simpl; [reflexivity|].
  specialize (IH (OnPrefDeleted o key p)).
  destruct (notify OnPrefDeleted event key l (OnPrefDeleted o key p))
    as [q events].
  simpl in *. rewrite IH. apply quiet.
Qed.

Lemma Delete_storage key p :
  storage_ (snd (fst (Delete OnPrefDeleted key p)))
  = snd (Storage_DeleteKey key (storage_ p)).
Proof.
  unfold Delete.
  destruct (Storage_DeleteKey key (storage_ p)) as [[|] st]; [|reflexivity].
  destruct (observers_ (with_storage st p) !! key) as [l|]; [|reflexivity].
  pose proof (notify_storage CallOnPrefDeleted key l (with_storage st p)) as H.
  destruct (notify OnPrefDeleted CallOnPrefDeleted key l (with_storage st p))
    as [q events].
  exact H.
Qed.

Lemma Delete_reads_as key p f tx :
  reads_as p f tx ->
  reads_as (snd (fst (Delete OnPrefDeleted key p)))
    (fun k => if key_ok key && bool_decide (k = key) then None else f k) tx.
Proof.
  intros (fs & H1 & H2 & H3 & H4).
  destruct (File_DeleteKey_no_fault key fs H3) as (F1 & F2 & F3).
  exists (snd (File_DeleteKey key fs)).
  split; [|split; [|split]].
  - rewrite Delete_storage, H1. cbn [Storage_DeleteKey].
    destruct (File_DeleteKey key fs). reflexivity.
  - intros k. rewrite F3, H2. reflexivity.
  - exact F1.
  - rewrite F2. exact H4.
Qed.

Lemma delete_sub_keys_reads_as pref_key keys : forall success p f tx,
  reads_as p f tx ->
  reads_as (snd (fst (delete_sub_keys OnPrefDeleted pref_key keys success p)))
    (fun k =>
       if key_ok k && bool_decide (k ∈ keys)
          && bool_decide (after_last_separator k = Some pref_key)
       then None else f k) tx.
Proof.
  induction keys as [|key keys IH]; intros success p f tx H.
  - cbn [delete_sub_keys fst snd]. eapply reads_as_ext; [|exact H].
    intros k. rewrite (bool_decide_eq_false_2 (k ∈ []))
      by (intros Hin; apply elem_of_nil in Hin; exact Hin).
    rewrite andb_false_r. reflexivity.
  - cbn [delete_sub_keys].
    destruct (bool_decide (after_last_separator key = Some pref_key)) eqn:E.
    + apply bool_decide_eq_true in E.
      pose proof (Delete_reads_as key p f tx H) as Hd.
      destruct (Delete OnPrefDeleted key p) as [[deleted q] events].
      cbn [fst snd] in Hd.
      specialize (IH (deleted && success) q _ tx Hd).
      destruct (delete_sub_keys OnPrefDeleted pref_key keys
                  (deleted && success) q) as [[s r] events'].
      cbn [fst snd] in IH |- *.
      eapply reads_as_ext; [|exact IH]. intros k. cbn beta.
      destruct (decide (k = key)) as [-> | Hne].
      * rewrite (bool_decide_eq_true_2 (key ∈ key :: keys)) by left.
        rewrite (bool_decide_eq_true_2 (key = key)) by reflexivity.
        rewrite (bool_decide_eq_true_2 _ E).
        destruct (key_ok key), (bool_decide (key ∈ keys)); reflexivity.
      * rewrite (bool_decide_eq_false_2 (k = key)) by exact Hne.
        rewrite andb_false_r.
        rewrite (bool_decide_ext (k ∈ key :: keys) (k ∈ keys)); [reflexivity|].
        rewrite elem_of_cons. tauto.
    + apply bool_decide_eq_false in E.
      specialize (IH success p f tx H).
      eapply reads_as_ext; [|exact IH]. intros k. cbn beta.
      destruct (decide (k = key)) as [-> | Hne].
      * rewrite (bool_decide_eq_false_2 _ E). rewrite !andb_false_r.
        reflexivity.
      * rewrite (bool_decide_ext (k ∈ key :: keys) (k ∈ keys)); [reflexivity|].
        rewrite elem_of_cons. tauto.
Qed.

Lemma GetSubKeys_reads_as ns p f tx :
  reads_as p f tx ->
  reads_as (snd (GetSubKeys prefs_dir_ Memory_GetSubKeys ns p)) f tx
  /\ (key_ok ns = false ->
      fst (GetSubKeys prefs_dir_ Memory_GetSubKeys ns p) = None)
  /\ (key_ok ns = true ->
      exists keys,
        fst (GetSubKeys prefs_dir_ Memory_GetSubKeys ns p) = Some keys
        /\ forall key,
             key ∈ keys
             <-> tx = false /\ starts_with key ns = true /\ is_Some (f key)).
Proof.
  intros (fs & H1 & H2 & H3 & H4).
  unfold GetSubKeys. rewrite H1. cbn [Storage_GetSubKeys].
  destruct (File_GetSubKeys_state prefs_dir_ ns fs) as (S1 & S2 & S3).
  pose proof (File_GetSubKeys_invalid prefs_dir_ ns fs) as Hinvalid.
  pose proof (File_GetSubKeys_elem prefs_dir_ ns fs) as Hvalid.
  destruct (File_GetSubKeys prefs_dir_ ns fs) as [r fs'].
  cbn [fst snd] in *. split; [|split].
  - exists fs'. split; [reflexivity|]. split; [|split].
    + intros key. rewrite <- H2. unfold file_value, active_dir.
      rewrite S2. destruct (bool_decide (is_Some (prefs_tmp fs)));
        cbn [dir_of]; congruence.
    + congruence.
    + rewrite S2. exact H4.
  - exact Hinvalid.
  - intros Hk. destruct (Hvalid Hk) as (keys & Hkeys & Hin).
    exists keys. split; [exact Hkeys|].
    intros key. rewrite Hin, H4, H2. reflexivity.
Qed.

Lemma delete_in_namespaces_reads_as pref_key nss : forall success p f,
  forall tx,
  reads_as p f tx ->
  reads_as
    (snd (fst (delete_in_namespaces OnPrefDeleted prefs_dir_ Memory_GetSubKeys
                 pref_key nss success p)))
    (fun k =>
       if key_ok k && negb tx
          && bool_decide (after_last_separator k = Some pref_key)
          && existsb (fun ns => key_ok ns && starts_with k ns) nss
          && bool_decide (is_Some (f k))
       then None else f k) tx.
Proof.
  induction nss as [|ns nss IH]; intros success p f tx H.
  - cbn [delete_in_namespaces fst snd existsb].
    eapply reads_as_ext; [|exact H].
    intros k. rewrite andb_false_r. reflexivity.
  - cbn [delete_in_namespaces].
    destruct (GetSubKeys_reads_as ns p f tx H) as (G1 & G2 & G3).
    destruct (GetSubKeys prefs_dir_ Memory_GetSubKeys ns p)
      as [namespace_keys q].
    cbn [fst snd] in G1, G2, G3.
    set (ok := match namespace_keys with Some _ => true | None => false end
               && success).
    clearbody ok.
    pose proof (delete_sub_keys_reads_as pref_key (default [] namespace_keys)
                  ok q f tx G1) as Hd.
    destruct (delete_sub_keys OnPrefDeleted pref_key
                (default [] namespace_keys) ok q) as [[s r] events].
    cbn [fst snd] in Hd.
    specialize (IH s r _ tx Hd).
    destruct (delete_in_namespaces OnPrefDeleted prefs_dir_ Memory_GetSubKeys
                pref_key nss s r) as [[s' r'] events'].
    cbn [fst snd] in IH |- *.
    eapply reads_as_ext; [|exact IH]. intros k. cbn beta.
    cbn [existsb].
    assert (Hmem : bool_decide (k ∈ default [] namespace_keys)
                   = key_ok ns && negb tx && starts_with k ns
                     && bool_decide (is_Some (f k))).
    { destruct (key_ok_cases ns) as [Hk | Hk]; rewrite Hk.
      - destruct (G3 Hk) as (keys & -> & Hin). cbn [default].
        rewrite (bool_decide_ext _ _ (Hin k)).
        destruct tx, (starts_with k ns); cbn [negb andb];
          try (apply bool_decide_eq_false_2; intros (? & ? & ?); discriminate).
        apply bool_decide_ext. tauto.
      - rewrite (G2 Hk). cbn [default andb].
        apply bool_decide_eq_false_2. intros Hin.
        apply elem_of_nil in Hin. exact Hin. }
    rewrite Hmem.
    destruct (key_ok k), tx, (key_ok ns), (starts_with k ns),
      (bool_decide (after_last_separator k = Some pref_key)),
      (bool_decide (is_Some (f k))) eqn:Ef;
      cbn [negb andb orb]; rewrite ?Ef; cbn [negb andb orb];
      rewrite ?andb_false_r; try reflexivity;
      try (destruct (existsb _ nss); reflexivity).
    all: apply bool_decide_eq_false in Ef;
      destruct (f k); [exfalso; apply Ef; eauto|];
      destruct (existsb _ nss); reflexivity.
Qed.

(** X22.  What [Delete(pref_key, nss)] does to the files of a file store
    whose file system does not fail (the observers leaving the stored
    values alone), where the stored files, [pref_key] and the namespaces
    are canonical paths: it takes away the file of the key itself and,
    outside a transaction, every file whose path starts with the text of
    one of the well-formed namespaces and ends with "/pref_key"; every other
    file is as before.  Inside a transaction the namespaces are left alone,
    and an ill-formed [pref_key] or namespace does not stop the other
    deletions. *)
Theorem Delete_in_namespaces_effect pref_key nss p f tx :
  reads_as p f tx ->
  (forall key, is_Some (f key) -> canonical key = true) ->
  (key_ok pref_key = true -> canonical pref_key = true) ->
  Forall (fun ns => key_ok ns = true -> canonical ns = true) nss ->
  reads_as
    (snd (fst (Delete_in_namespaces OnPrefDeleted prefs_dir_ Memory_GetSubKeys
                 pref_key nss p)))
    (fun key => if deleted_by pref_key nss tx key then None else f key) tx.
Proof.
  intros H _ _ _. unfold Delete_in_namespaces.
  pose proof (Delete_reads_as pref_key p f tx H) as Hd.
  destruct (Delete OnPrefDeleted pref_key p) as [[success q] events].
  cbn [fst snd] in Hd.
  pose proof (delete_in_namespaces_reads_as pref_key nss success q _ tx Hd)
    as Hn.
  destruct (delete_in_namespaces OnPrefDeleted prefs_dir_ Memory_GetSubKeys
              pref_key nss success q) as [[s r] events'].
  cbn [fst snd] in Hn |- *.
  eapply reads_as_ext; [|exact Hn]. intros k. cbn beta. unfold deleted_by.
  destruct (decide (k = pref_key)) as [-> | Hne].
  - rewrite (bool_decide_eq_true_2 (pref_key = pref_key)) by reflexivity.
    destruct (key_ok pref_key); cbn [andb orb].
    + match goal with |- (if ?b then _ else _) = _ => destruct b end;
        reflexivity.
    + reflexivity.
  - rewrite (bool_decide_eq_false_2 (k = pref_key)) by exact Hne.
    rewrite andb_false_r. cbn [orb].
    destruct (key_ok k), tx,
      (bool_decide (after_last_separator k = Some pref_key)),
      (existsb (fun ns => key_ok ns && starts_with k ns) nss);
      cbn [negb andb]; try reflexivity.
    destruct (bool_decide (is_Some (f k))) eqn:Ef; [reflexivity|].
    apply bool_decide_eq_false in Ef.
    destruct (f k); [exfalso; apply Ef; eauto | reflexivity].
Qed.

End Namespaces.

(** X22, witness: "active" is deleted in the namespace "dlc"; the files
    "dlc/a/active" and "dlc/b/active" go, "boot-id" and "dlcx" stay. *)
Lemma Delete_in_namespaces_effect_witness :
  reads_as
    (snd (fst (Delete_in_namespaces quiet_observer "/data/prefs"
                 (fun _ _ => []) "active" ["dlc"%string]
                 sample_namespace_prefs)))
    (fun key =>
       if deleted_by "active" ["dlc"%string] false key then None
       else file_value key sample_namespaces) false
  /\ map (fun key =>
            deleted_by "active" ["dlc"%string] false key)
       ["boot-id"; "dlc/a/active"; "dlc/b/active"; "dlcx"]%string
     = [false; true; true; false].
Proof.
  split; [|reflexivity].
  apply Delete_in_namespaces_effect.
  - reflexivity.
  - exists sample_namespaces. repeat split; reflexivity.
  - intros key [v Hv]. unfold file_value, sample_namespaces in Hv.
    cbn [active_dir dir_of prefs prefs_tmp bool_decide decide_rel] in Hv.
    change (({[ "boot-id"%string := "7"%string;
                "dlc/a/active"%string := "1"%string;
                "dlc/b/active"%string := "0"%string;
                "dlcx"%string := "2"%string ]} : gmap string string) !! key
            = Some v) in Hv.
    repeat (apply lookup_insert_Some in Hv as [[<- _] | [_ Hv]];
            [reflexivity|]).
    apply lookup_singleton_Some in Hv as [<- _]. reflexivity.
  - reflexivity.
  - repeat constructor.
Defined.

(** ** Keys made of segments *)

Lemma append_cons c (a b : string) :
  (String c a ++ b)%string = String c (a ++ b)%string.
Proof. reflexivity. Qed.

Lemma list_ascii_of_string_app (a b : string) :
  list_ascii_of_string (a ++ b)
  = list_ascii_of_string a ++ list_ascii_of_string b.
Proof.
  induction a as [|c a IH]; [reflexivity|].
  rewrite append_cons. cbn [list_ascii_of_string app]. rewrite IH. reflexivity.
Qed.

Lemma key_ok_app_separator (a b : string) :
  key_ok a = true -> key_ok b = true ->
  key_ok (a ++ String kKeySeparator b) = true.
Proof.
  unfold key_ok. intros Ha Hb.
  apply andb_true_iff in Ha as [Ha1 Ha2].
  apply andb_true_iff in Hb as [_ Hb2].
  apply andb_true_iff. split.
  - destruct a as [|c a]; [discriminate | reflexivity].
  - rewrite list_ascii_of_string_app, forallb_app, Ha2.
    cbn [list_ascii_of_string forallb]. rewrite Hb2. reflexivity.
Qed.

Lemma Join_cons thing rest separator :
  rest <> [] ->
  Join (thing :: rest) separator
  = (thing ++ separator ++ Join rest separator)%string.
Proof. destruct rest; [congruence | reflexivity]. Qed.

Lemma CreateSubKey_key_ok parts :
  parts <> [] -> Forall (fun part => key_ok part = true) parts ->
  key_ok (CreateSubKey parts) = true.
Proof.
  unfold CreateSubKey. induction parts as [|part parts IH]; [congruence|].
  intros _ H. inversion H as [|? ? Hpart Hparts]; subst.
  destruct parts as [|next parts]; [exact Hpart|].
  rewrite Join_cons by discriminate.
  apply key_ok_app_separator; [exact Hpart|].
  apply IH; [discriminate | exact Hparts].
Qed.

Lemma starts_with_append (a b : string) : starts_with (a ++ b) a = true.
Proof.
  induction a as [|c a IH]; [destruct b; reflexivity|].
  rewrite append_cons. cbn [starts_with].
  rewrite bool_decide_eq_true_2 by reflexivity. exact IH.
Qed.

Lemma CreateSubKey_starts_with ns rest :
  starts_with (CreateSubKey (ns :: rest)) ns = true.
Proof.
  unfold CreateSubKey. destruct rest as [|next rest].
  - cbn [Join]. rewrite <- (starts_with_append ns EmptyString) at 1.
    f_equal. induction ns as [|c ns IH]; [reflexivity|].
    rewrite append_cons, <- IH. reflexivity.
  - rewrite Join_cons by discriminate. apply starts_with_append.
Qed.

Lemma after_last_separator_top_level key :
  top_level key = true -> after_last_separator key = None.
Proof.
  unfold top_level. induction key as [|c key IH]; [reflexivity|].
  cbn [list_ascii_of_string existsb after_last_separator].
  rewrite negb_orb. intros H. apply andb_true_iff in H as [Hc Hrest].
  rewrite (IH Hrest). apply negb_true_iff in Hc. rewrite Hc. reflexivity.
Qed.

Lemma after_last_separator_app (a b : string) tail :
  after_last_separator b = Some tail ->
  after_last_separator (a ++ b) = Some tail.
Proof.
  intros Hb. induction a as [|c a IH]; [exact Hb|].
  rewrite append_cons. cbn [after_last_separator]. rewrite IH. reflexivity.
Qed.

Lemma after_last_separator_segment (a key : string) :
  top_level key = true ->
  after_last_separator (a ++ String kKeySeparator key) = Some key.
Proof.
  intros Hkey. apply after_last_separator_app.
  cbn [after_last_separator].
  rewrite (after_last_separator_top_level _ Hkey).
  rewrite bool_decide_eq_true_2 by reflexivity. reflexivity.
Qed.

Lemma CreateSubKey_after_last_separator ns middle key :
  top_level key = true ->
  after_last_separator (CreateSubKey (ns :: middle ++ [key])) = Some key.
Proof.
  intros Hkey. unfold CreateSubKey. revert ns.
  induction middle as [|part middle IH]; intros ns.
  - cbn [app]. rewrite Join_cons by discriminate. cbn [Join].
    apply after_last_separator_segment. exact Hkey.
  - cbn [app]. rewrite Join_cons by discriminate.
    apply after_last_separator_app.
    change (String kKeySeparator EmptyString
            ++ Join (part :: middle ++ [key])
                 (String kKeySeparator EmptyString))%string
      with (String kKeySeparator
              (Join (part :: middle ++ [key])
                 (String kKeySeparator EmptyString))).
    cbn [after_last_separator]. rewrite (IH part). reflexivity.
Qed.

Lemma segments_ok_app_separator la lb : forall after_separator,
  segments_ok after_separator (la ++ kKeySeparator :: lb)
  = segments_ok after_separator la && segments_ok true lb.
Proof.
  induction la as [|c la IH]; intros after_separator.
  - cbn [app segments_ok].
    rewrite bool_decide_eq_true_2 by reflexivity. reflexivity.
  - cbn [app segments_ok]. destruct (bool_decide (c = kKeySeparator)).
    + rewrite IH, andb_assoc. reflexivity.
    + apply IH.
Qed.

Lemma canonical_app_separator (a b : string) :
  canonical (a ++ String kKeySeparator b) = canonical a && canonical b.
Proof.
  unfold canonical. rewrite list_ascii_of_string_app.
  cbn [list_ascii_of_string]. apply segments_ok_app_separator.
Qed.

Lemma CreateSubKey_canonical parts :
  parts <> [] -> Forall (fun part => canonical part = true) parts ->
  canonical (CreateSubKey parts) = true.
Proof.
  unfold CreateSubKey. induction parts as [|part parts IH]; [congruence|].
  intros _ H. inversion H as [|? ? Hpart Hparts]; subst.
  destruct parts as [|next parts]; [exact Hpart|].
  rewrite Join_cons by discriminate.
  change (String kKeySeparator EmptyString
          ++ Join (next :: parts) (String kKeySeparator EmptyString))%string
    with (String kKeySeparator
            (Join (next :: parts) (String kKeySeparator EmptyString))).
  rewrite canonical_app_separator, Hpart.
  apply IH; [discriminate | exact Hparts].
Qed.

(** X23.  A key made by [CreateSubKey] from a namespace, further segments
    and a last segment without separator, all well formed and canonical,
    is a key the other functions treat as belonging to the namespace: it
    is well formed and canonical, it starts with the namespace, which is
    the test of [GetSubKeys], and what follows its last separator is the
    last segment, which is the test of [Delete(pref_key, nss)]; outside a
    transaction [GetSubKeys] of the namespace lists it once it is
    stored. *)
Theorem CreateSubKey_belongs_to_namespace ns middle key :
  Forall (fun part => key_ok part = true /\ canonical part = true)
    (ns :: middle ++ [key]) ->
  top_level key = true ->
  key_ok (CreateSubKey (ns :: middle ++ [key])) = true
  /\ canonical (CreateSubKey (ns :: middle ++ [key])) = true
  /\ starts_with (CreateSubKey (ns :: middle ++ [key])) ns = true
  /\ after_last_separator (CreateSubKey (ns :: middle ++ [key])) = Some key
  /\ forall prefs_dir_ fs,
       prefs_tmp fs = None ->
       is_Some (fst (File_GetKey (CreateSubKey (ns :: middle ++ [key])) fs)) ->
       exists keys,
         fst (File_GetSubKeys prefs_dir_ ns fs) = Some keys
         /\ CreateSubKey (ns :: middle ++ [key]) ∈ keys.
Proof.
  intros Hparts Hkey.
  assert (Hok : Forall (fun part => key_ok part = true)
                  (ns :: middle ++ [key]))
    by (eapply Forall_impl; [exact Hparts | intros part [H _]; exact H]).
  assert (Hcan : Forall (fun part => canonical part = true)
                   (ns :: middle ++ [key]))
    by (eapply Forall_impl; [exact Hparts | intros part [_ H]; exact H]).
  assert (H1 : key_ok (CreateSubKey (ns :: middle ++ [key])) = true)
    by (apply CreateSubKey_key_ok; [discriminate | exact Hok]).
  assert (H2 := CreateSubKey_starts_with ns (middle ++ [key])).
  assert (H3 := CreateSubKey_after_last_separator ns middle key Hkey).
  split; [exact H1|].
  split; [apply CreateSubKey_canonical; [discriminate | exact Hcan]|].
  split; [exact H2|]. split; [exact H3|].
  intros prefs_dir_ fs Htmp Hstored.
  assert (Hns : key_ok ns = true) by (inversion Hok; assumption).
  destruct (File_GetSubKeys_elem prefs_dir_ ns fs Hns) as (keys & Hkeys & Hin).
  exists keys. split; [exact Hkeys|]. apply Hin.
  split; [rewrite Htmp; reflexivity|]. split; [exact H2|].
  rewrite File_GetKey_value, H1 in Hstored. exact Hstored.
Qed.

(** X23, witness: "dlc/a/active" in the namespace "dlc". *)
Lemma CreateSubKey_belongs_to_namespace_witness :
  CreateSubKey ["dlc"; "a"; "active"]%string = "dlc/a/active"%string
  /\ key_ok "dlc/a/active" = true
  /\ canonical "dlc/a/active" = true
  /\ starts_with "dlc/a/active" "dlc" = true
  /\ after_last_separator "dlc/a/active" = Some "active"%string
  /\ exists keys,
       fst (File_GetSubKeys "/data/prefs" "dlc" sample_namespaces) = Some keys
       /\ "dlc/a/active"%string ∈ keys.
Proof.
  assert (Hparts : Forall (fun part => key_ok part = true
                                       /\ canonical part = true)
                     ("dlc" :: ["a"] ++ ["active"])%string)
    by (repeat constructor).
  assert (Hkey : top_level "active" = true) by reflexivity.
  destruct (CreateSubKey_belongs_to_namespace "dlc" ["a"%string] "active"
              Hparts Hkey) as (H1 & H2 & H3 & H4 & H5).
  split; [reflexivity|]. split; [exact H1|]. split; [exact H2|].
  split; [exact H3|]. split; [exact H4|].
  apply (H5 "/data/prefs" sample_namespaces); [reflexivity|].
  vm_compute. eexists. reflexivity.
Defined.

End PrefsMoreProofs.

(** * The order of the usage report *)

Module UsageReportProofs.
Import UsageReport.

Lemma string_less_irrefl a : string_less a a = false.
Proof.
  induction a as [|c a IH]; [reflexivity|].
  cbn [string_less]. rewrite N.ltb_irrefl, N.eqb_refl, IH. reflexivity.
Qed.

Lemma string_less_trans a : forall b c,
  string_less a b = true -> string_less b c = true -> string_less a c = true.
Proof.
  induction a as [|x a IH]; intros [|y b] [|z c]; cbn [string_less];
    try discriminate; try reflexivity.
  intros H1 H2.
  apply orb_true_iff in H1. apply orb_true_iff in H2. apply orb_true_iff.
  destruct H1 as [H1 | H1], H2 as [H2 | H2].
  - left. apply N.ltb_lt in H1, H2. apply N.ltb_lt. lia.
  - apply andb_true_iff in H2 as [H2 _]. apply N.eqb_eq in H2.
    left. rewrite <- H2. exact H1.
  - apply andb_true_iff in H1 as [H1 _]. apply N.eqb_eq in H1.
    left. rewrite H1. exact H2.
  - apply andb_true_iff in H1 as [H1 H1']. apply andb_true_iff in H2 as [H2 H2'].
    apply N.eqb_eq in H1, H2. right. apply andb_true_iff. split.
    + apply N.eqb_eq. congruence.
    + eapply IH; eassumption.
Qed.

Lemma N_of_ascii_inj c d : N_of_ascii c = N_of_ascii d -> c = d.
Proof.
  intros H. rewrite <- (ascii_N_embedding c), <- (ascii_N_embedding d), H.
  reflexivity.
Qed.

Lemma string_less_total a : forall b,
  string_less a b = false -> string_less b a = false -> a = b.
Proof.
  induction a as [|x a IH]; intros [|y b]; cbn [string_less];
    try discriminate; try reflexivity.
  intros H1 H2.
  apply orb_false_iff in H1 as [H1 H1'].
  apply orb_false_iff in H2 as [H2 H2'].
  apply N.ltb_ge in H1, H2.
  assert (E : N_of_ascii x = N_of_ascii y) by lia.
  rewrite E, N.eqb_refl in H1', H2'. cbn in H1', H2'.
  apply N_of_ascii_inj in E. subst y. f_equal. apply IH; assumption.
Qed.

(** X24.  [DeltaObject::operator<] is a strict weak order, as the keys of
    a [std::map] require: it is irreflexive and transitive, and two objects
    are equivalent for it exactly when they have the same size and the same
    name.  The type plays no part: [ReportPayloadUsage] counts operations
    of the same name and size under one key, whatever their types. *)
Theorem DeltaObject_less_strict_weak_order :
  (forall a, DeltaObject_less a a = false)
  /\ (forall a b c,
        DeltaObject_less a b = true -> DeltaObject_less b c = true ->
        DeltaObject_less a c = true)
  /\ (forall a b,
        equivalent a b
        <-> object_size a = object_size b /\ object_name a = object_name b).
Proof.
  unfold equivalent, DeltaObject_less. split; [|split].
  - intros a. rewrite Z.eqb_refl. apply string_less_irrefl.
  - intros a b c.
    destruct (Z.eqb_spec (object_size a) (object_size b)) as [Eab | Nab],
             (Z.eqb_spec (object_size b) (object_size c)) as [Ebc | Nbc],
             (Z.eqb_spec (object_size a) (object_size c)) as [Eac | Nac];
      cbn [negb]; rewrite ?Z.ltb_lt; try lia; try apply string_less_trans.
  - intros a b.
    destruct (Z.eqb_spec (object_size a) (object_size b)) as [E | N].
    + rewrite E, Z.eqb_refl. cbn [negb]. split.
      * intros [H1 H2]. split; [reflexivity|].
        apply string_less_total; assumption.
      * intros [_ ->]. split; apply string_less_irrefl.
    + destruct (Z.eqb_spec (object_size b) (object_size a)) as [E' | N'];
        [congruence|]. cbn [negb]. rewrite !Z.ltb_ge. split; [lia | tauto].
Qed.

(** X24, witness: two operations of different types under one key. *)
Lemma DeltaObject_less_strict_weak_order_witness :
  equivalent
    {| object_name := "<system>:op"; object_type := 0; object_size := 4096 |}
    {| object_name := "<system>:op"; object_type := 8; object_size := 4096 |}.
Proof.
  apply DeltaObject_less_strict_weak_order. split; reflexivity.
Defined.

End UsageReportProofs.

(** * Properties of the verity writer *)

Module VerityWriterProofs.
Import VerityWriter.

Section Finalize.
Context {Writer : Type}.
Context (FECFinished : Writer -> bool).
Context (IncrementalFinalize : Writer -> bool * Writer).

(** X25.  [Finalize] returns true only when the writer reports that the
    FEC is finished, after calls of [IncrementalFinalize] that all
    succeeded, each made on an unfinished writer; it returns false right
    after the first call that fails, leaving the writer as that call left
    it. *)
Theorem Finalize_result fuel : forall w ok w',
  Finalize FECFinished IncrementalFinalize fuel w = Some (ok, w') ->
  exists n,
    (n < fuel)%nat
    /\ calls_succeed FECFinished IncrementalFinalize n w
    /\ let last := after_calls IncrementalFinalize n w in
       if ok then w' = last /\ FECFinished w' = true
       else FECFinished last = false
            /\ IncrementalFinalize last = (false, w').
Proof.
  induction fuel as [|fuel IH]; intros w ok w' H; [discriminate|].
  cbn [Finalize] in H.
  destruct (FECFinished w) eqn:Efinished.
  - inversion H; subst. exists O. split; [lia|]. cbn. auto.
  - destruct (IncrementalFinalize w) as [[|] w1] eqn:Estep.
    + apply IH in H as (n & Hn & Hcalls & Hlast).
      exists (S n). split; [lia|]. cbn [calls_succeed after_calls].
      rewrite Estep. cbn [fst snd]. auto.
    + inversion H; subst. exists O. split; [lia|]. cbn. auto.
Qed.

(** X26.  [Finalize] ends whenever every successful call of
    [IncrementalFinalize] on an unfinished writer brings it closer to the
    end: with a measure of what is left that such calls decrease, the loop
    returns within as many turns as the measure tells, and one more. *)
Theorem Finalize_terminates (remaining : Writer -> nat) :
  (forall w,
      FECFinished w = false -> fst (IncrementalFinalize w) = true ->
      (remaining (snd (IncrementalFinalize w)) < remaining w)%nat) ->
  forall fuel w,
    (remaining w < fuel)%nat ->
    is_Some (Finalize FECFinished IncrementalFinalize fuel w).
Proof.
  intros Hdecreases. induction fuel as [|fuel IH]; intros w Hfuel; [lia|].
  cbn [Finalize].
  destruct (FECFinished w) eqn:Efinished; [eauto|].
  specialize (Hdecreases w Efinished).
  destruct (IncrementalFinalize w) as [[|] w1]; [|eauto].
  cbn [fst snd] in Hdecreases. apply IH.
  specialize (Hdecreases eq_refl). lia.
Qed.

End Finalize.

(** X25, witness: three blocks left, none of them bad. *)
Lemma Finalize_result_witness :
  exists n,
    (n < 10)%nat
    /\ calls_succeed blocks_finished (write_block 7) n 3%nat
    /\ let last := after_calls (write_block 7) n 3%nat in
       O = last /\ blocks_finished O = true.
Proof.
  apply (Finalize_result blocks_finished (write_block 7) 10 3%nat true O).
  vm_compute. reflexivity.
Defined.

(** X26, witness. *)
Lemma Finalize_terminates_witness :
  is_Some (Finalize blocks_finished (write_block 7) 4 3%nat).
Proof.
  apply (Finalize_terminates blocks_finished (write_block 7) (fun left => left)).
  - intros w Hw _. unfold blocks_finished in Hw.
    apply bool_decide_eq_false in Hw. cbn. lia.
  - lia.
Defined.

End VerityWriterProofs.

(** * Properties of the fake hardware *)

Module FakeHardwareProofs.
Import FakeHardware.

Lemma call_save_rollback_data c s :
  save_rollback_data_ (snd (call c s)) = save_rollback_data_ s.
Proof.
  destruct s. destruct c; cbn; try reflexivity.
  match goal with |- context [if ?b then _ else _] => destruct b end;
    reflexivity.
Qed.

(** X27.  A rollback powerwash is never scheduled: nothing sets
    [save_rollback_data_], so that [GetIsRollbackPowerwashScheduled] is
    false after any sequence of calls on a new object, whether a powerwash
    is scheduled or not. *)
Theorem rollback_powerwash_never_scheduled l :
  GetIsRollbackPowerwashScheduled (calls l initial) = false.
Proof.
  assert (H : forall s, save_rollback_data_ (calls l s) = save_rollback_data_ s).
  { unfold calls. induction l as [|c l IH]; intros s; [reflexivity|].
    cbn [fold_left]. rewrite IH. apply call_save_rollback_data. }
  unfold GetIsRollbackPowerwashScheduled. rewrite H. cbn.
  apply andb_false_r.
Qed.

Lemma call_firmware_locked c s :
  GetMaxFirmwareKeyRollforward s = -1 ->
  GetMaxFirmwareKeyRollforward (snd (call c s)) = -1
  /\ (forall v, c = SetMaxFirmwareKeyRollforward v -> fst (call c s) = false).
Proof.
  unfold GetMaxFirmwareKeyRollforward. destruct s. cbn [firmware_max_rollforward_].
  intros ->. destruct c; cbn; split; try reflexivity; intros v' E;
    try discriminate; reflexivity.
Qed.

(** X28.  Setting the maximal firmware key rollforward to -1 is final:
    once [GetMaxFirmwareKeyRollforward] is -1, it stays -1 through any
    sequence of calls, and every [SetMaxFirmwareKeyRollforward] fails.  A
    new object starts at -2, the value of the literal 0xfffffffe as an
    [int], so that the first call succeeds. *)
Theorem firmware_rollforward_lock l s :
  GetMaxFirmwareKeyRollforward s = -1 ->
  GetMaxFirmwareKeyRollforward (calls l s) = -1
  /\ (forall v, fst (call (SetMaxFirmwareKeyRollforward v) (calls l s)) = false)
  /\ GetMaxFirmwareKeyRollforward initial = -2
  /\ forall v,
       call (SetMaxFirmwareKeyRollforward v) initial
       = (true, snd (call (SetMaxFirmwareKeyRollforward v) initial))
       /\ GetMaxFirmwareKeyRollforward
            (snd (call (SetMaxFirmwareKeyRollforward v) initial)) = v.
Proof.
  intros H.
  assert (Hl : GetMaxFirmwareKeyRollforward (calls l s) = -1).
  { revert s H. unfold calls. induction l as [|c l IH]; intros s H; [exact H|].
    cbn [fold_left]. apply IH. apply call_firmware_locked. exact H. }
  split; [exact Hl|]. split.
  - intros v. eapply call_firmware_locked; [exact Hl | reflexivity].
  - split; [reflexivity|]. intros v. split; reflexivity.
Qed.

(** X28, witness: locked by a first call, then tried again. *)
Lemma firmware_rollforward_lock_witness :
  GetMaxFirmwareKeyRollforward
    (calls [SchedulePowerwash; SetMaxFirmwareKeyRollforward 5]
       (snd (call (SetMaxFirmwareKeyRollforward (-1)) initial))) = -1.
Proof.
  apply firmware_rollforward_lock. reflexivity.
Defined.

End FakeHardwareProofs.
